(** * karabo_data.geometry2: detector geometry, snapping and assembly

    A shallow embedding of [karabo_data/geometry2.py], the properties of
    its geometry model that the specification states, and further
    properties of the code.

    Conventions of the embedding.
    - Lab-frame coordinates are numpy float arrays in the source; they are
      modelled by exact rationals ([Q]), so [np.around] is rounding of a
      rational to the nearest integer, ties to even.
    - Grid coordinates are numpy integer arrays ([int32] after rounding,
      [int64] once a shift is added); they are modelled by [Z].  Detector
      coordinates are a few thousand pixels, far from either width; a
      theorem that depends on the value of a rounded corner states the
      range ([fits_int32], or bounds on the inputs from which it follows).
    - Sums and products of coordinates are exact.  A theorem in which the
      rounding of a float sum could change a decision (the rounding of a
      generated corner) is stated for inputs on a grid on which the float
      arithmetic of the source is exact ([exact_coordinate]).
    - Arrays are of a float dtype: [nan] is an element, and a new array can
      be filled with it.
    - A Python exception is a value of [exn]; a function that can raise
      returns a [result].
    - An [ndarray] is a shape together with an indexing function, which is
      what a numpy view is: slicing, transposition and reversal are changes
      of index. *)

From Stdlib Require Import ZArith QArith Qround Qabs Qminmax List Bool Lia Lqa.
Import ListNotations.

Local Open Scope Z_scope.

(** ** Exceptions *)

Inductive exn : Type :=
| AssertionError
| ValueError
| IndexError
| AxisError
| LinAlgError
| NotImplementedError.

Inductive result (A : Type) : Type :=
| Ok (a : A)
| Raise (e : exn).

Arguments Ok {A} a.
Arguments Raise {A} e.

Definition bind {A B : Type} (r : result A) (k : A -> result B) : result B :=
  match r with
  | Ok a => k a
  | Raise e => Raise e
  end.

Notation "x <- r ;; k" := (bind r (fun x => k))
  (at level 61, r at next level, right associativity).
Notation "' p <- r ;; k" := (bind r (fun p => k))
  (at level 61, p pattern, r at next level, right associativity).

Definition is_ok {A : Type} (r : result A) : bool :=
  match r with Ok _ => true | Raise _ => false end.

(** ** Small vectors *)

(** A length-3 float array [(x, y, z)]. *)
Record vec3 : Type := V3 { vx : Q; vy : Q; vz : Q }.

(** A length-2 array; [fst] is index 0 and [snd] is index 1. *)
Definition qvec2 : Type := (Q * Q)%type.
Definition zvec2 : Type := (Z * Z)%type.

(** [v[:2]] *)
Definition first2 (v : vec3) : qvec2 := (vx v, vy v).

(** [v[::-1]] on a length-2 array *)
Definition rev2 {A : Type} (v : A * A) : A * A := (snd v, fst v).

Definition v3add (a b : vec3) : vec3 :=
  V3 (vx a + vx b)%Q (vy a + vy b)%Q (vz a + vz b)%Q.

Definition v3scale (a : vec3) (k : Q) : vec3 :=
  V3 (vx a * k)%Q (vy a * k)%Q (vz a * k)%Q.

Definition v3eq (a b : vec3) : Prop :=
  (vx a == vx b)%Q /\ (vy a == vy b)%Q /\ (vz a == vz b)%Q.

Definition z2add (a b : zvec2) : zvec2 := (fst a + fst b, snd a + snd b).
Definition z2sub (a b : zvec2) : zvec2 := (fst a - fst b, snd a - snd b).
Definition z2neg (a : zvec2) : zvec2 := (- fst a, - snd a).
Definition z2abs (a : zvec2) : zvec2 := (Z.abs (fst a), Z.abs (snd a)).
Definition z2min (a b : zvec2) : zvec2 := (Z.min (fst a) (fst b), Z.min (snd a) (snd b)).
Definition z2max (a b : zvec2) : zvec2 := (Z.max (fst a) (fst b), Z.max (snd a) (snd b)).

Definition z2eqb (a b : zvec2) : bool :=
  (fst a =? fst b) && (snd a =? snd b).

(** ** Rounding *)

(** [np.around(q)]: the nearest integer, a tie going to the even one. *)
Definition around (q : Q) : Z :=
  let f := Qfloor q in
  match (q - inject_Z f ?= 1 # 2)%Q with
  | Lt => f
  | Gt => f + 1
  | Eq => if Z.even f then f else f + 1
  end.

(** [np.around(v).astype(np.int32)] on a length-2 array.  The cast is the
    identity on the range of [int32]; what it gives beyond the range is left
    to the platform and is not modelled. *)
Definition around2 (v : qvec2) : zvec2 := (around (fst v), around (snd v)).

(** [float.astype(int)]: truncation towards zero. *)
Definition trunc (q : Q) : Z := Z.quot (Qnum q) (Zpos (Qden q)).

(** ** Python sequences *)

(** [l[i]] for a Python list: a negative index counts from the end. *)
Definition getitem {A : Type} (l : list A) (i : Z) : result A :=
  let n := Z.of_nat (length l) in
  let i' := if i <? 0 then i + n else i in
  if (0 <=? i') && (i' <? n) then
    match nth_error l (Z.to_nat i') with
    | Some a => Ok a
    | None => Raise IndexError
    end
  else Raise IndexError.

(** [range(n)] *)
Definition range (n : Z) : list Z := map Z.of_nat (seq 0 (Z.to_nat n)).

(** [[f(x) for x in l]], where [f] may raise. *)
Fixpoint comprehension {A B : Type} (f : A -> result B) (l : list A)
    : result (list B) :=
  match l with
  | [] => Ok []
  | a :: r => b <- f a ;; bs <- comprehension f r ;; Ok (b :: bs)
  end.

(** [for i, a in enumerate(l, start): s = body(i, a, s)], where the body may
    raise. *)
Fixpoint for_enumerate {A St : Type} (body : nat -> A -> St -> result St)
    (start : nat) (l : list A) (s : St) : result St :=
  match l with
  | [] => Ok s
  | a :: r => s' <- body start a s ;; for_enumerate body (S start) r s'
  end.

Definition list_Z_eqb (a b : list Z) : bool :=
  if list_eq_dec Z.eq_dec a b then true else false.

(** ** numpy arrays *)

(** An element of an array of floats; [None] is [np.nan]. *)
Definition pixel : Type := option Q.
Definition nan : pixel := None.

Record ndarray : Type := NdArray {
  shape : list Z;
  item : list Z -> pixel
}.

(** [s[-3:]] and [s[:-3]] of a shape tuple *)
Definition last3 (s : list Z) : list Z := skipn (length s - 3) s.
Definition drop_last3 (s : list Z) : list Z := firstn (length s - 3) s.

(** [s[-2:]] and [s[:-2]] *)
Definition last2 (s : list Z) : list Z := skipn (length s - 2) s.
Definition drop_last2 (s : list Z) : list Z := firstn (length s - 2) s.

(** [np.full(shape, value)], for a float dtype: with another [dtype] the
    fill is what the value is cast to. *)
Definition np_full (s : list Z) (v : pixel) : ndarray :=
  NdArray s (fun _ => v).

(** [a[..., i, :, :]], for [0 <= i]. *)
Definition select_module (a : ndarray) (i : Z) : result ndarray :=
  match last3 (shape a) with
  | [m; s; f] =>
      if i <? m then
        Ok (NdArray (drop_last3 (shape a) ++ [s; f])
                    (fun idx => item a (drop_last2 idx ++ i :: last2 idx)))
      else Raise IndexError
  | _ => Raise IndexError
  end.

(** [np.split(a, k, axis=-2)] (for [k > 0]): [k] equal parts of the
    second-to-last axis. *)
Definition split_rows (a : ndarray) (k : Z) : result (list ndarray) :=
  match last2 (shape a) with
  | [s; f] =>
      if s mod k =? 0 then
        let s' := s / k in
        Ok (map (fun j =>
                   NdArray (drop_last2 (shape a) ++ [s'; f])
                     (fun idx =>
                        match last2 idx with
                        | [r; c] => item a (drop_last2 idx ++ [j * s' + r; c])
                        | _ => nan
                        end))
                (range k))
      else Raise ValueError
  | _ => Raise IndexError
  end.

(** [np.split(a, k, axis=-1)] (for [k > 0]) *)
Definition split_cols (a : ndarray) (k : Z) : result (list ndarray) :=
  match rev (shape a) with
  | f :: rest =>
      if f mod k =? 0 then
        let f' := f / k in
        Ok (map (fun j =>
                   NdArray (rev rest ++ [f'])
                     (fun idx =>
                        match rev idx with
                        | c :: ridx => item a (rev ridx ++ [j * f' + c])
                        | [] => nan
                        end))
                (range k))
      else Raise ValueError
  | [] => Raise IndexError
  end.

(** [a.swapaxes(-1, -2)] *)
Definition swapaxes (a : ndarray) : result ndarray :=
  match last2 (shape a) with
  | [s; f] =>
      Ok (NdArray (drop_last2 (shape a) ++ [f; s])
                  (fun idx =>
                     match last2 idx with
                     | [r; c] => item a (drop_last2 idx ++ [c; r])
                     | _ => nan
                     end))
  | _ => Raise AxisError
  end.

(** The length of [range(len)[::step]], and the source index of its [i]th
    element. *)
Definition step_len (len step : Z) : Z :=
  (len + Z.abs step - 1) / Z.abs step.
Definition step_index (len step i : Z) : Z :=
  if 0 <? step then i * step else len - 1 + i * step.

(** [a[..., ::row_step, ::col_step]] *)
Definition slice_steps (a : ndarray) (rs cs : Z) : result ndarray :=
  match last2 (shape a) with
  | [s; f] =>
      if (rs =? 0) || (cs =? 0) then Raise ValueError
      else
        Ok (NdArray (drop_last2 (shape a) ++ [step_len s rs; step_len f cs])
                    (fun idx =>
                       match last2 idx with
                       | [r; c] =>
                           item a (drop_last2 idx ++
                                   [step_index s rs r; step_index f cs c])
                       | _ => nan
                       end))
  | _ => Raise IndexError
  end.

(** The bounds of [range(len)[start:stop]], as [slice.indices] gives them. *)
Definition clip_index (i len : Z) : Z :=
  if i <? 0 then Z.max (i + len) 0 else Z.min i len.
Definition slice_bounds (start stop len : Z) : Z * Z :=
  (clip_index start len, clip_index stop len).
Definition slice_len (start stop len : Z) : Z :=
  let '(a, b) := slice_bounds start stop len in Z.max (b - a) 0.

(** numpy broadcasting of a value of shape [v] into a target of shape [t],
    both given last axis first. *)
Fixpoint broadcastable_rev (v t : list Z) : bool :=
  match v, t with
  | [], _ => true
  | x :: v', [] => (x =? 1) && broadcastable_rev v' []
  | x :: v', y :: t' => ((x =? y) || (x =? 1)) && broadcastable_rev v' t'
  end.

Fixpoint broadcast_index_rev (v idx : list Z) : list Z :=
  match v with
  | [] => []
  | d :: v' =>
      match idx with
      | [] => 0 :: broadcast_index_rev v' []
      | x :: idx' => (if d =? 1 then 0 else x) :: broadcast_index_rev v' idx'
      end
  end.

(** [out[..., y0:y1, x0:x1] = value] *)
Definition assign_block (out : ndarray) (y0 y1 x0 x1 : Z) (value : ndarray)
    : result ndarray :=
  match last2 (shape out) with
  | [rows; cols] =>
      let '(ya, yb) := slice_bounds y0 y1 rows in
      let '(xa, xb) := slice_bounds x0 x1 cols in
      let target :=
        drop_last2 (shape out) ++ [Z.max (yb - ya) 0; Z.max (xb - xa) 0] in
      if broadcastable_rev (rev (shape value)) (rev target) then
        Ok (NdArray (shape out)
              (fun idx =>
                 match last2 idx with
                 | [r; c] =>
                     if (ya <=? r) && (r <? yb) && (xa <=? c) && (c <? xb) then
                       item value
                         (rev (broadcast_index_rev (rev (shape value))
                                 (rev (drop_last2 idx ++ [r - ya; c - xa]))))
                     else item out idx
                 | _ => item out idx
                 end))
      else Raise ValueError
  | _ => Raise IndexError
  end.

(** ** GridGeometryFragment *)

(** The closure stored in [self.transform], as the data it captures:
    whether the last two axes are swapped first, then the steps of the two
    slices [::row_step, ::col_step]. *)
Record transform_op : Type := Transform {
  swap_axes : bool;
  row_step : Z;
  col_step : Z
}.

(** Calling the closure on an array. *)
Definition apply_transform (op : transform_op) (a : ndarray) : result ndarray :=
  if swap_axes op then
    b <- swapaxes a ;; slice_steps b (row_step op) (col_step op)
  else slice_steps a (row_step op) (col_step op).

(** Coordinates of this class are (y, x), that is (row, column). *)
Record GridGeometryFragment : Type := MkGrid {
  g_ss_vec : zvec2;
  g_fs_vec : zvec2;
  g_ss_pixels : Z;
  g_fs_pixels : Z;
  transform : transform_op;
  pixel_dims : zvec2;
  corner_idx : zvec2;
  opp_corner_idx : zvec2
}.

Module GridGeometryFragment.

(** [GridGeometryFragment.__init__] *)
Definition init (corner_pos ss_vec fs_vec : zvec2) (ss_pixels fs_pixels : Z)
    : GridGeometryFragment :=
  if fst fs_vec =? 0 then
    (* Flip without transposing *)
    let fs_order := snd fs_vec in
    let ss_order := fst ss_vec in
    let corner_shift :=
      (Z.min ss_order 0 * ss_pixels, Z.min fs_order 0 * fs_pixels) in
    let dims := (ss_pixels, fs_pixels) in
    let corner := z2add corner_pos corner_shift in
    MkGrid ss_vec fs_vec ss_pixels fs_pixels
           (Transform false ss_order fs_order)
           dims corner (z2add corner dims)
  else
    (* Transpose and then flip *)
    let fs_order := fst fs_vec in
    let ss_order := snd ss_vec in
    let corner_shift :=
      (Z.min fs_order 0 * fs_pixels, Z.min ss_order 0 * ss_pixels) in
    let dims := (fs_pixels, ss_pixels) in
    let corner := z2add corner_pos corner_shift in
    MkGrid ss_vec fs_vec ss_pixels fs_pixels
           (Transform true fs_order ss_order)
           dims corner (z2add corner dims).

End GridGeometryFragment.

(** ** GeometryFragment *)

(** Coordinates of this class are (x, y, z), in pixel units. *)
Record GeometryFragment : Type := MkFragment {
  corner_pos : vec3;
  ss_vec : vec3;
  fs_vec : vec3;
  ss_pixels : Z;
  fs_pixels : Z
}.

(** The comparison [{a, b} == {(0, 1), (1, 0)}] of two Python sets of
    tuples. *)
Definition is_canonical_pair (a b : zvec2) : bool :=
  (z2eqb a (0, 1) && z2eqb b (1, 0)) || (z2eqb a (1, 0) && z2eqb b (0, 1)).

Module GeometryFragment.

(** The four corners, in winding order. *)
Definition corners (self : GeometryFragment) : list vec3 :=
  [ corner_pos self;
    v3add (corner_pos self)
          (v3scale (fs_vec self) (inject_Z (fs_pixels self)));
    v3add (v3add (corner_pos self)
                 (v3scale (ss_vec self) (inject_Z (ss_pixels self))))
          (v3scale (fs_vec self) (inject_Z (fs_pixels self)));
    v3add (corner_pos self)
          (v3scale (ss_vec self) (inject_Z (ss_pixels self))) ].

Definition centre (self : GeometryFragment) : vec3 :=
  v3add (v3add (corner_pos self)
               (v3scale (v3scale (ss_vec self) (1 # 2))
                        (inject_Z (ss_pixels self))))
        (v3scale (v3scale (fs_vec self) (1 # 2)) (inject_Z (fs_pixels self))).

(** The three rounded arrays that [snap] starts from, in (x, y) order. *)
Definition rounded_corner (self : GeometryFragment) : zvec2 :=
  around2 (first2 (corner_pos self)).
Definition rounded_ss (self : GeometryFragment) : zvec2 :=
  around2 (first2 (ss_vec self)).
Definition rounded_fs (self : GeometryFragment) : zvec2 :=
  around2 (first2 (fs_vec self)).

(** The failing [assert] is the error the specification calls
    NonAxisAlignedGeometry. *)
Definition snap (self : GeometryFragment) : result GridGeometryFragment :=
  let corner_pos := rounded_corner self in
  let ss_vec := rounded_ss self in
  let fs_vec := rounded_fs self in
  if is_canonical_pair (z2abs ss_vec) (z2abs fs_vec) then
    (* Convert xy coordinates to yx indexes *)
    Ok (GridGeometryFragment.init (rev2 corner_pos) (rev2 ss_vec) (rev2 fs_vec)
                                  (ss_pixels self) (fs_pixels self))
  else Raise AssertionError.

End GeometryFragment.

(** ** Detector classes *)

(** A module is a list of fragments, a geometry a list of modules. *)
Definition fragments : Type := list (list GeometryFragment).

Definition qvec2_min (a b : qvec2) : qvec2 :=
  (Qmin (fst a) (fst b), Qmin (snd a) (snd b)).
Definition qvec2_max (a b : qvec2) : qvec2 :=
  (Qmax (fst a) (fst b), Qmax (snd a) (snd b)).
Definition trunc2 (v : qvec2) : zvec2 := (trunc (fst v), trunc (snd v)).

(** [a.min(axis=0)] and [a.max(axis=0)] of an (n, 2) array, which raise on
    an empty one. *)
Definition reduce_axis0 {A : Type} (op : A -> A -> A) (l : list A) : result A :=
  match l with
  | [] => Raise ValueError
  | c :: r => Ok (fold_left op r c)
  end.

(** [np.stack] and [np.concatenate] of a Python list of arrays, which raise
    on an empty list. *)
Definition np_stack {A : Type} (l : list A) : result (list A) :=
  match l with
  | [] => Raise ValueError
  | _ => Ok l
  end.
Definition np_concatenate {A : Type} (l : list (list A)) : result (list A) :=
  match l with
  | [] => Raise ValueError
  | _ => Ok (concat l)
  end.

(** [np.nanmax] of two elements. *)
Definition nanmax2 (a b : pixel) : pixel :=
  match a, b with
  | None, _ => b
  | _, None => a
  | Some x, Some y => Some (Qmax x y)
  end.

(** A 2 by 2 matrix, as its rows. *)
Definition mat2 : Type := (qvec2 * qvec2)%type.

Definition mat2_dot (m : mat2) (v : qvec2) : qvec2 :=
  ((fst (fst m) * fst v + snd (fst m) * snd v)%Q,
   (fst (snd m) * fst v + snd (snd m) * snd v)%Q).

(** [np.linalg.inv], in exact arithmetic: it raises on a zero determinant.
    The LU factorisation of the source raises on a pivot that is zero in
    binary64, which is the same for a matrix that is [well_conditioned] and
    may differ for one that is nearly singular. *)
Definition mat2_inv (m : mat2) : result mat2 :=
  let '((a, b), (c, d)) := m in
  let det := (a * d - b * c)%Q in
  if Qeq_bool det 0 then Raise LinAlgError
  else Ok ((d / det, - b / det)%Q, (- c / det, a / det)%Q).

Module AGIPD_1MGeometry.

Definition pixel_size : Q := 2 # 10000.  (* 2e-4 metres == 0.2 mm *)
Definition frag_ss_pixels : Z := 64.
Definition frag_fs_pixels : Z := 128.
Definition expected_data_shape : list Z := [16; 512; 128].

(** Generate an AGIPD-1M geometry from quadrant positions; the result is
    the [modules] the new object is built from.  The sums are exact; those
    of the source are, in binary64, for positions and gaps that are
    [exact_coordinate]s. *)
Definition from_quad_positions (quad_pos : list qvec2) (asic_gap panel_gap : Q)
    : result fragments :=
  let quads_x_orientation := [1; 1; -1; -1] in
  let quads_y_orientation := [-1; -1; 1; 1] in
  comprehension (fun p =>
    let quad := p / 4 in
    quad_corner <- getitem quad_pos quad ;;
    x_orient <- getitem quads_x_orientation quad ;;
    y_orient <- getitem quads_y_orientation quad ;;
    let p_in_quad := p mod 4 in
    let corner_y :=
      (snd quad_corner - inject_Z p_in_quad * (128 + panel_gap))%Q in
    comprehension (fun a =>
      let corner_x :=
        (fst quad_corner + inject_Z x_orient * (64 + asic_gap) * inject_Z a)%Q in
      Ok (MkFragment (V3 corner_x corner_y 0)
                     (V3 (inject_Z x_orient) 0 0)
                     (V3 0 (inject_Z y_orient) 0)
                     frag_ss_pixels frag_fs_pixels))
      (range 8))
    (range 16).

Definition from_quad_positions_default (quad_pos : list qvec2)
    : result fragments :=
  from_quad_positions quad_pos 2 29.

(** Calculate appropriate array dimensions for assembling data.
    Returns (size_y, size_x), (centre_y, centre_x). *)
Definition _get_dimensions (modules : fragments) : result (zvec2 * zvec2) :=
  corners <- np_concatenate
               (flat_map (fun module => map GeometryFragment.corners module)
                         modules) ;;
  let corners := map first2 corners in
  (* Find extremes, add 1 px margin to allow for rounding errors *)
  lo <- reduce_axis0 qvec2_min corners ;;
  hi <- reduce_axis0 qvec2_max corners ;;
  let min_xy := z2sub (trunc2 lo) (1, 1) in
  let max_xy := z2add (trunc2 hi) (1, 1) in
  let size := z2sub max_xy min_xy in
  let centre := z2neg min_xy in
  (* Switch xy -> yx *)
  Ok (rev2 size, rev2 centre).

(** Split into 8 tiles along the slow-scan axis *)
Definition split_tiles (module_data : ndarray) : result (list ndarray) :=
  split_rows module_data 8.

Section Interpolate.

(** [scipy.ndimage.affine_transform (input, matrix, offset, cval=nan,
    output_shape)]: the resampled array, which has the shape asked for. *)
Variable affine_transform : ndarray -> mat2 -> qvec2 -> zvec2 -> ndarray.

(** What [np.empty] leaves in the elements of a new array. *)
Variable uninitialised : list Z -> pixel.

(** [tmp[k]], as the output that the resampler fills; the loops only reach
    planes below 16 * 8. *)
Definition set_plane (tmp : ndarray) (k : Z) (plane : ndarray) : ndarray :=
  NdArray (shape tmp)
          (fun idx =>
             match idx with
             | k' :: rest => if k' =? k then item plane rest else item tmp idx
             | [] => item tmp idx
             end).

(** [np.nanmax(tmp, axis=0)] of a 3-dimensional array *)
Definition nanmax_axis0 (tmp : ndarray) : result ndarray :=
  match shape tmp with
  | n :: rest =>
      if n <=? 0 then Raise ValueError
      else Ok (NdArray rest
                 (fun idx =>
                    fold_left nanmax2
                      (map (fun k => item tmp (k :: idx))
                           (tl (range n)))
                      (item tmp (0 :: idx))))
  | [] => Raise AxisError
  end.

(** The body of the inner loop: resample tile [j] of module [i] into its
    plane of [tmp]. *)
Definition interpolate_tile (size_yx centre : zvec2) (i j : nat)
    (tile : GeometryFragment) (tile_data : ndarray) (tmp : ndarray)
    : result ndarray :=
  (* We store (x, y, z), but numpy indexing, and hence affine_transform,
     work like [y, x]. Rearrange the numbers: *)
  let fs_vec_yx := rev2 (first2 (fs_vec tile)) in
  let ss_vec_yx := rev2 (first2 (ss_vec tile)) in
  (* Offset by centre to make all coordinates positive *)
  let corner_pos_yx :=
    ((snd (first2 (corner_pos tile)) + inject_Z (fst centre))%Q,
     (fst (first2 (corner_pos tile)) + inject_Z (snd centre))%Q) in
  (* Make the rotation matrix *)
  let rotn : mat2 :=
    ((fst ss_vec_yx, fst fs_vec_yx), (snd ss_vec_yx, snd fs_vec_yx)) in
  transform <- mat2_inv rotn ;;
  let offset := mat2_dot rotn corner_pos_yx in
  Ok (set_plane tmp (Z.of_nat (i * 8 + j))
        (affine_transform tile_data transform offset size_yx)).

(** Assemble data from this detector according to where the pixels are,
    interpolating. *)
Definition position_modules_interpolate (modules : fragments) (data : ndarray)
    : result (ndarray * zvec2) :=
  if list_Z_eqb (shape data) [16; 512; 128] then
    '(size_yx, centre) <- _get_dimensions modules ;;
    let tmp := NdArray [16 * 8; fst size_yx; snd size_yx] uninitialised in
    tmp <- for_enumerate (fun i module tmp =>
             mod_data <- select_module data (Z.of_nat i) ;;
             tiles_data <- split_rows mod_data 8 ;;
             for_enumerate (fun j tt tmp =>
                 interpolate_tile size_yx centre i j (fst tt) (snd tt) tmp)
               0 (combine module tiles_data) tmp)
           0 (firstn 16 modules) tmp ;;
    out <- nanmax_axis0 tmp ;;
    Ok (out, centre)
  else Raise AssertionError.

End Interpolate.

(** The distortion array, of shape (8192, 128, 4, 3): row, column, pixel
    corner, and (z, y, x) coordinate. *)
Definition distortion : Type := Z -> Z -> Z -> Z -> Q.

Definition corner_ss_offsets : list Q := [- (1 # 2); 1 # 2; 1 # 2; - (1 # 2)]%Q.
Definition corner_fs_offsets : list Q := [- (1 # 2); - (1 # 2); 1 # 2; 1 # 2]%Q.

Definition offset_at (offsets : list Q) (k : Z) : Q :=
  nth (Z.to_nat k) offsets 0%Q.

(** One coordinate of the corners of the pixels of a tile, a (64, 128, 4)
    array: [corner], [ss_unit] and [fs_unit] are that coordinate of the
    tile's corner and of its two unit steps, in metres. *)
Definition pixel_corners (corner ss_unit fs_unit : Q) (i j k : Z) : Q :=
  let pixel_centre :=
    (corner + inject_Z i * ss_unit + inject_Z j * fs_unit)%Q in
  (pixel_centre + offset_at corner_ss_offsets k * ss_unit
                + offset_at corner_fs_offsets k * fs_unit)%Q.

(** [distortion[tile_slice, :, :, c] = corners]: the (64, 128, 4) value
    must fit the rows that the slice selects. *)
Definition set_tile_coord (d : distortion) (start stop : Z) (c : Z)
    (value : Z -> Z -> Z -> Q) : result distortion :=
  let '(a, b) := slice_bounds start stop 8192 in
  if broadcastable_rev [4; 128; 64] [4; 128; Z.max (b - a) 0] then
    Ok (fun row col k coord =>
          if (a <=? row) && (row <? b) && (coord =? c)
          then value (row - a) col k
          else d row col k coord)
  else Raise ValueError.

(** The loops of [to_distortion_array]: the array before its origin is
    shifted.  [pixel_size] is [self.pixel_size]. *)
Definition fill_distortion (pixel_size : Q) (modules : fragments)
    : result distortion :=
  for_enumerate (fun m mod_ d =>
      (* module offset along first dimension of distortion array *)
      let module_offset := Z.of_nat m * 512 in
      for_enumerate (fun t tile d =>
          let c := v3scale (corner_pos tile) pixel_size in
          let ss_unit := v3scale (ss_vec tile) pixel_size in
          let fs_unit := v3scale (fs_vec tile) pixel_size in
          let corners_x := pixel_corners (vx c) (vx ss_unit) (vx fs_unit) in
          let corners_y := pixel_corners (vy c) (vy ss_unit) (vy fs_unit) in
          let corners_z := pixel_corners (vz c) (vz ss_unit) (vz fs_unit) in
          (* Which part of the array is this tile? *)
          let tile_offset := module_offset + Z.of_nat t * 64 in
          let stop := tile_offset + ss_pixels tile in
          (* Insert the data into the array *)
          d <- set_tile_coord d tile_offset stop 0 corners_z ;;
          d <- set_tile_coord d tile_offset stop 1 corners_y ;;
          set_tile_coord d tile_offset stop 2 corners_x)
        0 mod_ d)
    0 modules (fun _ _ _ _ => 0%Q).

(** [distortion[..., c].min(axis=(0, 1, 2))] *)
Definition min_coord (d : distortion) (c : Z) : Q :=
  fold_left (fun acc row =>
    fold_left (fun acc col =>
      fold_left (fun acc k => Qmin acc (d row col k c)) (range 4) acc)
      (range 128) acc)
    (range 8192) (d 0 0 0 c).

(** Shift the x & y origin from the centre to the corner *)
Definition shift_origin (d : distortion) : distortion :=
  let min_y := min_coord d 1 in
  let min_x := min_coord d 2 in
  fun row col k coord =>
    if coord =? 1 then (d row col k coord - min_y)%Q
    else if coord =? 2 then (d row col k coord - min_x)%Q
    else d row col k coord.

Definition to_distortion_array_at (pixel_size : Q) (modules : fragments)
    : result distortion :=
  d <- fill_distortion pixel_size modules ;;
  Ok (shift_origin d).

(** Return distortion matrix for AGIPD detector, suitable for pyFAI *)
Definition to_distortion_array (modules : fragments) : result distortion :=
  to_distortion_array_at pixel_size modules.

End AGIPD_1MGeometry.

Module LPD_1MGeometry.

Definition pixel_size : Q := 5 # 10000.  (* 5e-4 metres == 0.5 mm *)
Definition frag_ss_pixels : Z := 32.
Definition frag_fs_pixels : Z := 128.
Definition expected_data_shape : list Z := [16; 256; 256].

(** Generate an LPD-1M geometry from quadrant positions; the result is the
    [modules] the new object is built from.  The sums are exact; those of
    the source are, in binary64, for positions and gaps that are
    [exact_coordinate]s. *)
Definition from_quad_positions (quad_pos : list qvec2) (asic_gap panel_gap : Q)
    : result fragments :=
  let panels_across := [0; 0; 1; 1] in
  let panels_up := [0; -1; -1; 0] in
  comprehension (fun p =>
    let quad := p / 4 in
    quad_corner <- getitem quad_pos quad ;;
    let '(quad_corner_x, quad_corner_y) := quad_corner in
    let p_in_quad := p mod 4 in
    across_p <- getitem panels_across p_in_quad ;;
    up_p <- getitem panels_up p_in_quad ;;
    let panel_corner_x :=
      (quad_corner_x + inject_Z across_p * (256 + asic_gap + panel_gap))%Q in
    let panel_corner_y :=
      (quad_corner_y + inject_Z up_p * (256 + 7 * asic_gap + panel_gap))%Q in
    comprehension (fun a =>
      let '(up, across) := if a <? 8 then (- a, 0) else (- (15 - a), 1) in
      let corner_x :=
        (panel_corner_x
         + (inject_Z frag_fs_pixels + asic_gap) * inject_Z across)%Q in
      (* The first pixel read is the bottom left of the tile, whereas
         our quad & panel corner coordinates are for the top left.
         So there's an extra -32 pixel shift to correct it: *)
      let corner_y :=
        (panel_corner_y - inject_Z frag_ss_pixels
         + (inject_Z frag_ss_pixels + asic_gap) * inject_Z up)%Q in
      Ok (MkFragment (V3 corner_x corner_y 0) (V3 0 1 0) (V3 1 0 0)
                     frag_ss_pixels frag_fs_pixels))
      (range 16))
    (range 16).

Definition from_quad_positions_default (quad_pos : list qvec2)
    : result fragments :=
  from_quad_positions quad_pos 4 4.

Definition split_tiles (module_data : ndarray) : result (list ndarray) :=
  halves <- split_cols module_data 2 ;;
  match halves with
  | [lhs; rhs] =>
      (* Tiles 1-8 (lhs here) are numbered top to bottom, whereas the array
         starts at the bottom. So we reverse their order after splitting. *)
      l <- split_rows lhs 8 ;;
      r <- split_rows rhs 8 ;;
      Ok (rev l ++ r)
  | _ => Raise ValueError
  end.

End LPD_1MGeometry.

(** The class of a geometry object, and the attributes and the static
    method that a lookup on the object finds. *)
Inductive detector_class : Type :=
| Base
| AGIPD_1M
| LPD_1M.

Definition pixel_size (c : detector_class) : Q :=
  match c with
  | Base => 0
  | AGIPD_1M => AGIPD_1MGeometry.pixel_size
  | LPD_1M => LPD_1MGeometry.pixel_size
  end.

Definition frag_ss_pixels (c : detector_class) : Z :=
  match c with
  | Base => 0
  | AGIPD_1M => AGIPD_1MGeometry.frag_ss_pixels
  | LPD_1M => LPD_1MGeometry.frag_ss_pixels
  end.

Definition frag_fs_pixels (c : detector_class) : Z :=
  match c with
  | Base => 0
  | AGIPD_1M => AGIPD_1MGeometry.frag_fs_pixels
  | LPD_1M => LPD_1MGeometry.frag_fs_pixels
  end.

Definition expected_data_shape (c : detector_class) : list Z :=
  match c with
  | Base => []
  | AGIPD_1M => AGIPD_1MGeometry.expected_data_shape
  | LPD_1M => LPD_1MGeometry.expected_data_shape
  end.

(** [DetectorGeometryBase.split_tiles] must be implemented in subclasses. *)
Definition split_tiles (c : detector_class) (module_data : ndarray)
    : result (list ndarray) :=
  match c with
  | Base => Raise NotImplementedError
  | AGIPD_1M => AGIPD_1MGeometry.split_tiles module_data
  | LPD_1M => LPD_1MGeometry.split_tiles module_data
  end.

(** ** SnappedGeometry *)

(** Detector geometry approximated to align modules to a 2D grid.  Of the
    geometry object it refers to ([self.geom]), the methods read the class
    attributes only. *)
Record SnappedGeometry : Type := MkSnapped {
  s_modules : list (list GridGeometryFragment);
  geom : detector_class
}.

Module SnappedGeometry.

(** Calculate appropriate array dimensions for assembling data.
    Returns (size_y, size_x), (centre_y, centre_x). *)
Definition _get_dimensions (self : SnappedGeometry) : result (zvec2 * zvec2) :=
  corners <- np_stack
               (flat_map (fun module =>
                            flat_map (fun tile =>
                                        [corner_idx tile; opp_corner_idx tile])
                                     module)
                         (s_modules self)) ;;
  (* Find extremes *)
  min_yx <- reduce_axis0 z2min corners ;;
  max_yx <- reduce_axis0 z2max corners ;;
  let size := z2sub max_yx min_yx in
  let centre := z2neg min_yx in
  Ok (size, centre).

(** The body of the inner loop: place tile [j] of a module. *)
Definition place_tile (centre : zvec2) (tiles_data : list ndarray)
    (j : nat) (tile : GridGeometryFragment) (out : ndarray) : result ndarray :=
  tile_data <- getitem tiles_data (Z.of_nat j) ;;
  (* Offset by centre to make all coordinates positive *)
  let '(y, x) := z2add (corner_idx tile) centre in
  let '(h, w) := pixel_dims tile in
  value <- apply_transform (transform tile) tile_data ;;
  assign_block out y (y + h) x (x + w) value.

(** The body of the outer loop: place the tiles of module [i]. *)
Definition place_module (self : SnappedGeometry) (data : ndarray)
    (centre : zvec2) (i : nat) (module : list GridGeometryFragment)
    (out : ndarray) : result ndarray :=
  mod_data <- select_module data (Z.of_nat i) ;;
  tiles_data <- split_tiles (geom self) mod_data ;;
  for_enumerate (place_tile centre tiles_data) 0 module out.

(** Implementation for position_modules_fast.  The new array has the dtype
    of the data, a float dtype in this model, so that its fill is nan. *)
Definition position_modules (self : SnappedGeometry) (data : ndarray)
    : result (ndarray * zvec2) :=
  if list_Z_eqb (last3 (shape data)) (expected_data_shape (geom self)) then
    '(size_yx, centre) <- _get_dimensions self ;;
    let out :=
      np_full (drop_last3 (shape data) ++ [fst size_yx; snd size_yx]) nan in
    out <- for_enumerate (place_module self data centre) 0 (s_modules self) out ;;
    Ok (out, centre)
  else Raise AssertionError.

End SnappedGeometry.

(** ** Geometry objects *)

(** The state of a geometry object: its class, [self.modules] and
    [self._snapped_cache]. *)
Record DetectorGeometry : Type := MkGeometry {
  cls : detector_class;
  modules : fragments;
  _snapped_cache : option SnappedGeometry
}.

Module DetectorGeometryBase.

(** [cls(modules)] *)
Definition init (c : detector_class) (modules : fragments) : DetectorGeometry :=
  MkGeometry c modules None.

(** The snapped geometry computed afresh from [self.modules]. *)
Definition compute_snapped (self : DetectorGeometry) : result SnappedGeometry :=
  new_modules <- comprehension (fun module =>
                   comprehension GeometryFragment.snap module)
                 (modules self) ;;
  Ok (MkSnapped new_modules (cls self)).

(** Snap geometry to a 2D pixel grid.  Returns what the call returns or
    raises, and the object after the call. *)
Definition _snapped (self : DetectorGeometry)
    : result SnappedGeometry * DetectorGeometry :=
  match _snapped_cache self with
  | None =>
      match compute_snapped self with
      | Ok sg => (Ok sg, MkGeometry (cls self) (modules self) (Some sg))
      | Raise e => (Raise e, self)
      end
  | Some sg => (Ok sg, self)
  end.

(** Assemble data from this detector according to where the pixels are. *)
Definition position_modules_fast (self : DetectorGeometry) (data : ndarray)
    : result (ndarray * zvec2) * DetectorGeometry :=
  let '(r, self') := _snapped self in
  (sg <- r ;; SnappedGeometry.position_modules sg data, self').

End DetectorGeometryBase.

(** ** Vocabulary of the specification *)

(** Two 2-element sets, given by their elements, are the same set. *)
Definition same_set2 (a b c d : zvec2) : Prop :=
  forall v : zvec2, (v = a \/ v = b) <-> (v = c \/ v = d).

(** The rounded vectors form a valid axis permutation: the set of their
    absolute values is the canonical pair. *)
Definition axis_permutation (ss fs : zvec2) : Prop :=
  same_set2 (z2abs ss) (z2abs fs) (1, 0) (0, 1).

(** The four corners, on the grid, of a block that starts at [corner] and
    extends [ss_pixels] along [ss] and [fs_pixels] along [fs]. *)
Definition block_corners (corner ss fs : zvec2) (ss_pixels fs_pixels : Z)
    : list zvec2 :=
  let ss_edge := (fst ss * ss_pixels, snd ss * ss_pixels) in
  let fs_edge := (fst fs * fs_pixels, snd fs * fs_pixels) in
  [ corner; z2add corner fs_edge;
    z2add (z2add corner ss_edge) fs_edge; z2add corner ss_edge ].

Definition z2min_list (l : list zvec2) : zvec2 :=
  match l with
  | [] => (0, 0)
  | c :: r => fold_left z2min r c
  end.

Definition z2max_list (l : list zvec2) : zvec2 :=
  match l with
  | [] => (0, 0)
  | c :: r => fold_left z2max r c
  end.

(** The shift that a flip sign asks of a corner along an axis of the given
    extent. *)
Definition flip_shift (sign extent : Z) : Z :=
  if sign <? 0 then - extent else 0.

(** The derivation rule of a grid placement descriptor [g] from the rounded
    vectors [ss] and [fs] and the rounded corner, all in (row, column)
    order: transpose, block shape and flip signs; the shift of the corner;
    the corner as the least corner of the placed block, for extents that
    are not negative; the far corner. *)
Definition derivation_rule (corner ss fs : zvec2) (ss_pixels fs_pixels : Z)
    (g : GridGeometryFragment) : Prop :=
  (if fst fs =? 0
   then swap_axes (transform g) = false
        /\ pixel_dims g = (ss_pixels, fs_pixels)
        /\ row_step (transform g) = Z.sgn (fst ss)
        /\ col_step (transform g) = Z.sgn (snd fs)
   else swap_axes (transform g) = true
        /\ pixel_dims g = (fs_pixels, ss_pixels)
        /\ row_step (transform g) = Z.sgn (fst fs)
        /\ col_step (transform g) = Z.sgn (snd ss))
  /\ corner_idx g =
       (fst corner + flip_shift (row_step (transform g)) (fst (pixel_dims g)),
        snd corner + flip_shift (col_step (transform g)) (snd (pixel_dims g)))
  /\ (0 <= ss_pixels -> 0 <= fs_pixels ->
      corner_idx g
      = z2min_list (block_corners corner ss fs ss_pixels fs_pixels))
  /\ opp_corner_idx g = z2add (corner_idx g) (pixel_dims g).

(** The bounding rectangle of the polygon of a fragment's corners, in the
    (x, y) plane: its least and its greatest corner. *)
Definition polygon_bounds (t : GeometryFragment) : qvec2 * qvec2 :=
  match map first2 (GeometryFragment.corners t) with
  | c :: r => (fold_left qvec2_min r c, fold_left qvec2_max r c)
  | [] => ((0, 0), (0, 0))%Q
  end.

(** The bounding rectangle of a grid placement [corner_idx, opp_corner_idx),
    given as (row, column), differs from that of the fragment's polygon by
    at most one pixel on each of its four sides. *)
Definition within_one_pixel (g : GridGeometryFragment) (t : GeometryFragment)
    : Prop :=
  let '(lo, hi) := polygon_bounds t in
  (Qabs (inject_Z (snd (corner_idx g)) - fst lo) <= 1
   /\ Qabs (inject_Z (fst (corner_idx g)) - snd lo) <= 1
   /\ Qabs (inject_Z (snd (opp_corner_idx g)) - fst hi) <= 1
   /\ Qabs (inject_Z (fst (opp_corner_idx g)) - snd hi) <= 1)%Q.

(** How far, in pixels and along x and along y, the far ends of a tile's two
    edges move when its vectors are rounded. *)
Definition rounding_drift (t : GeometryFragment) : qvec2 :=
  let rss := GeometryFragment.rounded_ss t in
  let rfs := GeometryFragment.rounded_fs t in
  ((inject_Z (ss_pixels t) * Qabs (vx (ss_vec t) - inject_Z (fst rss))
    + inject_Z (fs_pixels t) * Qabs (vx (fs_vec t) - inject_Z (fst rfs)))%Q,
   (inject_Z (ss_pixels t) * Qabs (vy (ss_vec t) - inject_Z (snd rss))
    + inject_Z (fs_pixels t) * Qabs (vy (fs_vec t) - inject_Z (snd rfs)))%Q).

(** Element-wise order on grid coordinates. *)
Definition z2le (a b : zvec2) : Prop := fst a <= fst b /\ snd a <= snd b.

(** The tiles of a snapped geometry, module after module. *)
Definition tiles (sg : SnappedGeometry) : list GridGeometryFragment :=
  concat (s_modules sg).

(** A grid fragment as the class's constructor builds it, from extents that
    are not negative: the tiles of a snapped geometry are such. *)
Inductive constructed : GridGeometryFragment -> Prop :=
| constructed_init (corner ss fs : zvec2) (ss_pixels fs_pixels : Z) :
    0 <= ss_pixels -> 0 <= fs_pixels ->
    constructed (GridGeometryFragment.init corner ss fs ss_pixels fs_pixels).

(** The element-wise minimum of all tiles' [corner_idx] and the element-wise
    maximum of all tiles' [opp_corner_idx]. *)
Definition min_corner_idx (sg : SnappedGeometry) : zvec2 :=
  z2min_list (map corner_idx (tiles sg)).
Definition max_opp_corner_idx (sg : SnappedGeometry) : zvec2 :=
  z2max_list (map opp_corner_idx (tiles sg)).

(** The canvas of a snapped geometry and its centre offset, as the
    specification gives them. *)
Definition canvas_size (sg : SnappedGeometry) : zvec2 :=
  z2sub (max_opp_corner_idx sg) (min_corner_idx sg).
Definition centre_offset (sg : SnappedGeometry) : zvec2 :=
  z2neg (min_corner_idx sg).

(** An array of the shape that fast assembly allocates for data with the
    leading axes [batch]. *)
Definition on_canvas (sg : SnappedGeometry) (batch : list Z) (out : ndarray)
    : Prop :=
  shape out = batch ++ [fst (canvas_size sg); snd (canvas_size sg)].

(** The number of tiles of a module, which each detector type fixes; the
    number of modules is the first entry of the raw data shape. *)
Definition tiles_per_module (c : detector_class) : nat :=
  match c with
  | Base => 0
  | AGIPD_1M => 8
  | LPD_1M => 16
  end.

Definition module_count (c : detector_class) : nat :=
  match expected_data_shape c with
  | m :: _ => Z.to_nat m
  | [] => 0
  end.

(** A tile of the snapped geometry of a detector of class [c]: built by the
    constructor from a valid axis permutation and the tile extents of the
    class. *)
Inductive snapped_tile (c : detector_class) : GridGeometryFragment -> Prop :=
| snapped_tile_init (corner ss fs : zvec2) :
    axis_permutation ss fs ->
    snapped_tile c
      (GridGeometryFragment.init corner ss fs
                                 (frag_ss_pixels c) (frag_fs_pixels c)).

(** A snapped geometry with the layout of a detector of class [c]: the
    class's number of modules and of tiles in each, every tile a snapped
    tile of the class. *)
Definition detector_layout (c : detector_class) (sg : SnappedGeometry) : Prop :=
  geom sg = c
  /\ length (s_modules sg) = module_count c
  /\ Forall (fun m => length m = tiles_per_module c
                      /\ Forall (snapped_tile c) m)
            (s_modules sg).

(** A geometry with the layout of a detector of class [c]: the class's
    number of modules and of tiles in each, every tile with the tile
    extents of the class. *)
Definition fragment_layout (c : detector_class) (ms : fragments) : Prop :=
  length ms = module_count c
  /\ Forall (fun m => length m = tiles_per_module c
                      /\ Forall (fun t => ss_pixels t = frag_ss_pixels c
                                         /\ fs_pixels t = frag_fs_pixels c) m)
            ms.

(** The cache of a geometry object is empty or holds the snapped geometry of
    the object's modules: it is so in a new object, and no method breaks
    it. *)
Definition cache_valid (self : DetectorGeometry) : Prop :=
  match _snapped_cache self with
  | None => True
  | Some sg => DetectorGeometryBase.compute_snapped self = Ok sg
  end.

(** Fast assembly with a snapped layout computed afresh and not kept. *)
Definition assemble_with_fresh_layout (self : DetectorGeometry) (data : ndarray)
    : result (ndarray * zvec2) :=
  sg <- DetectorGeometryBase.compute_snapped self ;;
  SnappedGeometry.position_modules sg data.

(** The in-plane vectors of a tile are linearly independent. *)
Definition nonsingular (t : GeometryFragment) : Prop :=
  ~ (vy (ss_vec t) * vx (fs_vec t) - vy (fs_vec t) * vx (ss_vec t) == 0)%Q.

(** The canvas cell, before centring, that raw pixel [(i, j)] of a tile
    belongs to: [i] steps along [ss] and [j] along [fs] from the corner, and
    one cell back along an axis that the tile runs down. *)
Definition pixel_cell (corner ss fs : zvec2) (i j : Z) : zvec2 :=
  (fst corner + i * fst ss + j * fst fs + Z.min (fst ss + fst fs) 0,
   snd corner + i * snd ss + j * snd fs + Z.min (snd ss + snd fs) 0).

(** Row [r] and column [c] of the canvas lie in the placement rectangle of
    a tile, moved by the centre offset. *)
Definition in_block (g : GridGeometryFragment) (centre : zvec2) (r c : Z)
    : Prop :=
  fst (corner_idx g) + fst centre <= r < fst (opp_corner_idx g) + fst centre
  /\ snd (corner_idx g) + snd centre <= c
                                      < snd (opp_corner_idx g) + snd centre.

(** An index of an array of the given shape. *)
Definition index_in (idx shape : list Z) : Prop :=
  Forall2 (fun x d => 0 <= x < d) idx shape.

(** Where, in the raw block of its module, pixel [(i, j)] of tile [tile]
    is read from: the row and the column. *)
Definition raw_position (c : detector_class) (tile i j : Z) : zvec2 :=
  match c with
  | Base => (i, j)
  | AGIPD_1M => (tile * 64 + i, j)
  | LPD_1M => if tile <? 8 then ((7 - tile) * 32 + i, j)
              else ((tile - 8) * 32 + i, 128 + j)
  end.

(** The tile at place [tj] of module [m] of a snapped geometry. *)
Definition tile_at (sg : SnappedGeometry) (m tj : nat)
    : option GridGeometryFragment :=
  match nth_error (s_modules sg) m with
  | Some module => nth_error module tj
  | None => None
  end.

(** No two tiles of the geometry share a canvas cell. *)
Definition tiles_disjoint (sg : SnappedGeometry) : Prop :=
  forall (m tj m' tj' : nat) (g g' : GridGeometryFragment) (r c : Z),
    tile_at sg m tj = Some g -> tile_at sg m' tj' = Some g' ->
    (m, tj) <> (m', tj') ->
    ~ (in_block g (0, 0) r c /\ in_block g' (0, 0) r c).

(** [enumerate(l, start)] *)
Definition enumerate {A : Type} (start : nat) (l : list A) : list (nat * A) :=
  combine (seq start (length l)) l.

(** The tiles of a snapped geometry with the module and the place of
    each. *)
Definition positioned_tiles (sg : SnappedGeometry)
    : list (nat * nat * GridGeometryFragment) :=
  flat_map (fun mm => map (fun tg => (fst mm, fst tg, snd tg))
                          (enumerate 0 (snd mm)))
           (enumerate 0 (s_modules sg)).

(** The placement rectangles of two tiles share a cell. *)
Definition blocks_overlapb (g g' : GridGeometryFragment) : bool :=
  (fst (corner_idx g) <? fst (opp_corner_idx g'))
  && (fst (corner_idx g') <? fst (opp_corner_idx g))
  && (snd (corner_idx g) <? snd (opp_corner_idx g'))
  && (snd (corner_idx g') <? snd (opp_corner_idx g)).

(** A check of [tiles_disjoint] that runs. *)
Definition tiles_disjointb (sg : SnappedGeometry) : bool :=
  forallb (fun p =>
    forallb (fun q =>
      ((fst (fst p) =? fst (fst q))%nat && (snd (fst p) =? snd (fst q))%nat)
      || negb (blocks_overlapb (snd p) (snd q)))
      (positioned_tiles sg))
    (positioned_tiles sg).

(** Two calls of an assembler end alike: both raise the same error, or both
    return arrays of the same shape with the same elements, and the same
    centre. *)
Definition same_outcome (r1 r2 : result (ndarray * zvec2)) : Prop :=
  match r1, r2 with
  | Ok (o1, c1), Ok (o2, c2) =>
      shape o1 = shape o2 /\ c1 = c2 /\ forall idx, item o1 idx = item o2 idx
  | Raise e1, Raise e2 => e1 = e2
  | _, _ => False
  end.

(** Two arrays of shape [s] hold the same elements in their first [n]
    planes. *)
Definition planes_agree (n : nat) (s : list Z) (t1 t2 : ndarray) : Prop :=
  shape t1 = s /\ shape t2 = s
  /\ forall (k : Z) (rest : list Z),
       0 <= k < Z.of_nat n -> item t1 (k :: rest) = item t2 (k :: rest).

(** Two runs of a loop end alike. *)
Definition same_end {St : Type} (R : St -> St -> Prop) (r1 r2 : result St)
    : Prop :=
  match r1, r2 with
  | Ok s1, Ok s2 => R s1 s2
  | Raise e1, Raise e2 => e1 = e2
  | _, _ => False
  end.

(** A geometry that fits the distortion array: at most 16 modules of at
    most 8 tiles, every tile of 64 rows. *)
Definition fits_distortion_array (ms : fragments) : Prop :=
  (length ms <= 16)%nat
  /\ Forall (fun mod_ => (length mod_ <= 8)%nat
                         /\ Forall (fun t => ss_pixels t = 64) mod_) ms.

(** One coordinate of corner [k] of pixel [(i, j)] of a tile, in metres:
    [corner], [ss] and [fs] are that coordinate of the tile's corner and of
    its two vectors, in pixel units. *)
Definition corner_coordinate (pixel_size corner ss fs : Q) (i j k : Z) : Q :=
  ((corner
    + (inject_Z i
       + AGIPD_1MGeometry.offset_at AGIPD_1MGeometry.corner_ss_offsets k) * ss
    + (inject_Z j
       + AGIPD_1MGeometry.offset_at AGIPD_1MGeometry.corner_fs_offsets k) * fs)
   * pixel_size)%Q.

(** The rows of one tile hold the corners of its pixels. *)
Definition holds_tile (pixel_size : Q) (m t : nat) (tile : GeometryFragment)
    (d : AGIPD_1MGeometry.distortion) : Prop :=
  forall i col k, 0 <= i < 64 ->
    let c := v3scale (corner_pos tile) pixel_size in
    let ss_unit := v3scale (ss_vec tile) pixel_size in
    let fs_unit := v3scale (fs_vec tile) pixel_size in
    let row := Z.of_nat m * 512 + Z.of_nat t * 64 + i in
    d row col k 0
    = AGIPD_1MGeometry.pixel_corners (vz c) (vz ss_unit) (vz fs_unit) i col k
    /\ d row col k 1
       = AGIPD_1MGeometry.pixel_corners (vy c) (vy ss_unit) (vy fs_unit) i col k
    /\ d row col k 2
       = AGIPD_1MGeometry.pixel_corners (vx c) (vx ss_unit) (vx fs_unit) i col k.

(** No two tiles of the same quadrant (four consecutive modules) share a
    canvas cell. *)
Definition tiles_disjoint_in_quadrants (sg : SnappedGeometry) : Prop :=
  forall (m tj m' tj' : nat) (g g' : GridGeometryFragment) (r c : Z),
    tile_at sg m tj = Some g -> tile_at sg m' tj' = Some g' ->
    (m / 4 = m' / 4)%nat -> (m, tj) <> (m', tj') ->
    ~ (in_block g (0, 0) r c /\ in_block g' (0, 0) r c).

(** Pairs of rationals: equality as numbers, and the sum. *)
Definition qv2eq (a b : qvec2) : Prop :=
  (fst a == fst b)%Q /\ (snd a == snd b)%Q.
Definition qv2add (a b : qvec2) : qvec2 :=
  ((fst a + fst b)%Q, (snd a + snd b)%Q).

(** The rotation matrix of a tile in (y, x) order: its columns are the
    slow-scan and the fast-scan vector. *)
Definition rotation_yx (t : GeometryFragment) : mat2 :=
  ((vy (ss_vec t), vy (fs_vec t)), (vx (ss_vec t), vx (fs_vec t))).

(** The corner of a tile on the canvas, as (y, x). *)
Definition corner_yx (t : GeometryFragment) (centre : zvec2) : qvec2 :=
  ((vy (corner_pos t) + inject_Z (fst centre))%Q,
   (vx (corner_pos t) + inject_Z (snd centre))%Q).

(** Where on the canvas, as (y, x), the raw pixel with the index
    [p = (ss, fs)] of a tile lies. *)
Definition canvas_position (t : GeometryFragment) (centre : zvec2)
    (p : qvec2) : qvec2 :=
  qv2add (corner_yx t centre) (mat2_dot (rotation_yx t) p).

(** The tile is turned by a quarter: turning twice by its rotation matrix
    is a half turn. *)
Definition quarter_turn (t : GeometryFragment) : Prop :=
  forall p : qvec2,
    qv2eq (mat2_dot (rotation_yx t) (mat2_dot (rotation_yx t) p))
          ((- fst p)%Q, (- snd p)%Q).

(** The range of [np.int32], which [.astype(np.int32)] keeps a rounded
    coordinate in; what the cast gives for a number outside is left to the
    platform. *)
Definition fits_int32 (v : zvec2) : Prop :=
  (-2147483648 <= fst v <= 2147483647)
  /\ (-2147483648 <= snd v <= 2147483647).

(** A multiple of 1/1024 whose numerator is at most [bound] in absolute
    value.  For a bound below 2 ^ 53 such a number is a binary64 number,
    and a sum or product that is one is computed exactly by the float
    arithmetic of the source. *)
Definition on_grid (bound : Z) (q : Q) : Prop :=
  exists n : Z, (q == inject_Z n / 1024)%Q /\ Z.abs n <= bound.

(** A coordinate or gap, in pixels, that the layout generators handle
    exactly: a multiple of 1/1024 of at most 2 ^ 25 in absolute value. *)
Definition exact_coordinate (q : Q) : Prop := on_grid 34359738368 q.
Definition exact_position (p : qvec2) : Prop :=
  exact_coordinate (fst p) /\ exact_coordinate (snd p).


(** ** Sample geometries *)

(** An AGIPD tile of the third quadrant: slow scan along -x, fast scan
    along +y. *)
Definition sample_tile : GeometryFragment :=
  MkFragment (V3 (5204 # 10) (-1595 # 10) 0) (V3 (-1) 0 0) (V3 0 1 0) 64 128.

(** A tile rotated by the angle of the 7-24-25 triangle, about 16 degrees;
    its vectors are unit vectors and perpendicular. *)
Definition rotated_tile : GeometryFragment :=
  MkFragment (V3 0 0 0) (V3 (24 # 25) (7 # 25) 0) (V3 (-7 # 25) (24 # 25) 0)
             64 128.

(** A tile whose in-plane slow-scan vector is (0.9, 0.2). *)
Definition tilted_tile : GeometryFragment :=
  MkFragment (V3 0 0 0) (V3 (9 # 10) (2 # 10) 0) (V3 (-2 # 10) (9 # 10) 0)
             64 128.

(** The first tile of the first module of the sample geometry, snapped. *)
Definition first_sample_tile : GridGeometryFragment :=
  GridGeometryFragment.init (625, -525) (0, 1) (-1, 0) 64 128.

(** The quadrant positions of the module's own example. *)
Definition sample_quad_pos : list qvec2 :=
  [ (-525, 625); (-550, -10); (520, -160); (5425 # 10, 475) ]%Q.

Definition sample_modules : fragments :=
  match AGIPD_1MGeometry.from_quad_positions_default sample_quad_pos with
  | Ok ms => ms
  | Raise _ => []
  end.

Definition sample_geometry : DetectorGeometry :=
  DetectorGeometryBase.init AGIPD_1M sample_modules.

Definition sample_snapped : SnappedGeometry :=
  match DetectorGeometryBase.compute_snapped sample_geometry with
  | Ok sg => sg
  | Raise _ => MkSnapped [] AGIPD_1M
  end.

(** A stack of two frames of an AGIPD-1M, every pixel 1, and one frame. *)
Definition sample_frames : ndarray :=
  NdArray [2; 16; 512; 128] (fun _ => Some 1%Q).
Definition sample_frame : ndarray :=
  NdArray [16; 512; 128] (fun _ => Some 1%Q).

(** Stand-ins for the resampler and for the contents of new memory: a
    resampler that finds no source pixel, and memory full of nan. *)
Definition blank_resample (input : ndarray) (matrix : mat2) (offset : qvec2)
    (output_shape : zvec2) : ndarray :=
  np_full [fst output_shape; snd output_shape] nan.
Definition blank_memory (idx : list Z) : pixel := nan.

(** A geometry of one tile at the origin, along the axes. *)
Definition unit_tile : GeometryFragment :=
  MkFragment (V3 0 0 0) (V3 1 0 0) (V3 0 1 0) 64 128.
Definition single_tile_geometry : fragments := [[unit_tile]].

(** The same with a tile of 32 rows, as the LPD-1M has them. *)
Definition short_tile_geometry : fragments :=
  [[MkFragment (V3 0 0 0) (V3 1 0 0) (V3 0 1 0) 32 128]].

(** A frame with one fast-scan pixel too few. *)
Definition narrow_frame : ndarray :=
  NdArray [16; 512; 127] (fun _ => Some 1%Q).

(** The LPD-1M geometry of the same quadrant positions, and its snapped
    geometry. *)
Definition sample_lpd_modules : fragments :=
  match LPD_1MGeometry.from_quad_positions_default sample_quad_pos with
  | Ok ms => ms
  | Raise _ => []
  end.

Definition sample_lpd_snapped : SnappedGeometry :=
  match DetectorGeometryBase.compute_snapped
          (DetectorGeometryBase.init LPD_1M sample_lpd_modules) with
  | Ok sg => sg
  | Raise _ => MkSnapped [] LPD_1M
  end.

(* ================================================================= *)
(** * Properties *)

(** ** Rounded vectors and the canonical pair *)

Lemma z2eqb_eq (a b : zvec2) : z2eqb a b = true <-> a = b.
Proof.
  destruct a as [a1 a2], b as [b1 b2]; unfold z2eqb; simpl.
  rewrite andb_true_iff, !Z.eqb_eq.
  split; [intros [-> ->]; reflexivity | intros H; inversion H; auto].
Qed.

(** The comparison of Python sets in [snap] is set equality. *)
Lemma is_canonical_pair_spec (a b : zvec2) :
  is_canonical_pair a b = true <-> same_set2 a b (1, 0) (0, 1).
Proof.
  unfold is_canonical_pair, same_set2.
  rewrite orb_true_iff, !andb_true_iff, !z2eqb_eq.
  split.
  - intros [[-> ->] | [-> ->]] v; tauto.
  - intros H.
    assert (Ha : a = (1, 0) \/ a = (0, 1)) by (apply H; auto).
    assert (Hb : b = (1, 0) \/ b = (0, 1)) by (apply H; auto).
    assert (H10 : (1, 0) = a \/ (1, 0) = b) by (apply H; auto).
    assert (H01 : (0, 1) = a \/ (0, 1) = b) by (apply H; auto).
    destruct Ha as [-> | ->], Hb as [-> | ->]; auto;
      destruct H10 as [E | E], H01 as [E' | E']; try discriminate.
Qed.

(** A valid axis permutation is one of eight pairs of signed unit vectors. *)
Lemma axis_permutation_cases (ss fs : zvec2) :
  axis_permutation ss fs ->
  (fst ss = 0 /\ Z.abs (snd ss) = 1 /\ Z.abs (fst fs) = 1 /\ snd fs = 0)
  \/ (Z.abs (fst ss) = 1 /\ snd ss = 0 /\ fst fs = 0 /\ Z.abs (snd fs) = 1).
Proof.
  unfold axis_permutation; intros H.
  apply is_canonical_pair_spec in H.
  unfold is_canonical_pair in H.
  rewrite orb_true_iff, !andb_true_iff, !z2eqb_eq in H.
  destruct ss as [s1 s2], fs as [f1 f2]; unfold z2abs in H; simpl in *.
  destruct H as [[Hs Hf] | [Hs Hf]]; inversion Hs; inversion Hf; lia.
Qed.

Lemma axis_permutation_rev2 (ss fs : zvec2) :
  axis_permutation ss fs -> axis_permutation (rev2 ss) (rev2 fs).
Proof.
  intros H. destruct (axis_permutation_cases _ _ H) as [C | C];
    destruct ss as [s1 s2], fs as [f1 f2]; simpl in C;
    apply is_canonical_pair_spec; unfold is_canonical_pair, z2abs, rev2, z2eqb;
    simpl; destruct C as (A & B & C & D); rewrite ?A, ?B, ?C, ?D; reflexivity.
Qed.

(** ** The grid placement descriptor *)

Ltac split_axis_cases H :=
  let C := fresh "C" in
  destruct (axis_permutation_cases _ _ H) as [C | C];
  destruct C as (? & ? & ? & ?).

(** The constructor obeys the derivation rule on every valid axis
    permutation. *)
Lemma init_derivation_rule (corner ss fs : zvec2) (ss_pixels fs_pixels : Z) :
  axis_permutation ss fs ->
  derivation_rule corner ss fs ss_pixels fs_pixels
    (GridGeometryFragment.init corner ss fs ss_pixels fs_pixels).
Proof.
  intros Hperm.
  destruct corner as [cy cx], ss as [s1 s2], fs as [f1 f2].
  split_axis_cases Hperm; simpl in *; subst;
    unfold derivation_rule, GridGeometryFragment.init; simpl.
  - (* transposed: fs runs along the rows *)
    assert (Hf : (f1 =? 0) = false) by (apply Z.eqb_neq; lia).
    rewrite Hf; simpl.
    unfold flip_shift, z2add, z2min; simpl.
    repeat split; try lia; try intros Hss Hfs;
      destruct (f1 <? 0) eqn:E1, (s2 <? 0) eqn:E2;
      rewrite ?Z.ltb_lt, ?Z.ltb_ge in *; f_equal; nia.
  - (* not transposed: fs runs along the columns *)
    simpl.
    unfold flip_shift, z2add, z2min; simpl.
    repeat split; try lia; try intros Hss Hfs;
      destruct (s1 <? 0) eqn:E1, (f2 <? 0) eqn:E2;
      rewrite ?Z.ltb_lt, ?Z.ltb_ge in *; f_equal; nia.
Qed.

(** C1. For every fragment whose rounded in-plane [ss_vec] and [fs_vec] form
    a valid axis permutation, snapping returns a grid placement descriptor
    that obeys the derivation rule: with a zero row component of the
    fast-scan vector there is no transpose, the block shape is
    (ss_pixels, fs_pixels) and the flip signs are those of [ss_vec]'s row
    and [fs_vec]'s column component, otherwise the transposed variant; a
    negative flip sign shifts [corner_idx] by the block's extent along that
    axis, which makes it the minimum-index corner of the placed block (the
    extents of a tile are not negative); and
    [opp_corner_idx = corner_idx + pixel_dims]. *)
Theorem snap_derivation_rule (t : GeometryFragment) :
  axis_permutation (GeometryFragment.rounded_ss t)
                   (GeometryFragment.rounded_fs t) ->
  exists g : GridGeometryFragment,
    GeometryFragment.snap t = Ok g
    /\ derivation_rule (rev2 (GeometryFragment.rounded_corner t))
                       (rev2 (GeometryFragment.rounded_ss t))
                       (rev2 (GeometryFragment.rounded_fs t))
                       (ss_pixels t) (fs_pixels t) g.
Proof.
  intros Hperm.
  unfold GeometryFragment.snap.
  assert (Hc : is_canonical_pair (z2abs (GeometryFragment.rounded_ss t))
                                 (z2abs (GeometryFragment.rounded_fs t)) = true)
    by (apply is_canonical_pair_spec; exact Hperm).
  rewrite Hc.
  eexists; split; [reflexivity |].
  apply init_derivation_rule; auto using axis_permutation_rev2.
Qed.

Lemma snap_derivation_rule_witness :
  exists g : GridGeometryFragment,
    GeometryFragment.snap sample_tile = Ok g
    /\ derivation_rule (rev2 (GeometryFragment.rounded_corner sample_tile))
                       (rev2 (GeometryFragment.rounded_ss sample_tile))
                       (rev2 (GeometryFragment.rounded_fs sample_tile))
                       64 128 g.
Proof.
  apply (snap_derivation_rule sample_tile).
  apply is_canonical_pair_spec. vm_compute. reflexivity.
Defined.

(** ** Failure of snapping *)

(** A tile whose in-plane slow-scan vector is (0.9, 0.2) rounds to the unit
    vector (1, 0) and is snapped. *)
Lemma tilted_tile_is_snapped :
  first2 (ss_vec tilted_tile) = (9 # 10, 2 # 10)%Q
  /\ GeometryFragment.rounded_ss tilted_tile = (1, 0)
  /\ GeometryFragment.snap tilted_tile
     = Ok (GridGeometryFragment.init (0, 0) (0, 1) (1, 0) 64 128).
Proof. repeat split. Qed.

(** C3, as the code has it. Snapping fails, with the assertion error, exactly
    when the set of the absolute rounded in-plane vectors is not the
    canonical pair, and returns a descriptor exactly when it is; the vector
    (0.9, 0.2) rounds to (1, 0) and does not by itself make it fail. *)
Theorem snap_fails_iff_not_axis_permutation (t : GeometryFragment) :
  (GeometryFragment.snap t = Raise AssertionError
   <-> ~ axis_permutation (GeometryFragment.rounded_ss t)
                          (GeometryFragment.rounded_fs t))
  /\ ((exists g, GeometryFragment.snap t = Ok g)
      <-> axis_permutation (GeometryFragment.rounded_ss t)
                           (GeometryFragment.rounded_fs t)).
Proof.
  unfold axis_permutation, GeometryFragment.snap.
  destruct (is_canonical_pair (z2abs (GeometryFragment.rounded_ss t))
                              (z2abs (GeometryFragment.rounded_fs t))) eqn:E.
  - apply is_canonical_pair_spec in E.
    split; split; intros H; try discriminate; auto.
    + contradiction.
    + eexists; reflexivity.
  - assert (N : ~ same_set2 (z2abs (GeometryFragment.rounded_ss t))
                            (z2abs (GeometryFragment.rounded_fs t))
                            (1, 0) (0, 1)).
    { intros H. apply is_canonical_pair_spec in H. congruence. }
    split; split; intros H; auto.
    + destruct H as [g H]; discriminate.
    + contradiction.
Qed.

(** ** Snapped and unsnapped bounding rectangles *)

(** Rounding moves a number by at most one half. *)
Lemma around_close (q : Q) : (Qabs (q - inject_Z (around q)) <= 1 # 2)%Q.
Proof.
  apply Qabs_Qle_condition.
  unfold around.
  pose proof (Qfloor_le q) as Hlo.
  pose proof (Qlt_floor q) as Hhi.
  rewrite inject_Z_plus in Hhi.
  change (inject_Z 1) with 1%Q in Hhi.
  destruct (q - inject_Z (Qfloor q) ?= 1 # 2)%Q eqn:E.
  - apply Qeq_alt in E.
    destruct (Z.even (Qfloor q));
      rewrite ?inject_Z_plus; change (inject_Z 1) with 1%Q; lra.
  - apply Qlt_alt in E. lra.
  - apply Qgt_alt in E.
    rewrite inject_Z_plus; change (inject_Z 1) with 1%Q. lra.
Qed.

Lemma inject_Z_min (a b : Z) :
  (inject_Z (Z.min a b) == Qmin (inject_Z a) (inject_Z b))%Q.
Proof.
  destruct (Z.min_spec a b) as [[H ->] | [H ->]];
    destruct (Q.min_spec (inject_Z a) (inject_Z b)) as [[H' ->] | [H' ->]];
    try reflexivity.
  - rewrite Zlt_Qlt in H. lra.
  - rewrite Zle_Qle in H. lra.
Qed.

Lemma inject_Z_max (a b : Z) :
  (inject_Z (Z.max a b) == Qmax (inject_Z a) (inject_Z b))%Q.
Proof.
  destruct (Z.max_spec a b) as [[H ->] | [H ->]];
    destruct (Q.max_spec (inject_Z a) (inject_Z b)) as [[H' ->] | [H' ->]];
    try reflexivity.
  - rewrite Zlt_Qlt in H. lra.
  - rewrite Zle_Qle in H. lra.
Qed.

(** Minima and maxima of numbers that are pairwise close are close. *)
Lemma Qmin_close (a b a' b' e : Q) :
  (Qabs (a - a') <= e -> Qabs (b - b') <= e ->
   Qabs (Qmin a b - Qmin a' b') <= e)%Q.
Proof.
  intros Ha Hb.
  apply Qabs_Qle_condition in Ha, Hb. apply Qabs_Qle_condition.
  destruct (Q.min_spec a b) as [[H ->] | [H ->]];
    destruct (Q.min_spec a' b') as [[H' ->] | [H' ->]]; lra.
Qed.

Lemma Qmax_close (a b a' b' e : Q) :
  (Qabs (a - a') <= e -> Qabs (b - b') <= e ->
   Qabs (Qmax a b - Qmax a' b') <= e)%Q.
Proof.
  intros Ha Hb.
  apply Qabs_Qle_condition in Ha, Hb. apply Qabs_Qle_condition.
  destruct (Q.max_spec a b) as [[H ->] | [H ->]];
    destruct (Q.max_spec a' b') as [[H' ->] | [H' ->]]; lra.
Qed.

Lemma min4_close (b0 b1 b2 b3 : Z) (c0 c1 c2 c3 e : Q) :
  (Qabs (inject_Z b0 - c0) <= e -> Qabs (inject_Z b1 - c1) <= e ->
   Qabs (inject_Z b2 - c2) <= e -> Qabs (inject_Z b3 - c3) <= e ->
   Qabs (inject_Z (Z.min (Z.min (Z.min b0 b1) b2) b3)
         - Qmin (Qmin (Qmin c0 c1) c2) c3) <= e)%Q.
Proof.
  intros H0 H1 H2 H3.
  rewrite !inject_Z_min.
  auto using Qmin_close.
Qed.

Lemma max4_close (b0 b1 b2 b3 : Z) (c0 c1 c2 c3 e : Q) :
  (Qabs (inject_Z b0 - c0) <= e -> Qabs (inject_Z b1 - c1) <= e ->
   Qabs (inject_Z b2 - c2) <= e -> Qabs (inject_Z b3 - c3) <= e ->
   Qabs (inject_Z (Z.max (Z.max (Z.max b0 b1) b2) b3)
         - Qmax (Qmax (Qmax c0 c1) c2) c3) <= e)%Q.
Proof.
  intros H0 H1 H2 H3.
  rewrite !inject_Z_max.
  auto using Qmax_close.
Qed.

(** The far corner of the constructor's placement is the greatest corner of
    the placed block. *)
Lemma init_opp_corner_max (corner ss fs : zvec2) (ss_pixels fs_pixels : Z) :
  axis_permutation ss fs -> 0 <= ss_pixels -> 0 <= fs_pixels ->
  opp_corner_idx (GridGeometryFragment.init corner ss fs ss_pixels fs_pixels)
  = z2max_list (block_corners corner ss fs ss_pixels fs_pixels).
Proof.
  intros Hperm Hss Hfs.
  destruct corner as [cy cx], ss as [s1 s2], fs as [f1 f2].
  split_axis_cases Hperm; simpl in *; subst;
    unfold GridGeometryFragment.init; simpl.
  - assert (Hf : (f1 =? 0) = false) by (apply Z.eqb_neq; lia).
    rewrite Hf; simpl. unfold z2add, z2max; simpl. f_equal; nia.
  - unfold z2add, z2max; simpl. f_equal; nia.
Qed.

(** The drift of an edge's far end, as a two-sided bound. *)
Lemma drift_bounds (s f : Q) (rs rf ss_pixels fs_pixels : Z) :
  0 <= ss_pixels -> 0 <= fs_pixels ->
  (inject_Z ss_pixels * Qabs (s - inject_Z rs)
   + inject_Z fs_pixels * Qabs (f - inject_Z rf) <= 1 # 2)%Q ->
  exists a b : Q,
    (0 <= a /\ 0 <= b /\ a + b <= 1 # 2
     /\ - a <= (s - inject_Z rs) * inject_Z ss_pixels <= a
     /\ - b <= (f - inject_Z rf) * inject_Z fs_pixels <= b)%Q.
Proof.
  intros Hss Hfs H.
  assert (Ps : (0 <= inject_Z ss_pixels)%Q)
    by (change 0%Q with (inject_Z 0); rewrite <- Zle_Qle; lia).
  assert (Pf : (0 <= inject_Z fs_pixels)%Q)
    by (change 0%Q with (inject_Z 0); rewrite <- Zle_Qle; lia).
  exists (inject_Z ss_pixels * Qabs (s - inject_Z rs))%Q,
         (inject_Z fs_pixels * Qabs (f - inject_Z rf))%Q.
  split; [| split; [| split; [| split]]]; try assumption.
  - apply Qmult_le_0_compat; [assumption | apply Qabs_nonneg].
  - apply Qmult_le_0_compat; [assumption | apply Qabs_nonneg].
  - apply Qabs_Qle_condition.
    rewrite Qabs_Qmult, (Qabs_pos (inject_Z ss_pixels)) by assumption.
    rewrite Qmult_comm. apply Qle_refl.
  - apply Qabs_Qle_condition.
    rewrite Qabs_Qmult, (Qabs_pos (inject_Z fs_pixels)) by assumption.
    rewrite Qmult_comm. apply Qle_refl.
Qed.

(** The rotated tile is snapped, to a block of 128 rows and 64 columns at the
    origin; its polygon reaches 35.84 pixels further left than that block,
    so the two bounding rectangles differ by more than one pixel. *)
Lemma rotated_tile_bounds_differ :
  GeometryFragment.snap rotated_tile
  = Ok (GridGeometryFragment.init (0, 0) (0, 1) (1, 0) 64 128)
  /\ (fst (fst (polygon_bounds rotated_tile)) == -3584 # 100)%Q
  /\ ~ within_one_pixel (GridGeometryFragment.init (0, 0) (0, 1) (1, 0) 64 128)
                        rotated_tile.
Proof.
  split; [reflexivity | split; [reflexivity |]].
  intros (H & _). vm_compute in H. apply H. reflexivity.
Qed.

(** C8, as the code has it. For every fragment on which snapping succeeds,
    with extents that are not negative, whose numbers stay in the range
    of [int32] (the extents, the rounded corner, which the cast of [snap]
    then keeps, and the two corners of the snapped block, which the sums of
    [GridGeometryFragment.__init__] then reach without wrapping), and whose
    two edges drift by at most half a pixel in all along each axis when its
    vectors are rounded (every exactly axis-aligned fragment is one), the
    bounding rectangle of the snapped placement differs from that of the
    unsnapped corner polygon by at most one pixel per axis. *)
Theorem snapped_bounds_within_one_pixel (t : GeometryFragment)
    (g : GridGeometryFragment) :
  GeometryFragment.snap t = Ok g ->
  0 <= ss_pixels t <= 2147483647 -> 0 <= fs_pixels t <= 2147483647 ->
  fits_int32 (GeometryFragment.rounded_corner t) ->
  fits_int32 (corner_idx g) -> fits_int32 (opp_corner_idx g) ->
  (fst (rounding_drift t) <= 1 # 2)%Q ->
  (snd (rounding_drift t) <= 1 # 2)%Q ->
  within_one_pixel g t.
Proof.
  intros Hsnap [Hss _] [Hfs _] _ _ _ Hdx Hdy.
  unfold GeometryFragment.snap in Hsnap.
  destruct (is_canonical_pair _ _) eqn:E; [| discriminate].
  apply is_canonical_pair_spec in E.
  fold (axis_permutation (GeometryFragment.rounded_ss t)
                         (GeometryFragment.rounded_fs t)) in E.
  apply axis_permutation_rev2 in E.
  injection Hsnap as <-.
  pose proof (init_derivation_rule
                (rev2 (GeometryFragment.rounded_corner t)) _ _
                (ss_pixels t) (fs_pixels t) E) as (_ & _ & Hmin & _).
  specialize (Hmin Hss Hfs).
  pose proof (init_opp_corner_max
                (rev2 (GeometryFragment.rounded_corner t)) _ _ _ _ E Hss Hfs)
    as Hmax.
  unfold within_one_pixel, polygon_bounds.
  rewrite Hmin, Hmax. clear Hmin Hmax E.
  destruct t as [[cx cy cz] [sx sy sz] [fx fy fz] ssp fsp].
  cbv [rounding_drift GeometryFragment.rounded_ss GeometryFragment.rounded_fs
       GeometryFragment.rounded_corner around2 first2 fst snd vx vy vz
       corner_pos ss_vec fs_vec ss_pixels fs_pixels rev2 v3add v3scale
       GeometryFragment.corners map fold_left qvec2_min qvec2_max
       z2min_list z2max_list block_corners z2add z2min z2max] in *.
  destruct (drift_bounds _ _ _ _ _ _ Hss Hfs Hdx)
    as (ax & bx & Hax & Hbx & Habx & Hsx & Hfx).
  destruct (drift_bounds _ _ _ _ _ _ Hss Hfs Hdy)
    as (ay & by_ & Hay & Hby & Haby & Hsy & Hfy).
  pose proof (around_close cx) as Hcx. apply Qabs_Qle_condition in Hcx.
  pose proof (around_close cy) as Hcy. apply Qabs_Qle_condition in Hcy.
  clear Hdx Hdy.
  repeat split;
    (apply min4_close || apply max4_close);
    apply Qabs_Qle_condition;
    rewrite ?inject_Z_plus, ?inject_Z_mult; lra.
Qed.

Lemma snapped_bounds_within_one_pixel_witness :
  within_one_pixel (GridGeometryFragment.init (-160, 520) (0, -1) (1, 0) 64 128)
                   sample_tile.
Proof.
  apply (snapped_bounds_within_one_pixel sample_tile).
  - reflexivity.
  - simpl. lia.
  - simpl. lia.
  - vm_compute. intuition discriminate.
  - vm_compute. intuition discriminate.
  - vm_compute. intuition discriminate.
  - vm_compute. discriminate.
  - vm_compute. discriminate.
Defined.

(** ** Canvas dimensions of a snapped geometry *)

Lemma flat_map_modules {A B : Type} (f : A -> list B) (ms : list (list A)) :
  flat_map (fun m => flat_map f m) ms = flat_map f (concat ms).
Proof.
  induction ms as [| m ms IH]; simpl; [reflexivity |].
  rewrite IH, flat_map_app. reflexivity.
Qed.

Lemma constructed_corner_le_opp (t : GridGeometryFragment) :
  constructed t ->
  opp_corner_idx t = z2add (corner_idx t) (pixel_dims t)
  /\ 0 <= fst (pixel_dims t) /\ 0 <= snd (pixel_dims t)
  /\ z2le (corner_idx t) (opp_corner_idx t).
Proof.
  intros [corner ss fs ssp fsp Hs Hf].
  unfold GridGeometryFragment.init, z2le.
  destruct (fst fs =? 0); simpl; repeat split; lia.
Qed.

(** Folding the minimum over corners and far corners alike gives the minimum
    of the corners, and the maximum that of the far corners. *)
Lemma fold_min_both_corners (ts : list GridGeometryFragment) (acc : zvec2) :
  Forall constructed ts ->
  fold_left z2min
    (flat_map (fun t => [corner_idx t; opp_corner_idx t]) ts) acc
  = fold_left z2min (map corner_idx ts) acc.
Proof.
  intros H; revert acc.
  induction H as [| t ts Ht _ IH]; intros acc; simpl; [reflexivity |].
  rewrite <- IH. f_equal.
  destruct (constructed_corner_le_opp t Ht) as (_ & _ & _ & L1 & L2).
  unfold z2min; simpl. f_equal; lia.
Qed.

Lemma fold_max_both_corners (ts : list GridGeometryFragment) (acc : zvec2) :
  Forall constructed ts ->
  fold_left z2max
    (flat_map (fun t => [corner_idx t; opp_corner_idx t]) ts) acc
  = fold_left z2max (map opp_corner_idx ts) acc.
Proof.
  intros H; revert acc.
  induction H as [| t ts Ht _ IH]; intros acc; simpl; [reflexivity |].
  rewrite <- IH. f_equal.
  destruct (constructed_corner_le_opp t Ht) as (_ & _ & _ & L1 & L2).
  unfold z2max; simpl. f_equal; lia.
Qed.

Lemma fold_z2min_lower (l : list zvec2) (acc : zvec2) :
  z2le (fold_left z2min l acc) acc
  /\ forall x, In x l -> z2le (fold_left z2min l acc) x.
Proof.
  revert acc; induction l as [| y l IH]; intros acc; simpl.
  - unfold z2le; split; [lia | intros x []].
  - destruct (IH (z2min acc y)) as [Ha Hl].
    unfold z2le, z2min in *; simpl in *.
    split; [lia |].
    intros x [<- | Hx]; [lia | auto].
Qed.

Lemma fold_z2max_upper (l : list zvec2) (acc : zvec2) :
  z2le acc (fold_left z2max l acc)
  /\ forall x, In x l -> z2le x (fold_left z2max l acc).
Proof.
  revert acc; induction l as [| y l IH]; intros acc; simpl.
  - unfold z2le; split; [lia | intros x []].
  - destruct (IH (z2max acc y)) as [Ha Hl].
    unfold z2le, z2max in *; simpl in *.
    split; [lia |].
    intros x [<- | Hx]; [lia | auto].
Qed.

(** What [_get_dimensions] returns, for a geometry with a tile. *)
Lemma get_dimensions_value (sg : SnappedGeometry) :
  Forall constructed (tiles sg) -> tiles sg <> [] ->
  SnappedGeometry._get_dimensions sg
  = Ok (z2sub (max_opp_corner_idx sg) (min_corner_idx sg),
        z2neg (min_corner_idx sg)).
Proof.
  intros Hc Hne.
  unfold SnappedGeometry._get_dimensions, min_corner_idx, max_opp_corner_idx.
  rewrite flat_map_modules. fold (tiles sg).
  destruct (tiles sg) as [| t ts]; [congruence |].
  inversion Hc as [| ? ? Ht Hts]; subst.
  destruct (constructed_corner_le_opp t Ht) as (_ & _ & _ & L1 & L2).
  cbn [flat_map app np_stack bind reduce_axis0 fold_left map
       z2min_list z2max_list].
  rewrite fold_min_both_corners, fold_max_both_corners by assumption.
  replace (z2min (corner_idx t) (opp_corner_idx t)) with (corner_idx t)
    by (unfold z2min; destruct (corner_idx t), (opp_corner_idx t);
        simpl in *; f_equal; lia).
  replace (z2max (corner_idx t) (opp_corner_idx t)) with (opp_corner_idx t)
    by (unfold z2max; destruct (corner_idx t), (opp_corner_idx t);
        simpl in *; f_equal; lia).
  reflexivity.
Qed.

(** ** Shapes *)

Lemma skipn_tail {A : Type} (b t : list A) :
  skipn (length (b ++ t) - length t) (b ++ t) = t.
Proof.
  rewrite length_app, Nat.add_sub.
  rewrite skipn_app, skipn_all, Nat.sub_diag. reflexivity.
Qed.

Lemma firstn_tail {A : Type} (b t : list A) :
  firstn (length (b ++ t) - length t) (b ++ t) = b.
Proof.
  rewrite length_app, Nat.add_sub.
  rewrite firstn_app, firstn_all, Nat.sub_diag. simpl. apply app_nil_r.
Qed.

Lemma last3_app (b : list Z) (m s f : Z) : last3 (b ++ [m; s; f]) = [m; s; f].
Proof. exact (skipn_tail b [m; s; f]). Qed.

Lemma drop_last3_app (b : list Z) (m s f : Z) :
  drop_last3 (b ++ [m; s; f]) = b.
Proof. exact (firstn_tail b [m; s; f]). Qed.

Lemma last2_app (b : list Z) (s f : Z) : last2 (b ++ [s; f]) = [s; f].
Proof. exact (skipn_tail b [s; f]). Qed.

Lemma drop_last2_app (b : list Z) (s f : Z) : drop_last2 (b ++ [s; f]) = b.
Proof. exact (firstn_tail b [s; f]). Qed.

(** A shape is its leading axes followed by its last three. *)
Lemma shape_split3 (s : list Z) : s = drop_last3 s ++ last3 s.
Proof. unfold drop_last3, last3. symmetry. apply firstn_skipn. Qed.

Lemma list_Z_eqb_eq (a b : list Z) : list_Z_eqb a b = true <-> a = b.
Proof.
  unfold list_Z_eqb. destruct (list_eq_dec Z.eq_dec a b); split; congruence.
Qed.

Lemma broadcastable_rev_refl (s : list Z) : broadcastable_rev s s = true.
Proof.
  induction s as [| x s IH]; simpl; [reflexivity |].
  rewrite Z.eqb_refl, IH. reflexivity.
Qed.

(** ** Array operations on well-shaped arguments *)

Lemma select_module_ok (a : ndarray) (b : list Z) (m s f i : Z) :
  shape a = b ++ [m; s; f] -> i < m ->
  exists a', select_module a i = Ok a' /\ shape a' = b ++ [s; f].
Proof.
  intros Hs Hi. unfold select_module.
  rewrite Hs, last3_app, drop_last3_app.
  apply Z.ltb_lt in Hi. rewrite Hi.
  eexists; split; reflexivity.
Qed.

Lemma range_length (n : Z) : length (range n) = Z.to_nat n.
Proof. unfold range. rewrite length_map, length_seq. reflexivity. Qed.

Lemma split_rows_ok (a : ndarray) (b : list Z) (s f k : Z) :
  shape a = b ++ [s; f] -> s mod k = 0 ->
  exists l, split_rows a k = Ok l
            /\ length l = Z.to_nat k
            /\ Forall (fun a' => shape a' = b ++ [s / k; f]) l.
Proof.
  intros Hs Hk. unfold split_rows.
  rewrite Hs, last2_app, drop_last2_app, Hk. simpl.
  eexists; split; [reflexivity | split].
  - rewrite length_map. apply range_length.
  - apply Forall_map. apply Forall_forall. intros; reflexivity.
Qed.

Lemma split_cols_ok (a : ndarray) (b : list Z) (f k : Z) :
  shape a = b ++ [f] -> f mod k = 0 ->
  exists l, split_cols a k = Ok l
            /\ length l = Z.to_nat k
            /\ Forall (fun a' => shape a' = b ++ [f / k]) l.
Proof.
  intros Hs Hk. unfold split_cols.
  rewrite Hs, rev_app_distr. simpl. rewrite Hk. simpl.
  eexists; split; [reflexivity | split].
  - rewrite length_map. apply range_length.
  - apply Forall_map. apply Forall_forall. intros; simpl.
    rewrite rev_involutive. reflexivity.
Qed.

(** The raw block of one module and of one tile, for the two detectors. *)
Lemma expected_data_shape_frag (c : detector_class) :
  c <> Base ->
  exists s f,
    expected_data_shape c = [16; s; f]
    /\ forall (a : ndarray) (b : list Z),
         shape a = b ++ [s; f] ->
         exists l, split_tiles c a = Ok l
                   /\ length l = tiles_per_module c
                   /\ Forall (fun a' => shape a'
                                = b ++ [frag_ss_pixels c; frag_fs_pixels c]) l.
Proof.
  intros Hc. destruct c; [congruence | |].
  - exists 512, 128. split; [reflexivity |].
    intros a b Hs. simpl.
    destruct (split_rows_ok a b 512 128 8 Hs eq_refl) as (l & E & Hl & Hf).
    exists l. auto.
  - exists 256, 256. split; [reflexivity |].
    intros a b Hs. unfold split_tiles, LPD_1MGeometry.split_tiles.
    replace (b ++ [256; 256]) with ((b ++ [256]) ++ [256]) in Hs
      by (rewrite <- app_assoc; reflexivity).
    destruct (split_cols_ok a (b ++ [256]) 256 2 Hs eq_refl)
      as (halves & E & Hl & Hf).
    rewrite E. simpl.
    destruct halves as [| lhs [| rhs [| ? ?]]]; try discriminate.
    inversion Hf as [| ? ? Hlhs Hf']; subst.
    inversion Hf' as [| ? ? Hrhs _]; subst.
    rewrite <- app_assoc in Hlhs, Hrhs. simpl in Hlhs, Hrhs.
    change (256 / 2) with 128 in Hlhs, Hrhs.
    destruct (split_rows_ok lhs b 256 128 8 Hlhs eq_refl) as (l & El & Ll & Fl).
    destruct (split_rows_ok rhs b 256 128 8 Hrhs eq_refl) as (r & Er & Lr & Fr).
    rewrite El, Er. simpl.
    eexists; split; [reflexivity | split].
    + rewrite length_app, length_rev, Ll, Lr. reflexivity.
    + apply Forall_app; split; [apply Forall_rev |]; assumption.
Qed.

Lemma step_len_unit (len step : Z) : Z.abs step = 1 -> step_len len step = len.
Proof.
  intros H. unfold step_len. rewrite H.
  replace (len + 1 - 1) with len by lia. apply Z.div_1_r.
Qed.

Lemma slice_steps_ok (a : ndarray) (b : list Z) (s f rs cs : Z) :
  shape a = b ++ [s; f] -> Z.abs rs = 1 -> Z.abs cs = 1 ->
  exists a', slice_steps a rs cs = Ok a' /\ shape a' = b ++ [s; f].
Proof.
  intros Hs Hr Hc. unfold slice_steps.
  rewrite Hs, last2_app, drop_last2_app.
  assert (E : (rs =? 0) || (cs =? 0) = false).
  { apply orb_false_iff; split; apply Z.eqb_neq; lia. }
  rewrite E. eexists; split; [reflexivity |].
  simpl. rewrite !step_len_unit by assumption. reflexivity.
Qed.

(** The transform of a snapped tile turns a raw tile block into a block of
    the tile's [pixel_dims]. *)
Lemma apply_transform_ok (c : detector_class) (t : GridGeometryFragment)
    (a : ndarray) (b : list Z) :
  snapped_tile c t ->
  shape a = b ++ [frag_ss_pixels c; frag_fs_pixels c] ->
  exists a', apply_transform (transform t) a = Ok a'
             /\ shape a' = b ++ [fst (pixel_dims t); snd (pixel_dims t)].
Proof.
  intros [corner ss fs Hperm] Hs.
  unfold apply_transform, GridGeometryFragment.init.
  destruct ss as [s1 s2], fs as [f1 f2].
  split_axis_cases Hperm; simpl in *; subst.
  - assert (Hf : (f1 =? 0) = false) by (apply Z.eqb_neq; lia).
    rewrite Hf; simpl.
    unfold swapaxes. rewrite Hs, last2_app, drop_last2_app. simpl.
    apply slice_steps_ok; auto.
  - simpl. apply slice_steps_ok; auto.
Qed.

Lemma clip_index_in_range (i len : Z) :
  0 <= i <= len -> clip_index i len = i.
Proof.
  intros H. unfold clip_index.
  destruct (i <? 0) eqn:E; [apply Z.ltb_lt in E; lia | lia].
Qed.

(** A block written inside the array, with the shape of the selected
    region, leaves the shape of the array alone. *)
Lemma assign_block_ok (out value : ndarray) (b : list Z)
    (rows cols y h x w : Z) :
  shape out = b ++ [rows; cols] ->
  shape value = b ++ [h; w] ->
  0 <= y -> 0 <= h -> y + h <= rows ->
  0 <= x -> 0 <= w -> x + w <= cols ->
  exists out', assign_block out y (y + h) x (x + w) value = Ok out'
               /\ shape out' = shape out.
Proof.
  intros Ho Hv Hy Hh Hyh Hx Hw Hxw.
  unfold assign_block, slice_bounds.
  rewrite Ho, last2_app, drop_last2_app.
  rewrite !clip_index_in_range by lia.
  replace (Z.max (y + h - y) 0) with h by lia.
  replace (Z.max (x + w - x) 0) with w by lia.
  rewrite Hv, broadcastable_rev_refl.
  eexists; split; reflexivity.
Qed.

(** ** Loops *)

(** A loop whose body succeeds and keeps an invariant at every element
    succeeds and keeps it. *)
Lemma for_enumerate_ok {A St : Type} (body : nat -> A -> St -> result St)
    (P : St -> Prop) (l : list A) :
  forall (start : nat) (s : St),
    (forall k a s0, nth_error l k = Some a -> P s0 ->
                    exists s1, body (start + k)%nat a s0 = Ok s1 /\ P s1) ->
    P s ->
    exists s', for_enumerate body start l s = Ok s' /\ P s'.
Proof.
  induction l as [| a l IH]; intros start s Hbody Hs; simpl.
  - eauto.
  - destruct (Hbody 0%nat a s eq_refl Hs) as (s1 & E & Hs1).
    rewrite Nat.add_0_r in E. rewrite E. simpl.
    apply IH; [| assumption].
    intros k a' s0 Hk Hs0.
    rewrite Nat.add_succ_l, <- Nat.add_succ_r. apply (Hbody (S k)); assumption.
Qed.

Lemma getitem_ok {A : Type} (l : list A) (j : nat) :
  (j < length l)%nat ->
  exists a, getitem l (Z.of_nat j) = Ok a /\ nth_error l j = Some a.
Proof.
  intros Hj. unfold getitem.
  assert (E1 : (Z.of_nat j <? 0) = false) by (apply Z.ltb_ge; lia).
  rewrite E1.
  assert (E2 : (0 <=? Z.of_nat j) && (Z.of_nat j <? Z.of_nat (length l)) = true).
  { apply andb_true_iff; split; [apply Z.leb_le | apply Z.ltb_lt]; lia. }
  rewrite E2, Nat2Z.id.
  destruct (nth_error l j) as [a |] eqn:E.
  - eauto.
  - apply nth_error_None in E. lia.
Qed.

(** ** Placement rectangles inside the canvas *)

Lemma z2min_list_lower (l : list zvec2) (x : zvec2) :
  In x l -> z2le (z2min_list l) x.
Proof.
  destruct l as [| a l]; [intros [] |].
  intros [<- | Hx]; simpl.
  - exact (proj1 (fold_z2min_lower _ _)).
  - exact (proj2 (fold_z2min_lower _ _) _ Hx).
Qed.

Lemma z2max_list_upper (l : list zvec2) (x : zvec2) :
  In x l -> z2le x (z2max_list l).
Proof.
  destruct l as [| a l]; [intros [] |].
  intros [<- | Hx]; simpl.
  - exact (proj1 (fold_z2max_upper _ _)).
  - exact (proj2 (fold_z2max_upper _ _) _ Hx).
Qed.

(** The rectangle of every tile, moved by the centre offset, lies between
    the origin and the size of the canvas. *)
Lemma tile_inside_canvas (sg : SnappedGeometry) (t : GridGeometryFragment) :
  In t (tiles sg) ->
  z2le (0, 0) (z2add (corner_idx t) (z2neg (min_corner_idx sg)))
  /\ z2le (z2add (opp_corner_idx t) (z2neg (min_corner_idx sg)))
          (z2sub (max_opp_corner_idx sg) (min_corner_idx sg)).
Proof.
  intros Ht.
  assert (L : z2le (min_corner_idx sg) (corner_idx t))
    by (apply z2min_list_lower, in_map, Ht).
  assert (U : z2le (opp_corner_idx t) (max_opp_corner_idx sg))
    by (apply z2max_list_upper, in_map, Ht).
  unfold z2le, z2add, z2neg, z2sub in *; simpl. lia.
Qed.

(** ** Fast assembly *)

Section FastAssembly.

Variable c : detector_class.
Variable sg : SnappedGeometry.
Hypothesis c_not_base : c <> Base.
Hypothesis layout : detector_layout c sg.

Lemma frag_pixels_positive : 0 < frag_ss_pixels c /\ 0 < frag_fs_pixels c.
Proof. destruct c; [congruence | |]; split; reflexivity. Qed.

Lemma snapped_tile_constructed (t : GridGeometryFragment) :
  snapped_tile c t -> constructed t.
Proof.
  intros [corner ss fs _].
  destruct frag_pixels_positive. constructor; lia.
Qed.

Lemma layout_tiles : Forall (snapped_tile c) (tiles sg).
Proof.
  destruct layout as (_ & _ & H). unfold tiles.
  induction H as [| m ms [_ Hm] _ IH]; simpl; [constructor |].
  apply Forall_app; auto.
Qed.

Lemma layout_constructed : Forall constructed (tiles sg).
Proof.
  eapply Forall_impl; [| exact layout_tiles].
  exact snapped_tile_constructed.
Qed.

Lemma layout_has_tile : tiles sg <> [].
Proof.
  destruct layout as (_ & Hn & H). unfold tiles.
  destruct (s_modules sg) as [| m ms].
  - destruct c; [congruence | discriminate | discriminate].
  - inversion H as [| ? ? [Hm _] _]; subst.
    destruct m; simpl; [| discriminate].
    destruct c; [congruence | discriminate | discriminate].
Qed.

Lemma layout_dimensions :
  SnappedGeometry._get_dimensions sg = Ok (canvas_size sg, centre_offset sg).
Proof.
  apply get_dimensions_value;
    [exact layout_constructed | exact layout_has_tile].
Qed.

Variable batch : list Z.

Lemma place_tile_ok (tiles_data : list ndarray) (j : nat)
    (t : GridGeometryFragment) (out : ndarray) :
  length tiles_data = tiles_per_module c ->
  Forall (fun a => shape a = batch ++ [frag_ss_pixels c; frag_fs_pixels c])
         tiles_data ->
  (j < tiles_per_module c)%nat ->
  In t (tiles sg) -> on_canvas sg batch out ->
  exists out', SnappedGeometry.place_tile (centre_offset sg) tiles_data j t out = Ok out'
               /\ on_canvas sg batch out'.
Proof.
  intros Hlen Hshapes Hj Ht Hout.
  unfold SnappedGeometry.place_tile.
  destruct (getitem_ok tiles_data j) as (a & E & Ha); [lia |].
  rewrite E; simpl.
  assert (Hsa : shape a = batch ++ [frag_ss_pixels c; frag_fs_pixels c]).
  { rewrite Forall_forall in Hshapes. eapply Hshapes, nth_error_In, Ha. }
  assert (Hst : snapped_tile c t).
  { pose proof layout_tiles as F. rewrite Forall_forall in F. auto. }
  destruct (apply_transform_ok c t a batch Hst Hsa) as (v & Ev & Hv).
  destruct (constructed_corner_le_opp t (snapped_tile_constructed t Hst))
    as (Hopp & Hh & Hw & _).
  destruct (tile_inside_canvas sg t Ht) as [Lo Hi].
  rewrite Hopp in Hi.
  destruct (corner_idx t) as [cy cx] eqn:Ec.
  destruct (pixel_dims t) as [h w] eqn:Ed.
  unfold z2le, z2add, z2neg, z2sub in Lo, Hi; simpl in Lo, Hi, Hv, Hh, Hw.
  rewrite Ev. unfold centre_offset, z2neg, z2add. simpl.
  destruct (assign_block_ok out v batch (fst (canvas_size sg)) (snd (canvas_size sg))
              (cy + - fst (min_corner_idx sg)) h
              (cx + - snd (min_corner_idx sg)) w Hout Hv)
    as (out' & E' & Hs'); try (unfold canvas_size, z2sub; simpl; lia).
  exists out'. split; [exact E' |].
  unfold on_canvas. rewrite Hs'. exact Hout.
Qed.

Lemma place_module_ok (data : ndarray) (i : nat)
    (m : list GridGeometryFragment) (out : ndarray) :
  shape data = batch ++ expected_data_shape c ->
  (i < module_count c)%nat ->
  In m (s_modules sg) -> on_canvas sg batch out ->
  exists out', SnappedGeometry.place_module sg data (centre_offset sg) i m out = Ok out'
               /\ on_canvas sg batch out'.
Proof.
  intros Hdata Hi Hm Hout.
  destruct (expected_data_shape_frag c c_not_base) as (s & f & Hexp & Hsplit).
  unfold module_count in Hi. rewrite Hexp in Hdata, Hi.
  unfold SnappedGeometry.place_module.
  destruct (select_module_ok data batch 16 s f (Z.of_nat i) Hdata)
    as (md & E & Hmd); [simpl in Hi; lia |].
  rewrite E; simpl.
  destruct layout as (Hg & _ & Hall).
  rewrite Hg.
  destruct (Hsplit md batch Hmd) as (td & Etd & Ltd & Ftd).
  rewrite Etd; simpl.
  rewrite Forall_forall in Hall. destruct (Hall m Hm) as [Lm _].
  apply for_enumerate_ok; [| exact Hout].
  intros k t out0 Hk Hout0. simpl.
  apply place_tile_ok; auto.
  - rewrite <- Lm. apply nth_error_Some. congruence.
  - unfold tiles. apply in_concat. exists m.
    split; [exact Hm | eapply nth_error_In, Hk].
Qed.

(** On data of the expected shape, fast assembly returns an array that
    keeps the leading axes of the data and ends in the canvas, and the
    centre offset. *)
Lemma position_modules_ok (data : ndarray) :
  shape data = batch ++ expected_data_shape c ->
  exists out,
    SnappedGeometry.position_modules sg data = Ok (out, centre_offset sg)
    /\ on_canvas sg batch out.
Proof.
  intros Hdata.
  destruct (expected_data_shape_frag c c_not_base) as (s & f & Hexp & _).
  unfold SnappedGeometry.position_modules.
  assert (Hgeom : geom sg = c) by apply layout.
  assert (Hl : last3 (shape data) = expected_data_shape c)
    by (rewrite Hdata, Hexp; apply last3_app).
  assert (Hd : drop_last3 (shape data) = batch)
    by (rewrite Hdata, Hexp; apply drop_last3_app).
  rewrite Hgeom, Hl, Hd.
  assert (E : list_Z_eqb (expected_data_shape c) (expected_data_shape c)
              = true) by (apply list_Z_eqb_eq; reflexivity).
  rewrite E, layout_dimensions. cbv beta iota delta [bind].
  destruct (for_enumerate_ok (SnappedGeometry.place_module sg data (centre_offset sg))
              (on_canvas sg batch) (s_modules sg) 0
              (np_full (batch ++ [fst (canvas_size sg); snd (canvas_size sg)]) nan))
    as (out & Eout & Hout).
  - intros k m out0 Hk Hout0. simpl.
    apply place_module_ok; auto.
    + destruct layout as (_ & Hn & _). rewrite <- Hn.
      apply nth_error_Some. congruence.
    + eapply nth_error_In, Hk.
  - reflexivity.
  - rewrite Eout. exists out. split; [reflexivity | exact Hout].
Qed.

End FastAssembly.

(** ** Canvas sizing *)

(** A loop whose body keeps a property of the state whenever it succeeds
    keeps it when the loop succeeds. *)
Lemma for_enumerate_preserves {A St : Type}
    (body : nat -> A -> St -> result St) (P : St -> Prop) (l : list A) :
  (forall i a s s', body i a s = Ok s' -> P s -> P s') ->
  forall (start : nat) (s s' : St),
    for_enumerate body start l s = Ok s' -> P s -> P s'.
Proof.
  intros Hbody.
  induction l as [| a l IH]; intros start s s' H Hs; simpl in H.
  - injection H as <-. exact Hs.
  - destruct (body start a s) as [s1 |] eqn:E; simpl in H; [| discriminate].
    eapply IH; eauto.
Qed.

Lemma assign_block_shape (out value out' : ndarray) (y0 y1 x0 x1 : Z) :
  assign_block out y0 y1 x0 x1 value = Ok out' -> shape out' = shape out.
Proof.
  unfold assign_block. intros H.
  destruct (last2 (shape out)) as [| rows [| cols [| ? ?]]]; try discriminate.
  destruct (slice_bounds y0 y1 rows), (slice_bounds x0 x1 cols).
  destruct (broadcastable_rev _ _); [| discriminate].
  injection H as <-. reflexivity.
Qed.

Lemma place_module_shape (sg : SnappedGeometry) (data : ndarray)
    (centre : zvec2) (i : nat) (m : list GridGeometryFragment)
    (out out' : ndarray) :
  SnappedGeometry.place_module sg data centre i m out = Ok out' ->
  shape out' = shape out.
Proof.
  unfold SnappedGeometry.place_module. intros H.
  destruct (select_module data (Z.of_nat i)) as [md |]; [| discriminate].
  simpl in H.
  destruct (split_tiles (geom sg) md) as [td |]; [| discriminate].
  simpl in H.
  eapply (for_enumerate_preserves _ (fun o => shape o = shape out));
    [| exact H | reflexivity].
  intros j t o o' Ho Hs.
  unfold SnappedGeometry.place_tile in Ho.
  destruct (getitem td (Z.of_nat j)); [| discriminate]. simpl in Ho.
  destruct (z2add (corner_idx t) centre), (pixel_dims t).
  destruct (apply_transform (transform t) a); [| discriminate]. simpl in Ho.
  apply assign_block_shape in Ho. congruence.
Qed.

(** What fast assembly returns has the canvas and the centre offset that
    [_get_dimensions] computes from the geometry. *)
Lemma position_modules_dimensions (sg : SnappedGeometry) (data out : ndarray)
    (centre : zvec2) :
  SnappedGeometry.position_modules sg data = Ok (out, centre) ->
  exists size,
    SnappedGeometry._get_dimensions sg = Ok (size, centre)
    /\ shape out = drop_last3 (shape data) ++ [fst size; snd size].
Proof.
  unfold SnappedGeometry.position_modules. intros H.
  destruct (list_Z_eqb _ _); [| discriminate].
  destruct (SnappedGeometry._get_dimensions sg) as [[size c] |];
    [| discriminate].
  cbv beta iota delta [bind] in H.
  destruct (for_enumerate _ _ _ _) as [o |] eqn:E; [| discriminate].
  injection H as <- <-.
  exists size. split; [reflexivity |].
  eapply (for_enumerate_preserves _
            (fun o => shape o = drop_last3 (shape data) ++ [fst size; snd size]));
    [| exact E | reflexivity].
  intros i m s s' Hs Hshape.
  apply place_module_shape in Hs. congruence.
Qed.

(** C2. For every snapped geometry with at least one tile, the canvas size
    of the fast assembler is the element-wise maximum of all tiles'
    [opp_corner_idx] minus the element-wise minimum of all tiles'
    [corner_idx], and the centre offset is that minimum negated; whatever
    the data, an assembled array has that canvas and that centre. *)
Theorem canvas_size_and_centre (sg : SnappedGeometry) :
  Forall constructed (tiles sg) -> tiles sg <> [] ->
  SnappedGeometry._get_dimensions sg
  = Ok (z2sub (max_opp_corner_idx sg) (min_corner_idx sg),
        z2neg (min_corner_idx sg))
  /\ forall (data out : ndarray) (centre : zvec2),
       SnappedGeometry.position_modules sg data = Ok (out, centre) ->
       centre = z2neg (min_corner_idx sg)
       /\ last2 (shape out)
          = [fst (max_opp_corner_idx sg) - fst (min_corner_idx sg);
             snd (max_opp_corner_idx sg) - snd (min_corner_idx sg)].
Proof.
  intros Hc Hne.
  pose proof (get_dimensions_value sg Hc Hne) as Hdim.
  split; [exact Hdim |].
  intros data out centre H.
  destruct (position_modules_dimensions sg data out centre H)
    as (size & Hsize & Hshape).
  rewrite Hdim in Hsize. injection Hsize as <- <-.
  split; [reflexivity |].
  rewrite Hshape. apply last2_app.
Qed.

(** C10. For every snapped geometry and every tile of it, the placement
    rectangle moved by the centre offset lies inside the canvas computed
    from the same geometry: element-wise [0 <= corner_idx + centre] and
    [opp_corner_idx + centre <= size]; so the two slices of the tile's write
    are not clipped, end at [opp_corner_idx + centre], and select exactly
    [pixel_dims] pixels. *)
Theorem tile_write_in_bounds (sg : SnappedGeometry) (size centre : zvec2)
    (t : GridGeometryFragment) :
  Forall constructed (tiles sg) ->
  SnappedGeometry._get_dimensions sg = Ok (size, centre) ->
  In t (tiles sg) ->
  let y := fst (corner_idx t) + fst centre in
  let x := snd (corner_idx t) + snd centre in
  let h := fst (pixel_dims t) in
  let w := snd (pixel_dims t) in
  z2le (0, 0) (z2add (corner_idx t) centre)
  /\ z2le (z2add (opp_corner_idx t) centre) size
  /\ slice_bounds y (y + h) (fst size) = (y, fst (opp_corner_idx t) + fst centre)
  /\ slice_bounds x (x + w) (snd size) = (x, snd (opp_corner_idx t) + snd centre)
  /\ slice_len y (y + h) (fst size) = h
  /\ slice_len x (x + w) (snd size) = w.
Proof.
  intros Hc Hdim Ht y x h w.
  assert (Hne : tiles sg <> []) by (intros E; rewrite E in Ht; exact Ht).
  rewrite (get_dimensions_value sg Hc Hne) in Hdim.
  injection Hdim as <- <-.
  destruct (tile_inside_canvas sg t Ht) as [Lo Hi].
  rewrite Forall_forall in Hc.
  destruct (constructed_corner_le_opp t (Hc t Ht)) as (Hopp & Hh & Hw & _).
  split; [exact Lo | split; [exact Hi |]].
  rewrite Hopp in *.
  subst y x h w.
  unfold z2le, z2add, z2neg, z2sub, slice_len, slice_bounds in *.
  simpl in *.
  rewrite !clip_index_in_range by lia.
  repeat split; try f_equal; lia.
Qed.

(** ** From a geometry to its snapped layout *)

Lemma comprehension_Forall2 {A B : Type} (f : A -> result B) (l : list A) :
  forall l', comprehension f l = Ok l' -> Forall2 (fun a b => f a = Ok b) l l'.
Proof.
  induction l as [| a l IH]; intros l' H; simpl in H.
  - injection H as <-. constructor.
  - destruct (f a) as [b |] eqn:E; simpl in H; [| discriminate].
    destruct (comprehension f l) as [bs |]; simpl in H; [| discriminate].
    injection H as <-. constructor; auto.
Qed.

Lemma Forall2_Forall_r {A B : Type} (R : A -> B -> Prop) (P : A -> Prop)
    (Q : B -> Prop) (l : list A) (l' : list B) :
  (forall a b, P a -> R a b -> Q b) ->
  Forall2 R l l' -> Forall P l -> Forall Q l'.
Proof.
  intros H F. induction F as [| a b l l' Hab _ IH]; intros HP.
  - constructor.
  - inversion HP; subst. constructor; eauto.
Qed.

Lemma snap_snapped_tile (c : detector_class) (t : GeometryFragment)
    (g : GridGeometryFragment) :
  ss_pixels t = frag_ss_pixels c /\ fs_pixels t = frag_fs_pixels c ->
  GeometryFragment.snap t = Ok g -> snapped_tile c g.
Proof.
  intros [Hs Hf] H. unfold GeometryFragment.snap in H.
  destruct (is_canonical_pair _ _) eqn:E; [| discriminate].
  injection H as <-. rewrite Hs, Hf.
  constructor. apply axis_permutation_rev2, is_canonical_pair_spec, E.
Qed.

(** Snapping a geometry that has the layout of its detector gives a snapped
    geometry that has it. *)
Lemma compute_snapped_layout (self : DetectorGeometry) (sg : SnappedGeometry) :
  fragment_layout (cls self) (modules self) ->
  DetectorGeometryBase.compute_snapped self = Ok sg ->
  detector_layout (cls self) sg.
Proof.
  intros [Hn Hall] H. unfold DetectorGeometryBase.compute_snapped in H.
  destruct (comprehension _ (modules self)) as [nm |] eqn:E; [| discriminate].
  injection H as <-.
  apply comprehension_Forall2 in E.
  split; [reflexivity | split]; simpl.
  - rewrite <- Hn. symmetry. exact (Forall2_length E).
  - eapply Forall2_Forall_r; [| exact E | exact Hall].
    intros m m' [Hlen Hts] Hm. simpl in Hm.
    apply comprehension_Forall2 in Hm.
    split.
    + rewrite <- Hlen. symmetry. exact (Forall2_length Hm).
    + eapply Forall2_Forall_r; [| exact Hm | exact Hts].
      intros t g Ht Hg. exact (snap_snapped_tile _ t g Ht Hg).
Qed.

(** The layout generator of the AGIPD-1M makes 16 modules of 8 tiles of 64
    by 128 pixels. *)
Lemma from_quad_positions_layout (quad_pos : list qvec2) (asic_gap panel_gap : Q)
    (ms : fragments) :
  AGIPD_1MGeometry.from_quad_positions quad_pos asic_gap panel_gap = Ok ms ->
  fragment_layout AGIPD_1M ms.
Proof.
  intros H. unfold AGIPD_1MGeometry.from_quad_positions in H.
  apply comprehension_Forall2 in H.
  split.
  - symmetry. apply (Forall2_length H).
  - eapply Forall2_Forall_r with (P := fun _ => True);
      [| exact H | apply Forall_forall; auto].
    intros p m _ Hm. simpl in Hm.
    destruct (getitem quad_pos (p / 4)); [| discriminate]. simpl in Hm.
    destruct (getitem _ (p / 4)); [| discriminate]. simpl in Hm.
    destruct (getitem _ (p / 4)); [| discriminate]. simpl in Hm.
    injection Hm as <-.
    split; [reflexivity | repeat constructor].
Qed.

Lemma sample_modules_generated :
  AGIPD_1MGeometry.from_quad_positions sample_quad_pos 2 29 = Ok sample_modules.
Proof. vm_compute. reflexivity. Qed.

Lemma sample_snapped_computed :
  DetectorGeometryBase.compute_snapped sample_geometry = Ok sample_snapped.
Proof. vm_compute. reflexivity. Qed.

Lemma sample_snapped_layout : detector_layout AGIPD_1M sample_snapped.
Proof.
  apply (compute_snapped_layout sample_geometry).
  - exact (from_quad_positions_layout _ _ _ _ sample_modules_generated).
  - exact sample_snapped_computed.
Qed.

Lemma AGIPD_not_base : AGIPD_1M <> Base.
Proof. discriminate. Qed.

Lemma canvas_size_and_centre_witness :
  SnappedGeometry._get_dimensions sample_snapped
  = Ok ((1256, 1092), (631, 550))
  /\ forall (data out : ndarray) (centre : zvec2),
       SnappedGeometry.position_modules sample_snapped data = Ok (out, centre) ->
       centre = (631, 550) /\ last2 (shape out) = [1256; 1092].
Proof.
  apply (canvas_size_and_centre sample_snapped).
  - exact (layout_constructed _ _ AGIPD_not_base sample_snapped_layout).
  - exact (layout_has_tile _ _ AGIPD_not_base sample_snapped_layout).
Defined.

Lemma tile_write_in_bounds_witness :
  z2le (0, 0) (z2add (corner_idx first_sample_tile) (631, 550))
  /\ z2le (z2add (opp_corner_idx first_sample_tile) (631, 550)) (1256, 1092)
  /\ slice_bounds 1128 (1128 + 128) 1256 = (1128, 1256)
  /\ slice_bounds 25 (25 + 64) 1092 = (25, 89)
  /\ slice_len 1128 (1128 + 128) 1256 = 128
  /\ slice_len 25 (25 + 64) 1092 = 64.
Proof.
  apply (tile_write_in_bounds sample_snapped (1256, 1092) (631, 550)
                              first_sample_tile).
  - exact (layout_constructed _ _ AGIPD_not_base sample_snapped_layout).
  - vm_compute. reflexivity.
  - vm_compute. left. reflexivity.
Defined.

(** ** Failure of fast assembly *)

(** C4. For every input array, fast assembly with the snapped layout of a
    detector fails, returning no array, if and only if the last three
    dimensions of the input differ from the raw shape of the detector; when
    they agree it returns an array whose shape is the leading dimensions of
    the input, unchanged, followed by the rows and columns of the canvas. *)
Theorem position_modules_fails_iff_shape_mismatch (c : detector_class)
    (sg : SnappedGeometry) (data : ndarray) :
  c <> Base -> detector_layout c sg ->
  ((exists e, SnappedGeometry.position_modules sg data = Raise e)
   <-> last3 (shape data) <> expected_data_shape c)
  /\ (last3 (shape data) = expected_data_shape c ->
      exists out,
        SnappedGeometry.position_modules sg data
        = Ok (out, z2neg (min_corner_idx sg))
        /\ shape out
           = drop_last3 (shape data)
             ++ [fst (max_opp_corner_idx sg) - fst (min_corner_idx sg);
                 snd (max_opp_corner_idx sg) - snd (min_corner_idx sg)]).
Proof.
  intros Hc Hl.
  assert (Hok : last3 (shape data) = expected_data_shape c ->
                exists out,
                  SnappedGeometry.position_modules sg data
                  = Ok (out, z2neg (min_corner_idx sg))
                  /\ shape out
                     = drop_last3 (shape data)
                       ++ [fst (max_opp_corner_idx sg) - fst (min_corner_idx sg);
                           snd (max_opp_corner_idx sg)
                           - snd (min_corner_idx sg)]).
  { intros E.
    apply (position_modules_ok c sg Hc Hl (drop_last3 (shape data)) data).
    rewrite <- E. apply shape_split3. }
  split; [| exact Hok].
  split.
  - intros [e He] E. destruct (Hok E) as (out & Ho & _). congruence.
  - intros N. exists AssertionError.
    unfold SnappedGeometry.position_modules.
    assert (Hg : geom sg = c) by apply Hl.
    rewrite Hg.
    destruct (list_Z_eqb _ _) eqn:E; [| reflexivity].
    apply list_Z_eqb_eq in E. contradiction.
Qed.

(** A frame of the wrong width is refused; the stack of two good frames is
    assembled, and a pixel inside a tile holds the data. *)
Example narrow_frame_refused :
  SnappedGeometry.position_modules sample_snapped narrow_frame
  = Raise AssertionError.
Proof. reflexivity. Qed.

Example sample_frames_assembled :
  match SnappedGeometry.position_modules sample_snapped sample_frames with
  | Ok (out, centre) =>
      Some (shape out, centre, item out [1; 1128; 25], item out [1; 1128; 24])
  | Raise _ => None
  end
  = Some ([2; 1256; 1092], (631, 550), Some 1%Q, nan).
Proof. vm_compute. reflexivity. Qed.

Lemma position_modules_fails_iff_shape_mismatch_witness :
  ((exists e, SnappedGeometry.position_modules sample_snapped sample_frames
              = Raise e)
   <-> last3 (shape sample_frames) <> [16; 512; 128])
  /\ (last3 (shape sample_frames) = [16; 512; 128] ->
      exists out,
        SnappedGeometry.position_modules sample_snapped sample_frames
        = Ok (out, (631, 550))
        /\ shape out = [2] ++ [1256; 1092]).
Proof.
  apply (position_modules_fails_iff_shape_mismatch AGIPD_1M sample_snapped
                                                   sample_frames).
  - exact AGIPD_not_base.
  - exact sample_snapped_layout.
Defined.

(** ** The cached layout *)

(** A new object has a valid cache, and a call keeps it valid. *)
Lemma init_cache_valid (c : detector_class) (ms : fragments) :
  cache_valid (DetectorGeometryBase.init c ms).
Proof. exact I. Qed.

Lemma snapped_spec (self : DetectorGeometry) :
  cache_valid self ->
  fst (DetectorGeometryBase._snapped self)
  = DetectorGeometryBase.compute_snapped self
  /\ cache_valid (snd (DetectorGeometryBase._snapped self))
  /\ cls (snd (DetectorGeometryBase._snapped self)) = cls self
  /\ modules (snd (DetectorGeometryBase._snapped self)) = modules self.
Proof.
  unfold cache_valid, DetectorGeometryBase._snapped. intros Hv.
  destruct (_snapped_cache self) as [sg |] eqn:Ec.
  - simpl. rewrite Ec. auto.
  - destruct (DetectorGeometryBase.compute_snapped self) as [sg | e] eqn:E;
      simpl; [| rewrite Ec; auto].
    repeat split. exact E.
Qed.

Lemma compute_snapped_ext (a b : DetectorGeometry) :
  cls a = cls b -> modules a = modules b ->
  DetectorGeometryBase.compute_snapped a = DetectorGeometryBase.compute_snapped b.
Proof.
  unfold DetectorGeometryBase.compute_snapped. intros -> ->. reflexivity.
Qed.

(** A call of fast assembly returns what assembly with a fresh layout
    returns. *)
Lemma position_modules_fast_spec (self : DetectorGeometry) (data : ndarray) :
  cache_valid self ->
  fst (DetectorGeometryBase.position_modules_fast self data)
  = assemble_with_fresh_layout self data
  /\ snd (DetectorGeometryBase.position_modules_fast self data)
     = snd (DetectorGeometryBase._snapped self).
Proof.
  intros Hv. destruct (snapped_spec self Hv) as (H1 & _).
  unfold DetectorGeometryBase.position_modules_fast, assemble_with_fresh_layout.
  destruct (DetectorGeometryBase._snapped self) as [r self'].
  simpl in *. rewrite H1. auto.
Qed.

Lemma snapped_twice (self : DetectorGeometry) :
  snd (DetectorGeometryBase._snapped (snd (DetectorGeometryBase._snapped self)))
  = snd (DetectorGeometryBase._snapped self).
Proof.
  unfold DetectorGeometryBase._snapped.
  destruct (_snapped_cache self) as [sg |] eqn:Ec; simpl.
  - rewrite Ec. reflexivity.
  - destruct (DetectorGeometryBase.compute_snapped self) eqn:E; simpl.
    + reflexivity.
    + rewrite Ec, E. reflexivity.
Qed.

Lemma snapped_fills_cache (self : DetectorGeometry) :
  is_ok (fst (DetectorGeometryBase._snapped self)) = true ->
  _snapped_cache (snd (DetectorGeometryBase._snapped self)) <> None.
Proof.
  unfold DetectorGeometryBase._snapped.
  destruct (_snapped_cache self) as [sg |] eqn:Ec; simpl.
  - rewrite Ec. discriminate.
  - destruct (DetectorGeometryBase.compute_snapped self); simpl; discriminate.
Qed.

Lemma is_ok_bind {A B : Type} (r : result A) (k : A -> result B) :
  is_ok (bind r k) = true -> is_ok r = true.
Proof. destruct r; simpl; [reflexivity | discriminate]. Qed.

(** C9. For every geometry object and every input array, two calls of fast
    assembly on the same input return the same array and the same centre
    offset (or raise the same error), the second call leaves the object as
    the first left it, and either call, with the cached layout or without,
    returns what assembly with a freshly computed snapped layout returns;
    the second call of a successful pair finds the cache filled. *)
Theorem fast_assembly_idempotent (self : DetectorGeometry) (data : ndarray) :
  cache_valid self ->
  let call1 := DetectorGeometryBase.position_modules_fast self data in
  let call2 := DetectorGeometryBase.position_modules_fast (snd call1) data in
  fst call1 = fst call2
  /\ snd call2 = snd call1
  /\ fst call1 = assemble_with_fresh_layout self data
  /\ fst call2 = assemble_with_fresh_layout (snd call1) data
  /\ (is_ok (fst call1) = true -> _snapped_cache (snd call1) <> None).
Proof.
  intros Hv call1 call2.
  destruct (position_modules_fast_spec self data Hv) as [R1 S1].
  destruct (snapped_spec self Hv) as (F & Hv1 & Hc & Hm).
  fold call1 in R1, S1.
  rewrite <- S1 in Hv1, Hc, Hm.
  destruct (position_modules_fast_spec (snd call1) data Hv1) as [R2 S2].
  fold call2 in R2, S2.
  assert (Efresh : assemble_with_fresh_layout (snd call1) data
                   = assemble_with_fresh_layout self data).
  { unfold assemble_with_fresh_layout.
    rewrite (compute_snapped_ext (snd call1) self Hc Hm). reflexivity. }
  split; [congruence |].
  split; [rewrite S2, S1; apply snapped_twice |].
  split; [exact R1 |].
  split; [exact R2 |].
  intros Hok. rewrite S1. apply snapped_fills_cache.
  rewrite F. rewrite R1 in Hok. exact (is_ok_bind _ _ Hok).
Qed.

Lemma fast_assembly_idempotent_witness :
  let call1 :=
    DetectorGeometryBase.position_modules_fast sample_geometry sample_frames in
  let call2 :=
    DetectorGeometryBase.position_modules_fast (snd call1) sample_frames in
  fst call1 = fst call2
  /\ snd call2 = snd call1
  /\ fst call1 = assemble_with_fresh_layout sample_geometry sample_frames
  /\ fst call2 = assemble_with_fresh_layout (snd call1) sample_frames
  /\ (is_ok (fst call1) = true -> _snapped_cache (snd call1) <> None).
Proof.
  apply (fast_assembly_idempotent sample_geometry sample_frames).
  exact I.
Defined.

(** ** The interpolating assembler *)

Section InterpolatingAssembly.

Variable affine_transform : ndarray -> mat2 -> qvec2 -> zvec2 -> ndarray.
Variable uninitialised : list Z -> pixel.


Lemma get_dimensions_ok (ms : fragments) :
  concat ms <> [] ->
  exists size centre, AGIPD_1MGeometry._get_dimensions ms = Ok (size, centre).
Proof.
  intros Hne. unfold AGIPD_1MGeometry._get_dimensions.
  replace (flat_map (fun module => map GeometryFragment.corners module) ms)
    with (map GeometryFragment.corners (concat ms)).
  2:{ clear Hne. induction ms as [| m ms IH]; simpl; [reflexivity |].
      rewrite map_app, IH. reflexivity. }
  destruct (concat ms) as [| t ts]; [congruence |].
  simpl. eexists; eexists; reflexivity.
Qed.

Lemma mat2_inv_ok (a b c d : Q) :
  ~ (a * d - b * c == 0)%Q -> exists m, mat2_inv ((a, b), (c, d)) = Ok m.
Proof.
  intros N. unfold mat2_inv.
  destruct (Qeq_bool (a * d - b * c) 0) eqn:E.
  - apply Qeq_bool_iff in E. contradiction.
  - eexists; reflexivity.
Qed.

Lemma interpolate_tile_ok (size centre : zvec2) (i j : nat)
    (t : GeometryFragment) (a tmp : ndarray) :
  nonsingular t ->
  exists tmp',
    AGIPD_1MGeometry.interpolate_tile affine_transform size centre i j t a tmp
    = Ok tmp'
    /\ shape tmp' = shape tmp.
Proof.
  intros Hn. unfold AGIPD_1MGeometry.interpolate_tile.
  destruct (mat2_inv_ok (vy (ss_vec t)) (vy (fs_vec t))
                        (vx (ss_vec t)) (vx (fs_vec t)) Hn) as [m Hm].
  unfold rev2, first2; cbn [fst snd]. rewrite Hm.
  cbv beta iota delta [bind]. eexists; split; reflexivity.
Qed.

(** An array of shape (16, 512, 128) is assembled, into an array of the
    size that the geometry gives. *)
Lemma interpolate_ok (ms : fragments) (data : ndarray) :
  shape data = [16; 512; 128] ->
  concat ms <> [] -> Forall nonsingular (concat ms) ->
  exists out size centre,
    AGIPD_1MGeometry._get_dimensions ms = Ok (size, centre)
    /\ AGIPD_1MGeometry.position_modules_interpolate
    affine_transform uninitialised ms data = Ok (out, centre)
    /\ shape out = [fst size; snd size].
Proof.
  intros Hs Hne Hns.
  destruct (get_dimensions_ok ms Hne) as (size & centre & Hdim).
  unfold AGIPD_1MGeometry.position_modules_interpolate.
  rewrite Hs, Hdim. cbv beta iota delta [bind list_Z_eqb].
  destruct (list_eq_dec Z.eq_dec [16; 512; 128] [16; 512; 128]);
    [| congruence].
  match goal with
  | |- context [for_enumerate ?body 0%nat ?l ?s] =>
      destruct (for_enumerate_ok body
                  (fun tmp => shape tmp = [16 * 8; fst size; snd size])
                  l 0%nat s) as (tmp & Et & Ht)
  end.
  - intros k m tmp0 Hk Htmp0. cbn [Nat.add].
    assert (Hk16 : (k < 16)%nat).
    { assert (L : (k < length (firstn 16 ms))%nat)
        by (apply nth_error_Some; congruence).
      rewrite length_firstn in L. lia. }
    assert (Hm : In m ms).
    { apply nth_error_In in Hk.
      rewrite <- (firstn_skipn 16 ms). apply in_or_app. auto. }
    destruct (select_module_ok data [] 16 512 128 (Z.of_nat k) Hs)
      as (md & Emd & Hmd); [lia |].
    rewrite Emd. cbv beta iota delta [bind].
    destruct (split_rows_ok md [] 512 128 8 Hmd eq_refl) as (td & Etd & _).
    rewrite Etd.
    apply for_enumerate_ok; [| exact Htmp0].
    intros j [t a] tmp1 Hj Htmp1. cbn [fst snd Nat.add].
    destruct (interpolate_tile_ok size centre k j t a tmp1) as (tmp2 & E2 & H2).
    + rewrite Forall_forall in Hns. apply Hns.
      apply in_concat. exists m. split; [exact Hm |].
      apply nth_error_In in Hj. eapply in_combine_l, Hj.
    + exists tmp2. split; [exact E2 | congruence].
  - reflexivity.
  - rewrite Et. unfold AGIPD_1MGeometry.nanmax_axis0. rewrite Ht.
    cbn [Z.leb Z.mul Pos.mul Z.compare Pos.compare].
    eexists; eexists; eexists.
    split; [reflexivity | split; reflexivity].
Qed.

End InterpolatingAssembly.

(** ** The assembly entry points *)






(** ** The idealised AGIPD-1M layout *)

(** In the sample geometry, tile 1 of module 0 lies 66 pixels from tile 0
    along the slow-scan vector, which is +x, and not along the fast-scan
    vector, which is -y. *)
Lemma tile_offset_not_along_fast_scan :
  exists t0 t1 rest more,
    AGIPD_1MGeometry.from_quad_positions sample_quad_pos 2 29
    = Ok ((t0 :: t1 :: rest) :: more)
    /\ ss_vec t0 = V3 1 0 0 /\ fs_vec t0 = V3 0 (-1) 0
    /\ v3eq (corner_pos t1)
            (v3add (corner_pos t0) (v3scale (ss_vec t0) (1 * (64 + 2))))
    /\ ~ v3eq (corner_pos t1)
              (v3add (corner_pos t0) (v3scale (fs_vec t0) (1 * (64 + 2)))).
Proof.
  do 4 eexists.
  split; [vm_compute; reflexivity |].
  split; [reflexivity | split; [reflexivity |]].
  split.
  - repeat split.
  - intros (H & _). vm_compute in H. discriminate H.
Qed.

(** C6, as the code has it. For every choice of four quadrant positions, the
    layout generated with [asic_gap = 2] and [panel_gap = 29] has the corner
    of tile 0 of module 0 at the first quadrant position, and the corner of
    every tile [a] of module 0 at [a * (64 + asic_gap)] from the corner of
    tile 0 along the slow-scan vector of the module, which is +x; its
    fast-scan vector is -y. *)
Theorem from_quad_positions_module0 (q0 q1 q2 q3 : qvec2) :
  exists (t0 : GeometryFragment) (rest : list GeometryFragment)
         (more : fragments),
    AGIPD_1MGeometry.from_quad_positions_default [q0; q1; q2; q3]
    = Ok ((t0 :: rest) :: more)
    /\ v3eq (corner_pos t0) (V3 (fst q0) (snd q0) 0)
    /\ Forall2 (fun a t =>
                  v3eq (corner_pos t)
                       (v3add (corner_pos t0)
                              (v3scale (ss_vec t) (inject_Z a * (64 + 2))))
                  /\ v3eq (ss_vec t) (V3 1 0 0)
                  /\ v3eq (fs_vec t) (V3 0 (-1) 0))
               (range 8) (t0 :: rest).
Proof.
  destruct q0 as [x0 y0], q1 as [x1 y1], q2 as [x2 y2], q3 as [x3 y3].
  do 3 eexists.
  split.
  - cbv - [Qplus Qmult Qminus Qopp inject_Z]. reflexivity.
  - unfold v3eq.
    cbv [corner_pos ss_vec fs_vec vx vy vz v3add v3scale fst snd range map seq
         Z.to_nat Pos.to_nat Pos.iter_op Nat.add Z.of_nat Pos.of_succ_nat
         Pos.succ].
    unfold inject_Z.
    split; [repeat split; ring |].
    repeat (apply Forall2_cons; [repeat split; ring |]).
    apply Forall2_nil.
Qed.

(** ** The distortion array *)

(** The corner [k] of pixel [(i, j)] is the tile's corner plus the index of
    the pixel, moved by the offsets of the corner, along the two steps. *)
Lemma pixel_corners_formula (corner ss_unit fs_unit : Q) (i j k : Z) :
  (AGIPD_1MGeometry.pixel_corners corner ss_unit fs_unit i j k
   == corner
      + (inject_Z i
         + AGIPD_1MGeometry.offset_at AGIPD_1MGeometry.corner_ss_offsets k)
        * ss_unit
      + (inject_Z j
         + AGIPD_1MGeometry.offset_at AGIPD_1MGeometry.corner_fs_offsets k)
        * fs_unit)%Q.
Proof. unfold AGIPD_1MGeometry.pixel_corners. ring. Qed.

(** C7. For the geometry of one tile with [ss_vec = (1, 0, 0)],
    [fs_vec = (0, 1, 0)], [corner_pos = (0, 0, 0)] and pixel size 1, the
    builder of the distortion array computes, before it shifts the origin,
    the four corners of pixel (0, 0) as (-0.5, -0.5), (0.5, -0.5),
    (0.5, 0.5), (-0.5, 0.5) in (x, y), in this order; each is the tile's
    corner plus [ss_index * ss_vec + fs_index * fs_vec] at the index of the
    pixel moved by the offsets of the corner. *)
Theorem distortion_unit_tile_corners :
  exists d : AGIPD_1MGeometry.distortion,
    AGIPD_1MGeometry.fill_distortion 1 single_tile_geometry = Ok d
    /\ Forall2 (fun k xy => (d 0%Z 0%Z k 2%Z == fst xy)%Q
                            /\ (d 0%Z 0%Z k 1%Z == snd xy)%Q)
               [0; 1; 2; 3]
               [ (- (1 # 2), - (1 # 2)); (1 # 2, - (1 # 2));
                 (1 # 2, 1 # 2); (- (1 # 2), 1 # 2) ]%Q
    /\ Forall (fun k =>
                 let ss_index :=
                   (0 + AGIPD_1MGeometry.offset_at
                          AGIPD_1MGeometry.corner_ss_offsets k)%Q in
                 let fs_index :=
                   (0 + AGIPD_1MGeometry.offset_at
                          AGIPD_1MGeometry.corner_fs_offsets k)%Q in
                 let corner :=
                   v3add (corner_pos unit_tile)
                         (v3add (v3scale (ss_vec unit_tile) ss_index)
                                (v3scale (fs_vec unit_tile) fs_index)) in
                 (d 0%Z 0%Z k 2%Z == vx corner)%Q
                 /\ (d 0%Z 0%Z k 1%Z == vy corner)%Q
                 /\ (d 0%Z 0%Z k 0%Z == vz corner)%Q)
              [0; 1; 2; 3].
Proof.
  eexists. split; [reflexivity |].
  split.
  - repeat (apply Forall2_cons; [split; vm_compute; reflexivity |]).
    apply Forall2_nil.
  - repeat (apply Forall_cons; [repeat split; vm_compute; reflexivity |]).
    apply Forall_nil.
Qed.

(** The builder is made for tiles of 64 rows: a tile of 32 does not fit the
    block of corners it computes. *)
Example short_tile_refused :
  is_ok (AGIPD_1MGeometry.fill_distortion 1 short_tile_geometry) = false.
Proof. vm_compute. reflexivity. Qed.

(* ================================================================= *)
(** * Further properties of the code *)

(** ** Fragments *)

(** X1. The corners of a fragment form a parallelogram whose diagonals meet
    at the centre of the fragment: twice the centre is the sum of the first
    and third corner, and of the second and fourth. *)
Theorem centre_is_midpoint_of_diagonals (t : GeometryFragment) :
  exists c0 c1 c2 c3 : vec3,
    GeometryFragment.corners t = [c0; c1; c2; c3]
    /\ v3eq (v3scale (GeometryFragment.centre t) 2) (v3add c0 c2)
    /\ v3eq (v3scale (GeometryFragment.centre t) 2) (v3add c1 c3).
Proof.
  do 4 eexists. split; [reflexivity |].
  unfold v3eq, GeometryFragment.centre.
  cbn [vx vy vz v3add v3scale].
  repeat split; ring.
Qed.

(** ** Placement of a tile *)

Lemma broadcast_index_rev_id (v idx : list Z) :
  index_in idx v -> broadcast_index_rev v idx = idx.
Proof.
  intros H. induction H as [| x d idx v Hx _ IH]; simpl; [reflexivity |].
  rewrite IH. destruct (d =? 1) eqn:E; [| reflexivity].
  apply Z.eqb_eq in E. f_equal. lia.
Qed.

Lemma index_in_rev (idx s : list Z) :
  index_in idx s -> index_in (rev idx) (rev s).
Proof.
  intros H. induction H as [| x d idx s Hx _ IH]; simpl; [constructor |].
  apply Forall2_app; [exact IH | constructor; [exact Hx | constructor]].
Qed.

Lemma index_in_app (b batch tail dims : list Z) :
  index_in b batch -> index_in tail dims -> index_in (b ++ tail) (batch ++ dims).
Proof. intros; apply Forall2_app; assumption. Qed.

(** The elements of an array after a block assignment that fits: inside the
    block they are those of the value, outside they are as before. *)
Lemma assign_block_inside (out value out' : ndarray) (b batch : list Z)
    (rows cols y h x w r c : Z) :
  shape out = batch ++ [rows; cols] ->
  shape value = batch ++ [h; w] ->
  0 <= y -> y + h <= rows -> 0 <= x -> x + w <= cols ->
  assign_block out y (y + h) x (x + w) value = Ok out' ->
  index_in b batch -> y <= r < y + h -> x <= c < x + w ->
  item out' (b ++ [r; c]) = item value (b ++ [r - y; c - x]).
Proof.
  intros Ho Hv Hy Hyh Hx Hxw H Hb Hr Hc.
  unfold assign_block, slice_bounds in H.
  rewrite Ho, last2_app, drop_last2_app in H.
  rewrite !clip_index_in_range in H by lia.
  destruct (broadcastable_rev _ _); [| discriminate].
  injection H as <-. cbn [item].
  rewrite last2_app, drop_last2_app.
  assert (E : (y <=? r) && (r <? y + h) && (x <=? c) && (c <? x + w) = true).
  { rewrite !andb_true_iff, !Z.leb_le, !Z.ltb_lt. lia. }
  rewrite E, Hv.
  rewrite broadcast_index_rev_id, rev_involutive; [reflexivity |].
  apply index_in_rev, index_in_app; [exact Hb |].
  constructor; [lia | constructor; [lia | constructor]].
Qed.

Lemma assign_block_outside (out value out' : ndarray) (batch : list Z)
    (rows cols y h x w : Z) (idx : list Z) (r c : Z) :
  shape out = batch ++ [rows; cols] ->
  0 <= y -> 0 <= h -> y + h <= rows -> 0 <= x -> 0 <= w -> x + w <= cols ->
  assign_block out y (y + h) x (x + w) value = Ok out' ->
  last2 idx = [r; c] -> ~ (y <= r < y + h /\ x <= c < x + w) ->
  item out' idx = item out idx.
Proof.
  intros Ho Hy Hh Hyh Hx Hw Hxw H Hidx Hout.
  unfold assign_block, slice_bounds in H.
  rewrite Ho, last2_app, drop_last2_app in H.
  rewrite !clip_index_in_range in H by lia.
  destruct (broadcastable_rev _ _); [| discriminate].
  injection H as <-. cbn [item]. rewrite Hidx.
  destruct ((y <=? r) && (r <? y + h) && (x <=? c) && (c <? x + w)) eqn:E;
    [| reflexivity].
  rewrite !andb_true_iff, !Z.leb_le, !Z.ltb_lt in E. lia.
Qed.

Lemma step_index_forward (len i : Z) : step_index len 1 i = i.
Proof. unfold step_index. simpl. lia. Qed.

Lemma step_index_backward (len i : Z) : step_index len (-1) i = len - 1 - i.
Proof. unfold step_index. simpl. lia. Qed.

(** The elements of a tile block after its transform. *)
Lemma slice_steps_item (a v : ndarray) (b batch : list Z) (s f rs cs r c : Z) :
  shape a = batch ++ [s; f] ->
  slice_steps a rs cs = Ok v ->
  item v (b ++ [r; c]) = item a (b ++ [step_index s rs r; step_index f cs c]).
Proof.
  intros Hs H. unfold slice_steps in H.
  rewrite Hs, last2_app in H.
  destruct ((rs =? 0) || (cs =? 0)); [discriminate |].
  injection H as <-. cbn [item].
  rewrite last2_app, drop_last2_app. reflexivity.
Qed.

Lemma swapaxes_item (a v : ndarray) (b batch : list Z) (s f r c : Z) :
  shape a = batch ++ [s; f] ->
  swapaxes a = Ok v ->
  shape v = batch ++ [f; s] /\ item v (b ++ [r; c]) = item a (b ++ [c; r]).
Proof.
  intros Hs H. unfold swapaxes in H.
  rewrite Hs, last2_app, drop_last2_app in H.
  injection H as <-. cbn [item shape].
  rewrite last2_app, drop_last2_app. auto.
Qed.

Lemma index_pair_eq (b : list Z) (r c r' c' : Z) :
  r = r' -> c = c' -> b ++ [r; c] = b ++ [r'; c'].
Proof. intros -> ->. reflexivity. Qed.

Ltac unit_cases :=
  repeat match goal with
         | H : Z.abs ?x = 1 |- _ =>
             let E := fresh "E" in
             assert (E : x = 1 \/ x = -1) by lia; clear H; destruct E; subst x
         end.

(** The cell of a pixel of a tile lies in the block of the tile. *)
Lemma pixel_cell_in_block (corner ss fs : zvec2) (ss_pixels fs_pixels i j : Z) :
  axis_permutation ss fs ->
  0 <= i < ss_pixels -> 0 <= j < fs_pixels ->
  in_block (GridGeometryFragment.init corner ss fs ss_pixels fs_pixels) (0, 0)
           (fst (pixel_cell corner ss fs i j))
           (snd (pixel_cell corner ss fs i j)).
Proof.
  intros Hperm Hi Hj.
  destruct corner as [cy cx], ss as [s1 s2], fs as [f1 f2].
  split_axis_cases Hperm; simpl in *; subst; unit_cases;
    unfold in_block, pixel_cell, GridGeometryFragment.init, z2add;
    cbn [fst snd corner_idx opp_corner_idx pixel_dims Z.eqb]; lia.
Qed.

(** The transform of a tile puts raw pixel [(i, j)] at the place of its cell
    in the block. *)
Lemma init_transform_item (corner ss fs : zvec2) (ss_pixels fs_pixels : Z)
    (a v : ndarray) (batch : list Z) :
  axis_permutation ss fs ->
  shape a = batch ++ [ss_pixels; fs_pixels] ->
  let g := GridGeometryFragment.init corner ss fs ss_pixels fs_pixels in
  apply_transform (transform g) a = Ok v ->
  shape v = batch ++ [fst (pixel_dims g); snd (pixel_dims g)]
  /\ forall (b : list Z) (i j : Z),
       item v (b ++ [fst (pixel_cell corner ss fs i j) - fst (corner_idx g);
                     snd (pixel_cell corner ss fs i j) - snd (corner_idx g)])
       = item a (b ++ [i; j]).
Proof.
  intros Hperm Hs g. subst g.
  destruct corner as [cy cx], ss as [s1 s2], fs as [f1 f2].
  unfold apply_transform.
  split_axis_cases Hperm; simpl in *; subst; unit_cases;
    unfold GridGeometryFragment.init, pixel_cell, z2add;
    cbn [fst snd corner_idx opp_corner_idx pixel_dims transform swap_axes
         row_step col_step Z.eqb];
    intros H.
  all: try (destruct (swapaxes a) as [sw |] eqn:Esw; [| discriminate];
            cbv beta iota delta [bind] in H;
            pose proof (fun b r c =>
                          swapaxes_item a sw b batch _ _ r c Hs Esw) as Hsw;
            pose proof (proj1 (Hsw [] 0 0)) as Hshape;
            match type of H with
            | slice_steps _ ?rs ?cs = _ =>
                destruct (slice_steps_ok sw batch _ _ rs cs Hshape
                            eq_refl eq_refl) as (v' & Ev' & Hv')
            end;
            rewrite Ev' in H; injection H as <-;
            split; [exact Hv' |];
            intros b i j;
            rewrite (slice_steps_item sw v' b batch _ _ _ _ _ _ Hshape Ev');
            rewrite (proj2 (Hsw b _ _));
            rewrite ?step_index_forward, ?step_index_backward;
            f_equal; apply index_pair_eq; lia).
  all: match type of H with
       | slice_steps _ ?rs ?cs = _ =>
           destruct (slice_steps_ok a batch _ _ rs cs Hs eq_refl eq_refl)
             as (v' & Ev' & Hv')
       end;
       rewrite Ev' in H; injection H as <-;
       split; [exact Hv' |];
       intros b i j;
       rewrite (slice_steps_item a v' b batch _ _ _ _ _ _ Hs Ev');
       rewrite ?step_index_forward, ?step_index_backward;
       f_equal; apply index_pair_eq; lia.
Qed.

Lemma init_transform_ok (corner ss fs : zvec2) (ss_pixels fs_pixels : Z)
    (a : ndarray) (batch : list Z) :
  axis_permutation ss fs ->
  shape a = batch ++ [ss_pixels; fs_pixels] ->
  exists v,
    apply_transform
      (transform (GridGeometryFragment.init corner ss fs ss_pixels fs_pixels)) a
    = Ok v.
Proof.
  intros Hperm Hs.
  destruct ss as [s1 s2], fs as [f1 f2].
  unfold apply_transform, GridGeometryFragment.init.
  split_axis_cases Hperm; simpl in *; subst.
  - assert (Hf : (f1 =? 0) = false) by (apply Z.eqb_neq; lia).
    rewrite Hf. cbn [transform swap_axes row_step col_step].
    assert (Hsw : exists sw, swapaxes a = Ok sw
                             /\ shape sw = batch ++ [fs_pixels; ss_pixels]).
    { unfold swapaxes. rewrite Hs, last2_app, drop_last2_app.
      eexists; split; reflexivity. }
    destruct Hsw as (sw & Esw & Hsw). rewrite Esw.
    cbv beta iota delta [bind].
    destruct (slice_steps_ok sw batch _ _ f1 s2 Hsw) as (v & Ev & _);
      [assumption | assumption | eexists; exact Ev].
  - cbn [Z.eqb transform swap_axes row_step col_step].
    destruct (slice_steps_ok a batch _ _ s1 f2 Hs) as (v & Ev & _);
      [assumption | assumption | eexists; exact Ev].
Qed.

(** Placing one tile: the call succeeds when the block fits the canvas,
    every raw pixel of the tile is then found at its cell, and every element
    outside the block is as before. *)
Lemma place_tile_pixels (corner ss fs centre : zvec2)
    (ss_pixels fs_pixels rows cols : Z) (tiles_data : list ndarray) (jt : nat)
    (a out : ndarray) (batch : list Z) :
  let g := GridGeometryFragment.init corner ss fs ss_pixels fs_pixels in
  axis_permutation ss fs -> 0 <= ss_pixels -> 0 <= fs_pixels ->
  nth_error tiles_data jt = Some a ->
  shape a = batch ++ [ss_pixels; fs_pixels] ->
  shape out = batch ++ [rows; cols] ->
  z2le (0, 0) (z2add (corner_idx g) centre) ->
  z2le (z2add (opp_corner_idx g) centre) (rows, cols) ->
  exists out',
    SnappedGeometry.place_tile centre tiles_data jt g out = Ok out'
    /\ shape out' = shape out
    /\ (forall (b : list Z) (i j : Z),
          index_in b batch -> 0 <= i < ss_pixels -> 0 <= j < fs_pixels ->
          item out' (b ++ [fst (pixel_cell corner ss fs i j) + fst centre;
                           snd (pixel_cell corner ss fs i j) + snd centre])
          = item a (b ++ [i; j]))
    /\ (forall (idx : list Z) (r c : Z),
          last2 idx = [r; c] -> ~ in_block g centre r c ->
          item out' idx = item out idx).
Proof.
  intros g Hperm Hss Hfs Ha Hsa Hso Lo Hi.
  unfold SnappedGeometry.place_tile.
  destruct (getitem_ok tiles_data jt) as (a' & E & Ha');
    [apply nth_error_Some; congruence |].
  assert (a' = a) by congruence. subst a'.
  rewrite E. cbv beta iota delta [bind].
  destruct (init_transform_ok corner ss fs ss_pixels fs_pixels a batch
              Hperm Hsa) as (v & Ev).
  fold g in Ev. rewrite Ev.
  destruct (init_transform_item corner ss fs ss_pixels fs_pixels a v batch
              Hperm Hsa Ev) as (Hv & Hitem).
  fold g in Hv, Hitem.
  assert (Hc : constructed g) by (constructor; assumption).
  destruct (constructed_corner_le_opp g Hc) as (Hopp & Hh & Hw & _).
  rewrite Hopp in Hi.
  destruct (corner_idx g) as [cy cx] eqn:Ec.
  destruct (pixel_dims g) as [h w] eqn:Ed.
  destruct centre as [ky kx].
  unfold z2le, z2add in Lo, Hi. cbn [fst snd] in *.
  destruct (assign_block_ok out v batch rows cols (cy + ky) h (cx + kx) w
              Hso Hv) as (out' & E' & Hs'); try lia.
  unfold z2add. cbn [fst snd]. rewrite E'.
  exists out'. split; [reflexivity | split; [exact Hs' | split]].
  - intros b i j Hb Hi' Hj'.
    pose proof (pixel_cell_in_block corner ss fs ss_pixels fs_pixels i j
                  Hperm Hi' Hj') as Hin.
    fold g in Hin. unfold in_block in Hin.
    rewrite Hopp, Ec in Hin. unfold z2add in Hin. cbn [fst snd] in Hin.
    rewrite (assign_block_inside out v out' b batch rows cols
               (cy + ky) h (cx + kx) w _ _ Hso Hv) by (assumption || lia).
    rewrite <- Hitem. f_equal. apply index_pair_eq; lia.
  - intros idx r c Hidx Hout.
    apply (assign_block_outside out v out' batch rows cols
             (cy + ky) h (cx + kx) w idx r c); try assumption; try lia.
    intros Hin. apply Hout. unfold in_block.
    rewrite Hopp, Ec. unfold z2add. cbn [fst snd]. lia.
Qed.

(** ** Loops with a step that matters *)

Lemma for_enumerate_preserves_in {A St : Type}
    (body : nat -> A -> St -> result St) (P : St -> Prop) (l : list A) :
  forall (start : nat) (s s' : St),
    (forall k a s0 s1, nth_error l k = Some a ->
                       body (start + k)%nat a s0 = Ok s1 -> P s0 -> P s1) ->
    for_enumerate body start l s = Ok s' -> P s -> P s'.
Proof.
  induction l as [| a l IH]; intros start s s' Hbody H Hs; simpl in H.
  - injection H as <-. exact Hs.
  - destruct (body start a s) as [s1 |] eqn:E; simpl in H; [| discriminate].
    apply (IH (S start) s1 s'); [| exact H |].
    + intros k a' s0 s2 Hk Hb. apply (Hbody (S k) a'); [exact Hk |].
      rewrite Nat.add_succ_r. exact Hb.
    + apply (Hbody 0%nat a s s1); [reflexivity | | exact Hs].
      rewrite Nat.add_0_r. exact E.
Qed.

(** If every step keeps [P], step [k] establishes [Q] and every other step
    keeps [Q], then [Q] holds after the loop. *)
Lemma for_enumerate_establish {A St : Type}
    (body : nat -> A -> St -> result St) (P Q : St -> Prop) (l : list A) :
  forall (k start : nat) (a : A) (s s' : St),
    nth_error l k = Some a ->
    (forall k' a' s0 s1, nth_error l k' = Some a' ->
                         body (start + k')%nat a' s0 = Ok s1 -> P s0 -> P s1) ->
    (forall s0 s1, body (start + k)%nat a s0 = Ok s1 -> P s0 -> Q s1) ->
    (forall k' a' s0 s1, k' <> k -> nth_error l k' = Some a' ->
                         body (start + k')%nat a' s0 = Ok s1 ->
                         P s0 -> Q s0 -> Q s1) ->
    for_enumerate body start l s = Ok s' -> P s -> Q s'.
Proof.
  induction l as [| x l IH]; intros k start a s s' Hk HP HK HQ H Hs.
  - destruct k; discriminate.
  - simpl in H.
    destruct (body start x s) as [s1 |] eqn:E; simpl in H; [| discriminate].
    assert (Hs1 : P s1).
    { apply (HP 0%nat x s s1); [reflexivity | | exact Hs].
      rewrite Nat.add_0_r. exact E. }
    destruct k as [| k].
    + injection Hk as ->.
      assert (Q1 : Q s1).
      { apply (HK s s1); [| exact Hs]. rewrite Nat.add_0_r. exact E. }
      assert (PQ : P s' /\ Q s'); [| exact (proj2 PQ)].
      apply (for_enumerate_preserves_in body (fun st => P st /\ Q st) l
               (S start) s1 s'); [| exact H | split; assumption].
      intros k' a' s0 s2 Hk' Hb [P0 Q0]. split.
      * apply (HP (S k') a' s0 s2); [exact Hk' | | exact P0].
        rewrite Nat.add_succ_r. exact Hb.
      * apply (HQ (S k') a' s0 s2); [discriminate | exact Hk' | | exact P0
                                     | exact Q0].
        rewrite Nat.add_succ_r. exact Hb.
    + apply (IH k (S start) a s1 s'); [exact Hk | | | | exact H | exact Hs1].
      * intros k' a' s0 s2 Hk' Hb. apply (HP (S k') a'); [exact Hk' |].
        rewrite Nat.add_succ_r. exact Hb.
      * intros s0 s2 Hb. apply HK. rewrite Nat.add_succ_r. exact Hb.
      * intros k' a' s0 s2 Hne Hk' Hb.
        apply (HQ (S k') a'); [congruence | exact Hk' |].
        rewrite Nat.add_succ_r. exact Hb.
Qed.

(** ** Fast assembly, element by element *)

Lemma in_block_shift (g : GridGeometryFragment) (centre : zvec2) (r c : Z) :
  in_block g centre (r + fst centre) (c + snd centre) <-> in_block g (0, 0) r c.
Proof. unfold in_block. simpl. lia. Qed.

(** A tile that has been placed leaves the elements outside its block as
    they were. *)
Lemma place_tile_outside (centre : zvec2) (tiles_data : list ndarray)
    (jt : nat) (g : GridGeometryFragment) (out out' : ndarray)
    (batch : list Z) (rows cols : Z) (idx : list Z) (r c : Z) :
  constructed g ->
  shape out = batch ++ [rows; cols] ->
  z2le (0, 0) (z2add (corner_idx g) centre) ->
  z2le (z2add (opp_corner_idx g) centre) (rows, cols) ->
  SnappedGeometry.place_tile centre tiles_data jt g out = Ok out' ->
  last2 idx = [r; c] -> ~ in_block g centre r c ->
  item out' idx = item out idx.
Proof.
  intros Hc Hso Lo Hi H Hidx Hout.
  unfold SnappedGeometry.place_tile in H.
  destruct (getitem tiles_data (Z.of_nat jt)) as [a |]; [| discriminate].
  cbv beta iota delta [bind] in H.
  destruct (constructed_corner_le_opp g Hc) as (Hopp & Hh & Hw & _).
  unfold in_block in Hout. rewrite Hopp in Hi, Hout.
  destruct (corner_idx g) as [cy cx].
  destruct (pixel_dims g) as [h w].
  destruct centre as [ky kx].
  unfold z2le, z2add in *. cbn [fst snd] in *.
  destruct (apply_transform (transform g) a) as [v |]; [| discriminate].
  apply (assign_block_outside out v out' batch rows cols
           (cy + ky) h (cx + kx) w idx r c); try assumption; try lia.
Qed.

Lemma place_tile_shape (centre : zvec2) (tiles_data : list ndarray) (jt : nat)
    (g : GridGeometryFragment) (out out' : ndarray) :
  SnappedGeometry.place_tile centre tiles_data jt g out = Ok out' ->
  shape out' = shape out.
Proof.
  unfold SnappedGeometry.place_tile. intros H.
  destruct (getitem tiles_data (Z.of_nat jt)); [| discriminate].
  cbv beta iota delta [bind] in H.
  destruct (z2add (corner_idx g) centre), (pixel_dims g).
  destruct (apply_transform (transform g) a); [| discriminate].
  exact (assign_block_shape _ _ _ _ _ _ _ H).
Qed.

(** What a successful call of fast assembly has done. *)
Lemma position_modules_inv (sg : SnappedGeometry) (data out : ndarray)
    (centre : zvec2) :
  SnappedGeometry.position_modules sg data = Ok (out, centre) ->
  exists size,
    SnappedGeometry._get_dimensions sg = Ok (size, centre)
    /\ last3 (shape data) = expected_data_shape (geom sg)
    /\ for_enumerate (SnappedGeometry.place_module sg data centre) 0
         (s_modules sg)
         (np_full (drop_last3 (shape data) ++ [fst size; snd size]) nan)
       = Ok out.
Proof.
  unfold SnappedGeometry.position_modules. intros H.
  destruct (list_Z_eqb _ _) eqn:El; [| discriminate].
  apply list_Z_eqb_eq in El.
  destruct (SnappedGeometry._get_dimensions sg) as [[size c] |];
    [| discriminate].
  cbv beta iota delta [bind] in H.
  destruct (for_enumerate _ _ _ _) as [o |] eqn:E; [| discriminate].
  injection H as <- <-.
  exists size. auto.
Qed.

Lemma get_dimensions_inv (sg : SnappedGeometry) (size centre : zvec2) :
  Forall constructed (tiles sg) ->
  SnappedGeometry._get_dimensions sg = Ok (size, centre) ->
  size = canvas_size sg /\ centre = centre_offset sg.
Proof.
  intros Hc H.
  assert (Hne : tiles sg <> []).
  { intros Et. unfold SnappedGeometry._get_dimensions in H.
    rewrite flat_map_modules in H. fold (tiles sg) in H. rewrite Et in H.
    discriminate. }
  rewrite (get_dimensions_value sg Hc Hne) in H.
  injection H as <- <-. auto.
Qed.

Lemma in_tiles (sg : SnappedGeometry) (m : list GridGeometryFragment)
    (g : GridGeometryFragment) :
  In m (s_modules sg) -> In g m -> In g (tiles sg).
Proof. intros Hm Hg. apply in_concat. exists m. auto. Qed.

(** X2. The loops of fast assembly never write a gap. Run on any array of
    the shape of the canvas, with any batch axes (the code runs them on
    the array that [np.full] has just allocated), they leave every element
    that lies in the placement rectangle of no tile as it was: a gap keeps
    the fill value of the allocation, which is nan for data of a float
    dtype. *)
Theorem gap_cells_keep_their_fill (sg : SnappedGeometry)
    (data out0 out : ndarray) (size centre : zvec2) (batch idx : list Z)
    (r c : Z) :
  Forall constructed (tiles sg) ->
  SnappedGeometry._get_dimensions sg = Ok (size, centre) ->
  shape out0 = batch ++ [fst size; snd size] ->
  for_enumerate (SnappedGeometry.place_module sg data centre) 0
    (s_modules sg) out0 = Ok out ->
  last2 idx = [r; c] ->
  (forall t, In t (tiles sg) -> ~ in_block t centre r c) ->
  item out idx = item out0 idx.
Proof.
  intros Hc Hdim Hshape Hloop Hidx Hfree.
  destruct (get_dimensions_inv sg size centre Hc Hdim) as [-> ->].
  assert (Hout : on_canvas sg batch out /\ item out idx = item out0 idx);
    [| exact (proj2 Hout)].
  refine (for_enumerate_preserves_in _
            (fun o => on_canvas sg batch o /\ item o idx = item out0 idx)
            _ _ _ _ _ Hloop _);
    [| split; [exact Hshape | reflexivity]].
  intros k m s0 s1 Hk Hstep [Hs0 Hn0].
  unfold SnappedGeometry.place_module in Hstep.
  destruct (select_module data _) as [md |]; [| discriminate].
  cbv beta iota delta [bind] in Hstep.
  destruct (split_tiles (geom sg) md) as [td |]; [| discriminate].
  refine (for_enumerate_preserves_in _
            (fun o => on_canvas sg batch o /\ item o idx = item out0 idx)
            _ _ _ _ _ Hstep _);
    [| split; assumption].
  intros j g o0 o1 Hj Hplace [Ho0 Hno0].
  assert (Hg : In g (tiles sg)).
  { eapply in_tiles; eapply nth_error_In; eassumption. }
  split.
  - unfold on_canvas. rewrite (place_tile_shape _ _ _ _ _ _ Hplace). exact Ho0.
  - rewrite <- Hno0.
    destruct (tile_inside_canvas sg g Hg) as [Lo Hi].
    rewrite Forall_forall in Hc.
    apply (place_tile_outside (centre_offset sg) td (0 + j) g o0 o1 batch
             (fst (canvas_size sg)) (snd (canvas_size sg)) idx r c);
      auto.
Qed.

(** ** The raw block of a tile *)

Lemma nth_error_range (n : Z) (k : nat) :
  nth_error (range n) k
  = if (k <? Z.to_nat n)%nat then Some (Z.of_nat k) else None.
Proof.
  unfold range. rewrite nth_error_map, nth_error_seq.
  destruct (k <? Z.to_nat n)%nat; reflexivity.
Qed.

Lemma select_module_item (data md : ndarray) (b : list Z) (i r c : Z) :
  select_module data i = Ok md ->
  item md (b ++ [r; c]) = item data (b ++ [i; r; c]).
Proof.
  unfold select_module. intros H.
  destruct (last3 (shape data)) as [| m [| s [| f [| ? ?]]]]; try discriminate.
  destruct (i <? m); [| discriminate].
  injection H as <-. cbn [item].
  rewrite last2_app, drop_last2_app. reflexivity.
Qed.

Lemma split_rows_item (a part : ndarray) (batch : list Z) (s f k : Z)
    (parts : list ndarray) (n : nat) :
  shape a = batch ++ [s; f] ->
  split_rows a k = Ok parts -> nth_error parts n = Some part ->
  forall (b : list Z) (r c : Z),
    item part (b ++ [r; c]) = item a (b ++ [Z.of_nat n * (s / k) + r; c]).
Proof.
  intros Hs H Hn b r c. unfold split_rows in H.
  rewrite Hs, last2_app in H.
  destruct (s mod k =? 0); [| discriminate].
  injection H as <-.
  rewrite nth_error_map, nth_error_range in Hn.
  destruct (n <? Z.to_nat k)%nat; [| discriminate].
  injection Hn as <-. cbn [item].
  rewrite last2_app, drop_last2_app. reflexivity.
Qed.

Lemma split_cols_item (a part : ndarray) (batch : list Z) (s f k : Z)
    (parts : list ndarray) (n : nat) :
  shape a = batch ++ [s; f] ->
  split_cols a k = Ok parts -> nth_error parts n = Some part ->
  forall (b : list Z) (r c : Z),
    item part (b ++ [r; c]) = item a (b ++ [r; Z.of_nat n * (f / k) + c]).
Proof.
  intros Hs H Hn b r c. unfold split_cols in H.
  replace (batch ++ [s; f]) with ((batch ++ [s]) ++ [f]) in Hs
    by (rewrite <- app_assoc; reflexivity).
  rewrite Hs, rev_app_distr in H. cbn [rev app] in H.
  destruct (f mod k =? 0); [| discriminate].
  injection H as <-.
  rewrite nth_error_map, nth_error_range in Hn.
  destruct (n <? Z.to_nat k)%nat; [| discriminate].
  injection Hn as <-. cbn [item].
  replace (b ++ [r; c]) with ((b ++ [r]) ++ [c])
    by (rewrite <- app_assoc; reflexivity).
  rewrite rev_app_distr. cbn [rev app].
  rewrite rev_involutive, <- app_assoc. reflexivity.
Qed.

(** The tile blocks that [split_tiles] makes are the parts of the module
    block that [raw_position] names. *)
Lemma split_tiles_item (c : detector_class) (md a : ndarray) (batch : list Z)
    (s f : Z) (tiles_data : list ndarray) (tj : nat) :
  expected_data_shape c = [16; s; f] ->
  shape md = batch ++ [s; f] ->
  split_tiles c md = Ok tiles_data -> nth_error tiles_data tj = Some a ->
  forall (b : list Z) (i j : Z),
    item a (b ++ [i; j])
    = item md (b ++ [fst (raw_position c (Z.of_nat tj) i j);
                     snd (raw_position c (Z.of_nat tj) i j)]).
Proof.
  intros Hexp Hs H Hn b i j.
  destruct c; [discriminate | |]; injection Hexp as <- <-.
  - rewrite (split_rows_item md a batch 512 128 8 tiles_data tj Hs H Hn).
    reflexivity.
  - unfold split_tiles, LPD_1MGeometry.split_tiles in H.
    destruct (split_cols_ok md (batch ++ [256]) 256 2) as (halves & Eh & Lh & Fh);
      [rewrite <- app_assoc; exact Hs | reflexivity |].
    rewrite Eh in H. cbv beta iota delta [bind] in H.
    destruct halves as [| lhs [| rhs [| ? ?]]]; try discriminate.
    inversion Fh as [| ? ? Hlhs Fh']; subst.
    inversion Fh' as [| ? ? Hrhs _]; subst.
    rewrite <- app_assoc in Hlhs, Hrhs. cbn [app] in Hlhs, Hrhs.
    change (256 / 2) with 128 in Hlhs, Hrhs.
    pose proof (split_cols_item md lhs batch 256 256 2 [lhs; rhs] 0 Hs Eh
                  eq_refl) as Il.
    pose proof (split_cols_item md rhs batch 256 256 2 [lhs; rhs] 1 Hs Eh
                  eq_refl) as Ir.
    destruct (split_rows_ok lhs batch 256 128 8 Hlhs eq_refl)
      as (l & El & Ll & _).
    destruct (split_rows_ok rhs batch 256 128 8 Hrhs eq_refl)
      as (r & Er & Lr & _).
    rewrite El, Er in H. cbv beta iota delta [bind] in H.
    injection H as <-.
    unfold raw_position.
    destruct (Z.of_nat tj <? 8) eqn:E8.
    + apply Z.ltb_lt in E8.
      rewrite nth_error_app1 in Hn by (rewrite length_rev, Ll; change (Z.to_nat 8) with 8%nat; lia).
      rewrite nth_error_rev, Ll in Hn.
      destruct (tj <? Z.to_nat 8)%nat eqn:Et; [| discriminate].
      rewrite (split_rows_item lhs a batch 256 128 8 l _ Hlhs El Hn).
      rewrite Il. cbn [fst snd]. f_equal. apply index_pair_eq; [| lia].
      change (256 / 8) with 32. change (Z.to_nat 8) with 8%nat. lia.
    + apply Z.ltb_ge in E8.
      rewrite nth_error_app2 in Hn by (rewrite length_rev, Ll; change (Z.to_nat 8) with 8%nat; lia).
      rewrite length_rev, Ll in Hn.
      rewrite (split_rows_item rhs a batch 256 128 8 r _ Hrhs Er Hn).
      rewrite Ir. cbn [fst snd]. f_equal.
      change (256 / 8) with 32. change (256 / 2) with 128.
      change (Z.to_nat 8) with 8%nat. change (Z.of_nat 1) with 1.
      apply index_pair_eq; lia.
Qed.

(** X3. Fast assembly puts every raw pixel at its cell. For the snapped layout
    of a detector whose tiles share no cell, and data of the raw shape with
    any batch axes: the assembled array holds, at the cell of pixel
    [(i, j)] of tile [tj] of module [m] moved by the centre offset, the
    element of the data that the tile split reads that pixel from. *)
Theorem fast_assembly_places_pixels (c : detector_class) (sg : SnappedGeometry)
    (data : ndarray) (batch b : list Z) (m tj : nat)
    (corner ss fs : zvec2) (i j : Z) :
  c <> Base -> detector_layout c sg -> tiles_disjoint sg ->
  shape data = batch ++ expected_data_shape c ->
  tile_at sg m tj
  = Some (GridGeometryFragment.init corner ss fs
            (frag_ss_pixels c) (frag_fs_pixels c)) ->
  axis_permutation ss fs ->
  index_in b batch -> 0 <= i < frag_ss_pixels c -> 0 <= j < frag_fs_pixels c ->
  exists out,
    SnappedGeometry.position_modules sg data = Ok (out, centre_offset sg)
    /\ item out (b ++ [fst (pixel_cell corner ss fs i j)
                       + fst (centre_offset sg);
                       snd (pixel_cell corner ss fs i j)
                       + snd (centre_offset sg)])
       = item data (b ++ [Z.of_nat m;
                          fst (raw_position c (Z.of_nat tj) i j);
                          snd (raw_position c (Z.of_nat tj) i j)]).
Proof.
  intros Hc Hl Hdis Hdata Htile Hperm Hb Hi Hj.
  destruct (position_modules_ok c sg Hc Hl batch data Hdata)
    as (out & Hpm & _).
  exists out. split; [exact Hpm |].
  destruct (position_modules_inv sg data out _ Hpm)
    as (size & Hdim & _ & Hloop).
  rewrite (layout_dimensions c sg Hc Hl) in Hdim.
  injection Hdim as <-.
  destruct (expected_data_shape_frag c Hc) as (s & f & Hexp & Hsplit).
  assert (Hd : drop_last3 (shape data) = batch)
    by (rewrite Hdata, Hexp; apply drop_last3_app).
  rewrite Hd in Hloop.
  pose proof (layout_constructed c sg Hc Hl) as Hcons.
  rewrite Forall_forall in Hcons.
  set (g := GridGeometryFragment.init corner ss fs
              (frag_ss_pixels c) (frag_fs_pixels c)) in *.
  set (cell := pixel_cell corner ss fs i j) in *.
  assert (Hcell : in_block g (0, 0) (fst cell) (snd cell))
    by (apply pixel_cell_in_block; assumption).
  unfold tile_at in Htile.
  destruct (nth_error (s_modules sg) m) as [module |] eqn:Em;
    [| discriminate].
  (* a tile other than the one at (m, tj) leaves the cell alone *)
  assert (Hother :
            forall m' tj' module' g' td o0 o1,
              nth_error (s_modules sg) m' = Some module' ->
              nth_error module' tj' = Some g' ->
              (m, tj) <> (m', tj') ->
              on_canvas sg batch o0 ->
              SnappedGeometry.place_tile (centre_offset sg) td tj' g' o0
              = Ok o1 ->
              item o1 (b ++ [fst cell + fst (centre_offset sg);
                             snd cell + snd (centre_offset sg)])
              = item o0 (b ++ [fst cell + fst (centre_offset sg);
                               snd cell + snd (centre_offset sg)])).
  { intros m' tj' module' g' td o0 o1 Hm' Hg' Hne Ho0 Hplace.
    assert (Hin : In g' (tiles sg)).
    { eapply in_tiles; eapply nth_error_In; eassumption. }
    destruct (tile_inside_canvas sg g' Hin) as [Lo Hi'].
    eapply (place_tile_outside (centre_offset sg) td tj' g' o0 o1 batch);
      [exact (Hcons g' Hin) | exact Ho0 | exact Lo | exact Hi' | exact Hplace
       | apply last2_app |].
    rewrite in_block_shift. intros Hin'.
    apply (Hdis m tj m' tj' g g' (fst cell) (snd cell)); auto.
    - unfold tile_at. rewrite Em. exact Htile.
    - unfold tile_at. rewrite Hm'. exact Hg'. }
  refine (for_enumerate_establish _ (on_canvas sg batch)
            (fun o => item o (b ++ [fst cell + fst (centre_offset sg);
                                    snd cell + snd (centre_offset sg)])
                      = item data
                          (b ++ [Z.of_nat m;
                                 fst (raw_position c (Z.of_nat tj) i j);
                                 snd (raw_position c (Z.of_nat tj) i j)]))
            _ m 0%nat module _ _ Em _ _ _ Hloop _).
  - intros k' a' s0 s1 _ Hstep Hs0.
    unfold on_canvas. rewrite (place_module_shape _ _ _ _ _ _ _ Hstep).
    exact Hs0.
  - intros s0 s1 Hstep Hs0. cbn [Nat.add] in Hstep.
    unfold SnappedGeometry.place_module in Hstep.
    destruct (select_module data (Z.of_nat m)) as [md |] eqn:Emd;
      [| discriminate].
    cbv beta iota delta [bind] in Hstep.
    assert (Hmd : shape md = batch ++ [s; f]).
    { destruct (select_module_ok data batch 16 s f (Z.of_nat m))
        as (md' & E' & Hs'); [rewrite Hdata, Hexp; reflexivity | | congruence].
      assert (L : (m < length (s_modules sg))%nat)
        by (apply nth_error_Some; congruence).
      destruct Hl as (_ & Hn & _). rewrite Hn in L.
      unfold module_count in L. rewrite Hexp in L. simpl in L. lia. }
    assert (Hg : geom sg = c) by apply Hl. rewrite Hg in Hstep.
    destruct (Hsplit md batch Hmd) as (td & Etd & Ltd & Ftd).
    rewrite Etd in Hstep.
    assert (Ltile : (tj < tiles_per_module c)%nat).
    { destruct Hl as (_ & _ & Hall). rewrite Forall_forall in Hall.
      destruct (Hall module (nth_error_In _ _ Em)) as [Lm _].
      rewrite <- Lm. apply nth_error_Some. congruence. }
    destruct (nth_error td tj) as [a |] eqn:Ea;
      [| apply nth_error_None in Ea; lia].
    assert (Hsa : shape a
                  = batch ++ [frag_ss_pixels c; frag_fs_pixels c]).
    { rewrite Forall_forall in Ftd. apply Ftd. eapply nth_error_In, Ea. }
    refine (for_enumerate_establish _ (on_canvas sg batch)
              (fun o => item o (b ++ [fst cell + fst (centre_offset sg);
                                    snd cell + snd (centre_offset sg)])
                      = item data
                          (b ++ [Z.of_nat m;
                                 fst (raw_position c (Z.of_nat tj) i j);
                                 snd (raw_position c (Z.of_nat tj) i j)]))
              _ tj 0%nat g _ _ Htile _ _ _ Hstep Hs0).
    + intros k' g' o0 o1 _ Hplace Ho0.
      unfold on_canvas. rewrite (place_tile_shape _ _ _ _ _ _ Hplace).
      exact Ho0.
    + intros o0 o1 Hplace Ho0. cbn [Nat.add] in Hplace.
      assert (Hin : In g (tiles sg)).
      { eapply in_tiles; eapply nth_error_In; eassumption. }
      destruct (tile_inside_canvas sg g Hin) as [Lo Hi'].
      destruct (frag_pixels_positive c sg Hc Hl) as [Ps Pf].
      destruct (place_tile_pixels corner ss fs (centre_offset sg)
                  (frag_ss_pixels c) (frag_fs_pixels c)
                  (fst (canvas_size sg)) (snd (canvas_size sg))
                  td tj a o0 batch Hperm)
        as (o1' & E1 & _ & Hpix & _); try assumption; try lia.
      fold g in E1. rewrite Hplace in E1. injection E1 as E1. subst o1'.
      transitivity (item a (b ++ [i; j]));
        [exact (Hpix b i j Hb Hi Hj) |].
      rewrite (split_tiles_item c md a batch s f td tj Hexp Hmd Etd Ea).
      apply (select_module_item data md b _ _ _ Emd).
    + intros k' g' o0 o1 Hne Hk' Hplace Ho0 Hq. cbn [Nat.add] in Hplace.
      rewrite <- Hq.
      apply (Hother m k' module g' td o0 o1); auto. congruence.
  - intros k' module' s0 s1 Hne Hk' Hstep Hs0 Hq. cbn [Nat.add] in Hstep.
    unfold SnappedGeometry.place_module in Hstep.
    destruct (select_module data (Z.of_nat k')) as [md |]; [| discriminate].
    cbv beta iota delta [bind] in Hstep.
    destruct (split_tiles (geom sg) md) as [td |]; [| discriminate].
    assert (PQ : on_canvas sg batch s1
                 /\ item s1 (b ++ [fst cell + fst (centre_offset sg);
                                   snd cell + snd (centre_offset sg)])
                    = item data
                        (b ++ [Z.of_nat m;
                               fst (raw_position c (Z.of_nat tj) i j);
                               snd (raw_position c (Z.of_nat tj) i j)]));
      [| exact (proj2 PQ)].
    refine (for_enumerate_preserves_in _
              (fun o => on_canvas sg batch o
                        /\ item o (b ++ [fst cell + fst (centre_offset sg);
                                         snd cell + snd (centre_offset sg)])
                           = item data
                               (b ++ [Z.of_nat m;
                                      fst (raw_position c (Z.of_nat tj) i j);
                                      snd (raw_position c (Z.of_nat tj) i j)]))
              _ _ _ _ _ Hstep (conj Hs0 Hq)).
    intros j' g' o0 o1 Hj' Hplace [Ho0 Hq0]. cbn [Nat.add] in Hplace.
    split.
    + unfold on_canvas. rewrite (place_tile_shape _ _ _ _ _ _ Hplace).
      exact Ho0.
    + rewrite <- Hq0.
      apply (Hother k' j' module' g' td o0 o1); auto. congruence.
  - reflexivity.
Qed.

(** ** Checking that tiles are disjoint *)

Lemma enumerate_In {A : Type} (l : list A) :
  forall (start k : nat) (a : A),
    nth_error l k = Some a -> In ((start + k)%nat, a) (enumerate start l).
Proof.
  unfold enumerate.
  induction l as [| x l IH]; intros start k a Hk.
  - destruct k; discriminate.
  - destruct k as [| k]; simpl in *.
    + injection Hk as ->. left. f_equal. lia.
    + right. rewrite Nat.add_succ_r. apply (IH (S start) k a Hk).
Qed.

Lemma positioned_tiles_In (sg : SnappedGeometry) (m tj : nat)
    (g : GridGeometryFragment) :
  tile_at sg m tj = Some g -> In (m, tj, g) (positioned_tiles sg).
Proof.
  unfold tile_at, positioned_tiles. intros H.
  destruct (nth_error (s_modules sg) m) as [module |] eqn:Em;
    [| discriminate].
  apply in_flat_map. exists (m, module). split.
  - exact (enumerate_In (s_modules sg) 0 m module Em).
  - apply in_map_iff. exists (tj, g). split; [reflexivity |].
    exact (enumerate_In module 0 tj g H).
Qed.

Lemma tiles_disjointb_sound (sg : SnappedGeometry) :
  tiles_disjointb sg = true -> tiles_disjoint sg.
Proof.
  unfold tiles_disjointb, tiles_disjoint.
  intros H m tj m' tj' g g' r c Hg Hg' Hne [B B'].
  rewrite forallb_forall in H.
  specialize (H _ (positioned_tiles_In sg m tj g Hg)).
  rewrite forallb_forall in H.
  specialize (H _ (positioned_tiles_In sg m' tj' g' Hg')).
  cbn [fst snd] in H.
  apply orb_true_iff in H. destruct H as [H | H].
  - apply andb_true_iff in H. rewrite !Nat.eqb_eq in H.
    destruct H; subst. congruence.
  - apply negb_true_iff in H. unfold blocks_overlapb in H.
    unfold in_block in B, B'. cbn [fst snd] in B, B'.
    rewrite !andb_false_iff, !Z.ltb_ge in H. lia.
Qed.

Lemma sample_tiles_disjoint : tiles_disjoint sample_snapped.
Proof. apply tiles_disjointb_sound. vm_compute. reflexivity. Qed.

Lemma gap_cells_keep_their_fill_witness :
  exists out,
    for_enumerate
      (SnappedGeometry.place_module sample_snapped sample_frames (631, 550))
      0 (s_modules sample_snapped) (np_full [2; 1256; 1092] (Some 0%Q))
    = Ok out
    /\ item out [1; 1128; 24] = Some 0%Q.
Proof.
  destruct (for_enumerate_ok
              (SnappedGeometry.place_module sample_snapped sample_frames
                 (631, 550))
              (on_canvas sample_snapped [2]) (s_modules sample_snapped)
              0%nat (np_full [2; 1256; 1092] (Some 0%Q)))
    as (out & E & _).
  - intros k m s Hk Hs. cbn [Nat.add].
    change (631, 550) with (centre_offset sample_snapped).
    apply (place_module_ok AGIPD_1M sample_snapped AGIPD_not_base
             sample_snapped_layout [2] sample_frames k m s).
    + reflexivity.
    + destruct sample_snapped_layout as (_ & <- & _).
      apply nth_error_Some. congruence.
    + eapply nth_error_In. exact Hk.
    + exact Hs.
  - reflexivity.
  - exists out. split; [exact E |].
    apply (gap_cells_keep_their_fill sample_snapped sample_frames
             (np_full [2; 1256; 1092] (Some 0%Q)) out (1256, 1092) (631, 550)
             [2] [1; 1128; 24] 1128 24).
    + exact (layout_constructed _ _ AGIPD_not_base sample_snapped_layout).
    + vm_compute. reflexivity.
    + reflexivity.
    + exact E.
    + reflexivity.
    + apply Forall_forall.
      let l := eval vm_compute in (tiles sample_snapped) in
      change (tiles sample_snapped) with l.
      repeat (apply Forall_cons;
              [unfold in_block; cbn [fst snd corner_idx opp_corner_idx]; lia |]).
      apply Forall_nil.
Defined.

Lemma fast_assembly_places_pixels_witness :
  exists out,
    SnappedGeometry.position_modules sample_snapped sample_frames
    = Ok (out, centre_offset sample_snapped)
    /\ item out ([1] ++ [fst (pixel_cell (625, -525) (0, 1) (-1, 0) 0 0)
                         + fst (centre_offset sample_snapped);
                         snd (pixel_cell (625, -525) (0, 1) (-1, 0) 0 0)
                         + snd (centre_offset sample_snapped)])
       = item sample_frames
           ([1] ++ [Z.of_nat 0;
                    fst (raw_position AGIPD_1M (Z.of_nat 0) 0 0);
                    snd (raw_position AGIPD_1M (Z.of_nat 0) 0 0)]).
Proof.
  apply (fast_assembly_places_pixels AGIPD_1M sample_snapped sample_frames
           [2] [1] 0 0 (625, -525) (0, 1) (-1, 0) 0 0).
  - exact AGIPD_not_base.
  - exact sample_snapped_layout.
  - exact sample_tiles_disjoint.
  - reflexivity.
  - vm_compute. reflexivity.
  - apply is_canonical_pair_spec. reflexivity.
  - constructor; [lia | constructor].
  - unfold frag_ss_pixels, AGIPD_1MGeometry.frag_ss_pixels. lia.
  - unfold frag_fs_pixels, AGIPD_1MGeometry.frag_fs_pixels. lia.
Defined.

(** X4. The transform of a snapped tile orients its raw block: applied to an
    array whose last two axes are the extents of the tile, it returns an
    array whose last two axes are [pixel_dims], with as many pixels, in
    which raw pixel [(i, j)] stands at the place of its cell in the
    placement rectangle. *)
Theorem snapped_transform_orients_block (t : GeometryFragment)
    (g : GridGeometryFragment) (a : ndarray) (batch : list Z) :
  GeometryFragment.snap t = Ok g ->
  shape a = batch ++ [ss_pixels t; fs_pixels t] ->
  exists v,
    apply_transform (transform g) a = Ok v
    /\ shape v = batch ++ [fst (pixel_dims g); snd (pixel_dims g)]
    /\ fst (pixel_dims g) * snd (pixel_dims g) = ss_pixels t * fs_pixels t
    /\ forall (b : list Z) (i j : Z),
         let cell := pixel_cell (rev2 (GeometryFragment.rounded_corner t))
                                (rev2 (GeometryFragment.rounded_ss t))
                                (rev2 (GeometryFragment.rounded_fs t)) i j in
         item v (b ++ [fst cell - fst (corner_idx g);
                       snd cell - snd (corner_idx g)])
         = item a (b ++ [i; j]).
Proof.
  intros Hsnap Hs.
  unfold GeometryFragment.snap in Hsnap.
  destruct (is_canonical_pair _ _) eqn:E; [| discriminate].
  apply is_canonical_pair_spec in E.
  fold (axis_permutation (GeometryFragment.rounded_ss t)
                         (GeometryFragment.rounded_fs t)) in E.
  apply axis_permutation_rev2 in E.
  injection Hsnap as <-.
  destruct (init_transform_ok (rev2 (GeometryFragment.rounded_corner t))
              _ _ _ _ a batch E Hs) as (v & Ev).
  destruct (init_transform_item (rev2 (GeometryFragment.rounded_corner t))
              _ _ _ _ a v batch E Hs Ev) as (Hv & Hitem).
  exists v. split; [exact Ev | split; [exact Hv | split; [| exact Hitem]]].
  unfold GridGeometryFragment.init.
  destruct (fst (rev2 (GeometryFragment.rounded_fs t)) =? 0); simpl; lia.
Qed.

Lemma snapped_transform_orients_block_witness :
  exists v,
    apply_transform
      (transform (GridGeometryFragment.init (-160, 520) (0, -1) (1, 0) 64 128))
      (NdArray [3; 64; 128] (fun _ => Some 1%Q))
    = Ok v
    /\ shape v = [3] ++ [128; 64]
    /\ 128 * 64 = 64 * 128
    /\ forall (b : list Z) (i j : Z),
         let cell := pixel_cell (-160, 520) (0, -1) (1, 0) i j in
         item v (b ++ [fst cell - -160; snd cell - 456])
         = item (NdArray [3; 64; 128] (fun _ => Some 1%Q)) (b ++ [i; j]).
Proof.
  apply (snapped_transform_orients_block sample_tile
           (GridGeometryFragment.init (-160, 520) (0, -1) (1, 0) 64 128)
           (NdArray [3; 64; 128] (fun _ => Some 1%Q)) [3]).
  - reflexivity.
  - reflexivity.
Defined.


(** ** The canvas *)

Lemma fold_z2min_attained (l : list zvec2) (acc : zvec2) :
  (exists x, In x (acc :: l) /\ fst x = fst (fold_left z2min l acc))
  /\ (exists x, In x (acc :: l) /\ snd x = snd (fold_left z2min l acc)).
Proof.
  revert acc; induction l as [| y l IH]; intros acc; simpl.
  - split; exists acc; auto.
  - destruct (IH (z2min acc y)) as [(x1 & H1 & E1) (x2 & H2 & E2)].
    split.
    + destruct H1 as [<- | H1]; [| exists x1; auto].
      unfold z2min in E1 |- *; simpl in *.
      destruct (Z.min_spec (fst acc) (fst y)) as [[_ E] | [_ E]].
      * exists acc. split; [auto | congruence].
      * exists y. split; [auto | congruence].
    + destruct H2 as [<- | H2]; [| exists x2; auto].
      unfold z2min in E2 |- *; simpl in *.
      destruct (Z.min_spec (snd acc) (snd y)) as [[_ E] | [_ E]].
      * exists acc. split; [auto | congruence].
      * exists y. split; [auto | congruence].
Qed.

Lemma fold_z2max_attained (l : list zvec2) (acc : zvec2) :
  (exists x, In x (acc :: l) /\ fst x = fst (fold_left z2max l acc))
  /\ (exists x, In x (acc :: l) /\ snd x = snd (fold_left z2max l acc)).
Proof.
  revert acc; induction l as [| y l IH]; intros acc; simpl.
  - split; exists acc; auto.
  - destruct (IH (z2max acc y)) as [(x1 & H1 & E1) (x2 & H2 & E2)].
    split.
    + destruct H1 as [<- | H1]; [| exists x1; auto].
      unfold z2max in E1 |- *; simpl in *.
      destruct (Z.max_spec (fst acc) (fst y)) as [[_ E] | [_ E]].
      * exists y. split; [auto | congruence].
      * exists acc. split; [auto | congruence].
    + destruct H2 as [<- | H2]; [| exists x2; auto].
      unfold z2max in E2 |- *; simpl in *.
      destruct (Z.max_spec (snd acc) (snd y)) as [[_ E] | [_ E]].
      * exists y. split; [auto | congruence].
      * exists acc. split; [auto | congruence].
Qed.

(** X5. The canvas of fast assembly is tight: on each of its four sides some
    tile's placement rectangle, moved by the centre offset, touches the
    border, at row 0, at column 0, at the last row and at the last
    column. *)
Theorem canvas_is_tight (sg : SnappedGeometry) (size centre : zvec2) :
  Forall constructed (tiles sg) ->
  SnappedGeometry._get_dimensions sg = Ok (size, centre) ->
  (exists t, In t (tiles sg) /\ fst (corner_idx t) + fst centre = 0)
  /\ (exists t, In t (tiles sg) /\ snd (corner_idx t) + snd centre = 0)
  /\ (exists t, In t (tiles sg)
                /\ fst (opp_corner_idx t) + fst centre = fst size)
  /\ (exists t, In t (tiles sg)
                /\ snd (opp_corner_idx t) + snd centre = snd size).
Proof.
  intros Hc Hdim.
  destruct (get_dimensions_inv sg size centre Hc Hdim) as [-> ->].
  unfold canvas_size, centre_offset, min_corner_idx, max_opp_corner_idx.
  assert (Hne : tiles sg <> []).
  { intros E. unfold SnappedGeometry._get_dimensions in Hdim.
    rewrite flat_map_modules in Hdim. fold (tiles sg) in Hdim.
    rewrite E in Hdim. discriminate. }
  destruct (tiles sg) as [| t ts]; [congruence |].
  cbn [map z2min_list z2max_list].
  destruct (fold_z2min_attained (map corner_idx ts) (corner_idx t))
    as [(x1 & H1 & E1) (x2 & H2 & E2)].
  destruct (fold_z2max_attained (map opp_corner_idx ts) (opp_corner_idx t))
    as [(x3 & H3 & E3) (x4 & H4 & E4)].
  change (corner_idx t :: map corner_idx ts)
    with (map corner_idx (t :: ts)) in H1, H2.
  change (opp_corner_idx t :: map opp_corner_idx ts)
    with (map opp_corner_idx (t :: ts)) in H3, H4.
  apply in_map_iff in H1, H2, H3, H4.
  destruct H1 as (t1 & <- & I1), H2 as (t2 & <- & I2),
           H3 as (t3 & <- & I3), H4 as (t4 & <- & I4).
  unfold z2neg, z2sub; cbn [fst snd].
  repeat split; [exists t1 | exists t2 | exists t3 | exists t4];
    (split; [assumption | lia]).
Qed.

(** X6. A snapped geometry without tiles has no canvas: [_get_dimensions]
    raises [ValueError] exactly when there is no tile, and so does fast
    assembly on data that passes the shape check. *)
Theorem get_dimensions_fails_iff_no_tiles (sg : SnappedGeometry) :
  (SnappedGeometry._get_dimensions sg = Raise ValueError <-> tiles sg = [])
  /\ ((exists size centre,
         SnappedGeometry._get_dimensions sg = Ok (size, centre))
      <-> tiles sg <> [])
  /\ forall data,
       tiles sg = [] ->
       last3 (shape data) = expected_data_shape (geom sg) ->
       SnappedGeometry.position_modules sg data = Raise ValueError.
Proof.
  assert (Hempty : tiles sg = [] ->
                   SnappedGeometry._get_dimensions sg = Raise ValueError).
  { intros E. unfold SnappedGeometry._get_dimensions.
    rewrite flat_map_modules. fold (tiles sg). rewrite E. reflexivity. }
  assert (Hsome : tiles sg <> [] ->
                  exists size centre,
                    SnappedGeometry._get_dimensions sg = Ok (size, centre)).
  { intros N. unfold SnappedGeometry._get_dimensions.
    rewrite flat_map_modules. fold (tiles sg).
    destruct (tiles sg) as [| t ts]; [congruence |].
    simpl. eexists; eexists; reflexivity. }
  split; [| split].
  - split; [| exact Hempty].
    intros H. destruct (tiles sg) as [| t ts] eqn:E; [reflexivity |].
    destruct Hsome as (size & centre & E'); [congruence |].
    rewrite E' in H. discriminate.
  - split; [| exact Hsome].
    intros (size & centre & H) E. rewrite (Hempty E) in H. discriminate.
  - intros data E Hshape. unfold SnappedGeometry.position_modules.
    apply list_Z_eqb_eq in Hshape. rewrite Hshape, (Hempty E). reflexivity.
Qed.

Lemma canvas_is_tight_witness :
  (exists t, In t (tiles sample_snapped) /\ fst (corner_idx t) + 631 = 0)
  /\ (exists t, In t (tiles sample_snapped) /\ snd (corner_idx t) + 550 = 0)
  /\ (exists t, In t (tiles sample_snapped)
                /\ fst (opp_corner_idx t) + 631 = 1256)
  /\ (exists t, In t (tiles sample_snapped)
                /\ snd (opp_corner_idx t) + 550 = 1092).
Proof.
  apply (canvas_is_tight sample_snapped (1256, 1092) (631, 550)).
  - exact (layout_constructed _ _ AGIPD_not_base sample_snapped_layout).
  - vm_compute. reflexivity.
Defined.

(** ** The canvas of the interpolating assembler *)

(** Truncation moves a number by less than one. *)
Lemma trunc_close (q : Q) :
  (q - 1 < inject_Z (trunc q) /\ inject_Z (trunc q) < q + 1)%Q.
Proof.
  destruct q as [a b]. unfold trunc, Qlt, Qminus, Qplus, Qopp, inject_Z.
  cbn [Qnum Qden].
  pose proof (Z.quot_rem' a (Zpos b)) as E.
  pose proof (Z.rem_bound_abs a (Zpos b)) as B.
  assert (Hb : Z.abs (Z.rem a (Zpos b)) < Zpos b)
    by (rewrite <- (Z.abs_eq (Zpos b)) at 2 by lia; apply B; lia).
  set (q := Z.quot a (Zpos b)) in *. set (r := Z.rem a (Zpos b)) in *.
  clearbody q r. rewrite !Pos.mul_1_r. clear B. nia.
Qed.

Lemma fold_qvec2_min_lower (l : list qvec2) (acc : qvec2) :
  ((fst (fold_left qvec2_min l acc) <= fst acc)%Q
   /\ (snd (fold_left qvec2_min l acc) <= snd acc)%Q)
  /\ forall x, In x l ->
               (fst (fold_left qvec2_min l acc) <= fst x)%Q
               /\ (snd (fold_left qvec2_min l acc) <= snd x)%Q.
Proof.
  revert acc; induction l as [| y l IH]; intros acc; simpl.
  - split; [split; apply Qle_refl | intros x []].
  - destruct (IH (qvec2_min acc y)) as [[A1 A2] Hl].
    remember (fold_left qvec2_min l (qvec2_min acc y)) as m eqn:Em.
    clear Em IH.
    unfold qvec2_min in A1, A2; cbn [fst snd] in A1, A2.
    pose proof (Q.le_min_l (fst acc) (fst y)).
    pose proof (Q.le_min_r (fst acc) (fst y)).
    pose proof (Q.le_min_l (snd acc) (snd y)).
    pose proof (Q.le_min_r (snd acc) (snd y)).
    split; [split; lra |].
    intros x [<- | Hx]; [split; lra | auto].
Qed.

Lemma fold_qvec2_max_upper (l : list qvec2) (acc : qvec2) :
  ((fst acc <= fst (fold_left qvec2_max l acc))%Q
   /\ (snd acc <= snd (fold_left qvec2_max l acc))%Q)
  /\ forall x, In x l ->
               (fst x <= fst (fold_left qvec2_max l acc))%Q
               /\ (snd x <= snd (fold_left qvec2_max l acc))%Q.
Proof.
  revert acc; induction l as [| y l IH]; intros acc; simpl.
  - split; [split; apply Qle_refl | intros x []].
  - destruct (IH (qvec2_max acc y)) as [[A1 A2] Hl].
    remember (fold_left qvec2_max l (qvec2_max acc y)) as m eqn:Em.
    clear Em IH.
    unfold qvec2_max in A1, A2; cbn [fst snd] in A1, A2.
    pose proof (Q.le_max_l (fst acc) (fst y)).
    pose proof (Q.le_max_r (fst acc) (fst y)).
    pose proof (Q.le_max_l (snd acc) (snd y)).
    pose proof (Q.le_max_r (snd acc) (snd y)).
    split; [split; lra |].
    intros x [<- | Hx]; [split; lra | auto].
Qed.

(** X7. The canvas of the interpolating assembler holds every tile with a
    margin: every corner of every tile, moved by the centre offset, lies
    strictly between 0 and the size of the canvas, in rows (y) and in
    columns (x). *)
Theorem interpolation_canvas_holds_corners (ms : fragments)
    (size centre : zvec2) (t : GeometryFragment) (p : vec3) :
  AGIPD_1MGeometry._get_dimensions ms = Ok (size, centre) ->
  In t (concat ms) -> In p (GeometryFragment.corners t) ->
  (0 < vy p + inject_Z (fst centre) < inject_Z (fst size))%Q
  /\ (0 < vx p + inject_Z (snd centre) < inject_Z (snd size))%Q.
Proof.
  intros Hdim Ht Hp.
  unfold AGIPD_1MGeometry._get_dimensions in Hdim.
  replace (flat_map (fun module => map GeometryFragment.corners module) ms)
    with (map GeometryFragment.corners (concat ms)) in Hdim.
  2:{ clear. induction ms as [| m ms IH]; simpl; [reflexivity |].
      rewrite map_app, IH. reflexivity. }
  assert (Hin : In (first2 p)
                   (map first2 (concat (map GeometryFragment.corners
                                            (concat ms))))).
  { apply in_map, in_concat. exists (GeometryFragment.corners t).
    split; [apply in_map; exact Ht | exact Hp]. }
  destruct (map GeometryFragment.corners (concat ms)) as [| cs css] eqn:Ec.
  { destruct Hin. }
  cbn [np_concatenate bind] in Hdim.
  destruct (map first2 (concat (cs :: css))) as [| c0 rest] eqn:El.
  { destruct Hin. }
  cbn [reduce_axis0 bind] in Hdim.
  injection Hdim as <- <-.
  destruct (fold_qvec2_min_lower rest c0) as [[L1 L2] Ll].
  destruct (fold_qvec2_max_upper rest c0) as [[U1 U2] Ul].
  set (lo := fold_left qvec2_min rest c0) in *.
  set (hi := fold_left qvec2_max rest c0) in *.
  assert (Hb : (fst lo <= vx p <= fst hi)%Q /\ (snd lo <= vy p <= snd hi)%Q).
  { clearbody lo hi. destruct Hin as [E | Hin].
    - subst c0. cbn [first2 fst snd] in L1, L2, U1, U2. lra.
    - destruct (Ll _ Hin) as [A1 A2], (Ul _ Hin) as [B1 B2].
      cbn [first2 fst snd] in A1, A2, B1, B2. lra. }
  clearbody lo hi.
  destruct (trunc_close (fst lo)), (trunc_close (snd lo)),
           (trunc_close (fst hi)), (trunc_close (snd hi)).
  unfold rev2, z2neg, z2sub, z2add, trunc2. cbn [fst snd].
  unfold Z.sub. rewrite ?inject_Z_plus, ?inject_Z_opp, ?inject_Z_plus.
  change (inject_Z 1) with 1%Q. change (inject_Z (- (1))) with (- (1))%Q.
  split; lra.
Qed.

Lemma interpolation_canvas_holds_corners_witness :
  (0 < vy (V3 64 128 0) + inject_Z 1 < inject_Z 130)%Q
  /\ (0 < vx (V3 64 128 0) + inject_Z 1 < inject_Z 66)%Q.
Proof.
  apply (interpolation_canvas_holds_corners single_tile_geometry
           (130, 66) (1, 1) unit_tile (V3 64 128 0)).
  - reflexivity.
  - simpl. left. reflexivity.
  - simpl. right. right. left. reflexivity.
Defined.


(** ** Snapping a whole geometry *)

Lemma comprehension_ok_iff {A B : Type} (f : A -> result B) (l : list A) :
  (exists bs, comprehension f l = Ok bs)
  <-> Forall (fun a => exists b, f a = Ok b) l.
Proof.
  induction l as [| a l IH]; simpl.
  - split; [constructor | eexists; reflexivity].
  - split.
    + intros [bs H].
      destruct (f a) as [b |] eqn:E; simpl in H; [| discriminate].
      destruct (comprehension f l) as [bs' |] eqn:E'; simpl in H;
        [| discriminate].
      constructor; [eauto | apply IH; eauto].
    + intros H. inversion H as [| ? ? [b Hb] Hl]; subst.
      apply IH in Hl. destruct Hl as [bs Hbs].
      rewrite Hb, Hbs. simpl. eauto.
Qed.

Lemma comprehension_error {A B : Type} (f : A -> result B) (l : list A)
    (e : exn) :
  comprehension f l = Raise e -> Exists (fun a => f a = Raise e) l.
Proof.
  induction l as [| a l IH]; simpl; [discriminate |].
  destruct (f a) as [b |] eqn:E; simpl.
  - destruct (comprehension f l) as [bs |] eqn:E'; simpl; [discriminate |].
    intros H. injection H as <-. right. auto.
  - intros H. injection H as <-. left. exact E.
Qed.

Lemma snap_ok_iff (t : GeometryFragment) :
  (exists g, GeometryFragment.snap t = Ok g)
  <-> axis_permutation (GeometryFragment.rounded_ss t)
                       (GeometryFragment.rounded_fs t).
Proof.
  unfold axis_permutation, GeometryFragment.snap.
  rewrite <- is_canonical_pair_spec.
  destruct (is_canonical_pair _ _); split; intros H; auto.
  - eexists; reflexivity.
  - destruct H; discriminate.
  - discriminate.
Qed.

Lemma snap_error (t : GeometryFragment) (e : exn) :
  GeometryFragment.snap t = Raise e -> e = AssertionError.
Proof.
  unfold GeometryFragment.snap.
  destruct (is_canonical_pair _ _); intros H; [discriminate | congruence].
Qed.

Lemma Forall_concat {A : Type} (P : A -> Prop) (ls : list (list A)) :
  Forall (Forall P) ls <-> Forall P (concat ls).
Proof.
  induction ls as [| l ls IH]; simpl.
  - split; constructor.
  - rewrite Forall_app, <- IH. split.
    + intros H; inversion H; auto.
    + intros [H1 H2]; constructor; auto.
Qed.

Lemma compute_snapped_ok_iff (self : DetectorGeometry) :
  (exists sg, DetectorGeometryBase.compute_snapped self = Ok sg)
  <-> Forall (fun t => exists g, GeometryFragment.snap t = Ok g)
             (concat (modules self)).
Proof.
  rewrite <- Forall_concat.
  unfold DetectorGeometryBase.compute_snapped.
  split.
  - intros [sg H].
    destruct (comprehension _ (modules self)) as [nm |] eqn:E;
      [| discriminate].
    assert (Hok : exists bs,
               comprehension (fun module =>
                                comprehension GeometryFragment.snap module)
                             (modules self) = Ok bs) by eauto.
    apply comprehension_ok_iff in Hok.
    eapply Forall_impl; [| exact Hok].
    intros m Hm. apply comprehension_ok_iff in Hm. exact Hm.
  - intros H.
    assert (Hok : exists bs,
               comprehension (fun module =>
                                comprehension GeometryFragment.snap module)
                             (modules self) = Ok bs).
    { apply comprehension_ok_iff.
      eapply Forall_impl; [| exact H].
      intros m Hm. apply comprehension_ok_iff. exact Hm. }
    destruct Hok as [bs Hbs]. rewrite Hbs. simpl. eauto.
Qed.

(** X8. A geometry can be snapped exactly when the rounded vectors of every
    one of its tiles form an axis permutation. When one tile's do not,
    snapping raises the assertion error; a call of fast assembly then
    raises it whatever the data, and leaves the object, its cache empty,
    as it was. *)
Theorem geometry_snaps_iff_every_tile_snaps (self : DetectorGeometry) :
  ((exists sg, DetectorGeometryBase.compute_snapped self = Ok sg)
   <-> Forall (fun t => axis_permutation (GeometryFragment.rounded_ss t)
                                         (GeometryFragment.rounded_fs t))
              (concat (modules self)))
  /\ (forall e, DetectorGeometryBase.compute_snapped self = Raise e ->
                e = AssertionError)
  /\ (forall e data,
        _snapped_cache self = None ->
        DetectorGeometryBase.compute_snapped self = Raise e ->
        DetectorGeometryBase.position_modules_fast self data
        = (Raise AssertionError, self)).
Proof.
  assert (Herr : forall e, DetectorGeometryBase.compute_snapped self = Raise e
                           -> e = AssertionError).
  { intros e H. unfold DetectorGeometryBase.compute_snapped in H.
    destruct (comprehension _ (modules self)) as [nm |] eqn:E;
      [discriminate |].
    simpl in H. injection H as <-.
    apply comprehension_error in E. apply Exists_exists in E.
    destruct E as (m & _ & Hm).
    apply comprehension_error in Hm. apply Exists_exists in Hm.
    destruct Hm as (t & _ & Ht). exact (snap_error t _ Ht). }
  split; [| split; [exact Herr |]].
  - rewrite compute_snapped_ok_iff.
    split; intros H; (eapply Forall_impl; [| exact H]);
      intros t Ht; apply snap_ok_iff; exact Ht.
  - intros e data Hcache H.
    pose proof (Herr e H) as ->.
    unfold DetectorGeometryBase.position_modules_fast,
      DetectorGeometryBase._snapped.
    rewrite Hcache, H. reflexivity.
Qed.

(** ** Snapped tiles can be interpolated *)

(** Rounding to an odd integer is never a tie. *)
Lemma around_odd_strict (q : Q) :
  Z.odd (around q) = true ->
  (- (1 # 2) < q - inject_Z (around q) < 1 # 2)%Q.
Proof.
  unfold around.
  pose proof (Qfloor_le q) as Hlo.
  pose proof (Qlt_floor q) as Hhi.
  rewrite inject_Z_plus in Hhi.
  change (inject_Z 1) with 1%Q in Hhi.
  destruct (q - inject_Z (Qfloor q) ?= 1 # 2)%Q eqn:E.
  - destruct (Z.even (Qfloor q)) eqn:Ev; intros Ho.
    + rewrite <- Z.negb_even, Ev in Ho. discriminate.
    + rewrite <- Z.negb_even, Z.even_add, Ev in Ho. discriminate.
  - apply Qlt_alt in E. intros _. lra.
  - apply Qgt_alt in E. intros _.
    rewrite inject_Z_plus; change (inject_Z 1) with 1%Q. lra.
Qed.

Lemma around_unit (q : Q) :
  Z.abs (around q) = 1 -> (1 # 2 < q \/ q < - (1 # 2))%Q.
Proof.
  intros H.
  assert (E : around q = 1 \/ around q = -1) by lia.
  destruct E as [E | E];
    pose proof (around_odd_strict q) as S; rewrite E in S;
    specialize (S eq_refl).
  - change (inject_Z 1) with 1%Q in S. left. lra.
  - change (inject_Z (-1)) with (- (1))%Q in S. right. lra.
Qed.

Lemma around_zero (q : Q) :
  around q = 0 -> (- (1 # 2) <= q <= 1 # 2)%Q.
Proof.
  intros H. pose proof (around_close q) as C.
  apply Qabs_Qle_condition in C. rewrite H in C.
  change (inject_Z 0) with 0%Q in C. lra.
Qed.

(** A tile that can be snapped has independent in-plane vectors. *)
Lemma snap_nonsingular (t : GeometryFragment) (g : GridGeometryFragment) :
  GeometryFragment.snap t = Ok g -> nonsingular t.
Proof.
  intros H.
  assert (Hperm : axis_permutation (GeometryFragment.rounded_ss t)
                                   (GeometryFragment.rounded_fs t))
    by (apply snap_ok_iff; eauto).
  unfold nonsingular.
  destruct (axis_permutation_cases _ _ Hperm) as [C | C];
    unfold GeometryFragment.rounded_ss, GeometryFragment.rounded_fs,
      around2, first2 in C; cbn [fst snd] in C;
    destruct C as (C1 & C2 & C3 & C4).
  - apply around_zero in C1, C4. apply around_unit in C2, C3.
    intros E. destruct C2, C3; nra.
  - apply around_zero in C2, C3. apply around_unit in C1, C4.
    intros E. destruct C1, C4; nra.
Qed.

(** X9. A geometry that can be snapped can be interpolated: for an AGIPD-1M
    geometry with at least one tile on which snapping succeeds, the
    interpolating assembler accepts data of the shape (16, 512, 128); no
    tile's rotation matrix is singular. *)
Theorem snappable_geometry_interpolates
    (affine_transform : ndarray -> mat2 -> qvec2 -> zvec2 -> ndarray)
    (uninitialised : list Z -> pixel)
    (self : DetectorGeometry) (sg : SnappedGeometry) (data : ndarray) :
  DetectorGeometryBase.compute_snapped self = Ok sg ->
  concat (modules self) <> [] ->
  shape data = [16; 512; 128] ->
  Forall nonsingular (concat (modules self))
  /\ exists out size centre,
       AGIPD_1MGeometry._get_dimensions (modules self) = Ok (size, centre)
       /\ AGIPD_1MGeometry.position_modules_interpolate
            affine_transform uninitialised (modules self) data
          = Ok (out, centre)
       /\ shape out = [fst size; snd size].
Proof.
  intros Hsg Hne Hdata.
  assert (Hns : Forall nonsingular (concat (modules self))).
  { assert (Hok : exists sg', DetectorGeometryBase.compute_snapped self
                              = Ok sg') by eauto.
    apply compute_snapped_ok_iff in Hok.
    eapply Forall_impl; [| exact Hok].
    intros t [g Hg]. exact (snap_nonsingular t g Hg). }
  split; [exact Hns |].
  apply interpolate_ok; assumption.
Qed.

Lemma snappable_geometry_interpolates_witness :
  Forall nonsingular (concat sample_modules)
  /\ exists out size centre,
       AGIPD_1MGeometry._get_dimensions sample_modules = Ok (size, centre)
       /\ AGIPD_1MGeometry.position_modules_interpolate
            blank_resample blank_memory sample_modules sample_frame
          = Ok (out, centre)
       /\ shape out = [fst size; snd size].
Proof.
  apply (snappable_geometry_interpolates blank_resample blank_memory
           sample_geometry sample_snapped sample_frame).
  - exact sample_snapped_computed.
  - vm_compute. discriminate.
  - reflexivity.
Defined.

(** ** The layout generators *)

Lemma getitem_nth {A : Type} (l : list A) (j : nat) (a : A) :
  nth_error l j = Some a -> getitem l (Z.of_nat j) = Ok a.
Proof.
  intros H.
  assert (Hj : (j < length l)%nat) by (apply nth_error_Some; congruence).
  destruct (getitem_ok l j Hj) as (a' & E & E'). congruence.
Qed.

Lemma getitem_beyond {A : Type} (l : list A) (j : nat) :
  (length l <= j)%nat -> getitem l (Z.of_nat j) = Raise IndexError.
Proof.
  intros Hj. unfold getitem.
  assert (E1 : (Z.of_nat j <? 0) = false) by (apply Z.ltb_ge; lia).
  rewrite E1.
  assert (E2 : (Z.of_nat j <? Z.of_nat (length l)) = false)
    by (apply Z.ltb_ge; lia).
  rewrite E2, andb_false_r. reflexivity.
Qed.

Lemma getitem_error {A : Type} (l : list A) (i : Z) (e : exn) :
  getitem l i = Raise e -> e = IndexError.
Proof.
  unfold getitem.
  destruct (_ && _); [destruct (nth_error _ _) |]; congruence.
Qed.

Lemma comprehension_ext_in {A B : Type} (f g : A -> result B) (l : list A) :
  (forall a, In a l -> f a = g a) -> comprehension f l = comprehension g l.
Proof.
  induction l as [| a l IH]; intros H; simpl; [reflexivity |].
  rewrite (H a (or_introl eq_refl)), IH; [reflexivity |].
  intros; apply H; right; assumption.
Qed.

(** The quadrant of a module, as an index of the list of positions. *)
Lemma quadrant_of_module (p : Z) :
  In p (range 16) -> exists j : nat, p / 4 = Z.of_nat j /\ (j < 4)%nat.
Proof.
  intros H. apply in_map_iff in H. destruct H as (k & <- & Hk).
  apply in_seq in Hk.
  exists (k / 4)%nat. split.
  - rewrite Nat2Z.inj_div. reflexivity.
  - apply Nat.Div0.div_lt_upper_bound. simpl in Hk. lia.
Qed.

Lemma getitem_firstn {A : Type} (l : list A) (n j : nat) :
  (j < n)%nat -> getitem (firstn n l) (Z.of_nat j) = getitem l (Z.of_nat j).
Proof.
  intros Hj.
  destruct (nth_error l j) as [a |] eqn:E.
  - rewrite (getitem_nth l j a E).
    apply getitem_nth. rewrite nth_error_firstn.
    destruct (Nat.ltb_spec j n); [exact E | lia].
  - apply nth_error_None in E.
    rewrite (getitem_beyond l j E).
    apply getitem_beyond. rewrite length_firstn. lia.
Qed.

Lemma Exists_never {A : Type} (P : A -> Prop) (l : list A) :
  (forall a, ~ P a) -> ~ Exists P l.
Proof. intros H E. apply Exists_exists in E. destruct E as (a & _ & Ha). exact (H a Ha). Qed.

Lemma comprehension_total {A B : Type} (f : A -> B) (l : list A) :
  comprehension (fun a => Ok (f a)) l = Ok (map f l).
Proof.
  induction l as [| a l IH]; simpl; [reflexivity |]. rewrite IH. reflexivity.
Qed.

Lemma agipd_generator_ok (quad_pos : list qvec2) (asic_gap panel_gap : Q) :
  (4 <= length quad_pos)%nat ->
  exists ms, AGIPD_1MGeometry.from_quad_positions quad_pos asic_gap panel_gap
             = Ok ms.
Proof.
  intros L. unfold AGIPD_1MGeometry.from_quad_positions. cbv zeta.
  apply comprehension_ok_iff, Forall_forall. intros p Hp.
  destruct (quadrant_of_module p Hp) as (j & -> & Hj).
  destruct (getitem_ok quad_pos j) as (qc & -> & _); [lia |].
  destruct (getitem_ok [1; 1; -1; -1] j Hj) as (xo & -> & _).
  destruct (getitem_ok [-1; -1; 1; 1] j Hj) as (yo & -> & _).
  cbn [bind]. rewrite comprehension_total. eauto.
Qed.

(** X10. The AGIPD-1M layout generator reads four quadrant positions: it
    returns a geometry exactly when it is given at least four, raises
    the index error otherwise, and does not look at positions past the
    fourth. *)
Theorem agipd_generator_reads_four_positions (quad_pos : list qvec2)
    (asic_gap panel_gap : Q) :
  ((exists ms, AGIPD_1MGeometry.from_quad_positions quad_pos asic_gap panel_gap
               = Ok ms)
   <-> (4 <= length quad_pos)%nat)
  /\ (forall e, AGIPD_1MGeometry.from_quad_positions quad_pos asic_gap panel_gap
                = Raise e -> e = IndexError)
  /\ AGIPD_1MGeometry.from_quad_positions quad_pos asic_gap panel_gap
     = AGIPD_1MGeometry.from_quad_positions (firstn 4 quad_pos)
                                            asic_gap panel_gap.
Proof.
  unfold AGIPD_1MGeometry.from_quad_positions. cbv zeta.
  split; [| split].
  - split.
    + intros H. apply comprehension_ok_iff in H. rewrite Forall_forall in H.
      destruct (H 12) as [m Hm]; [vm_compute; tauto |].
      change (12 / 4) with (Z.of_nat 3) in Hm.
      destruct (Nat.le_gt_cases 4 (length quad_pos)) as [L | L]; [exact L |].
      rewrite getitem_beyond in Hm by lia. discriminate.
    + intros L. apply comprehension_ok_iff, Forall_forall. intros p Hp.
      destruct (quadrant_of_module p Hp) as (j & -> & Hj).
      destruct (getitem_ok quad_pos j) as (qc & -> & _); [lia |].
      destruct (getitem_ok [1; 1; -1; -1] j Hj) as (xo & -> & _).
      destruct (getitem_ok [-1; -1; 1; 1] j Hj) as (yo & -> & _).
      cbn [bind]. rewrite comprehension_total. eauto.
  - intros e H. apply comprehension_error in H.
    apply Exists_exists in H. destruct H as (p & _ & H).
    destruct (getitem quad_pos (p / 4)) eqn:E1;
      [| injection H as <-; exact (getitem_error _ _ _ E1)].
    cbn [bind] in H.
    destruct (getitem [1; 1; -1; -1] (p / 4)) eqn:E2;
      [| injection H as <-; exact (getitem_error _ _ _ E2)].
    cbn [bind] in H.
    destruct (getitem [-1; -1; 1; 1] (p / 4)) eqn:E3;
      [| injection H as <-; exact (getitem_error _ _ _ E3)].
    cbn [bind] in H. rewrite comprehension_total in H. discriminate.
  - apply comprehension_ext_in. intros p Hp.
    destruct (quadrant_of_module p Hp) as (j & -> & Hj).
    rewrite getitem_firstn by exact Hj. reflexivity.
Qed.

(** X11. The LPD-1M layout generator reads four quadrant positions: it
    returns a geometry exactly when it is given at least four, raises
    the index error otherwise, and does not look at positions past the
    fourth. *)
Theorem lpd_generator_reads_four_positions (quad_pos : list qvec2)
    (asic_gap panel_gap : Q) :
  ((exists ms, LPD_1MGeometry.from_quad_positions quad_pos asic_gap panel_gap
               = Ok ms)
   <-> (4 <= length quad_pos)%nat)
  /\ (forall e, LPD_1MGeometry.from_quad_positions quad_pos asic_gap panel_gap
                = Raise e -> e = IndexError)
  /\ LPD_1MGeometry.from_quad_positions quad_pos asic_gap panel_gap
     = LPD_1MGeometry.from_quad_positions (firstn 4 quad_pos)
                                          asic_gap panel_gap.
Proof.
  assert (Hin : forall p, In p (range 16) ->
                  exists k : nat, p mod 4 = Z.of_nat k /\ (k < 4)%nat).
  { intros p Hp. apply in_map_iff in Hp. destruct Hp as (k & <- & _).
    exists (k mod 4)%nat. split.
    - rewrite Nat2Z.inj_mod. reflexivity.
    - apply Nat.mod_upper_bound. lia. }
  unfold LPD_1MGeometry.from_quad_positions. cbv zeta.
  split; [| split].
  - split.
    + intros H. apply comprehension_ok_iff in H. rewrite Forall_forall in H.
      destruct (H 12) as [m Hm]; [vm_compute; tauto |].
      change (12 / 4) with (Z.of_nat 3) in Hm.
      destruct (Nat.le_gt_cases 4 (length quad_pos)) as [L | L]; [exact L |].
      rewrite getitem_beyond in Hm by lia. discriminate.
    + intros L. apply comprehension_ok_iff, Forall_forall. intros p Hp.
      destruct (quadrant_of_module p Hp) as (j & -> & Hj).
      destruct (Hin p Hp) as (k & -> & Hk).
      destruct (getitem_ok quad_pos j) as ([qx qy] & -> & _); [lia |].
      cbn [bind].
      destruct (getitem_ok [0; 0; 1; 1] k Hk) as (ac & -> & _).
      destruct (getitem_ok [0; -1; -1; 0] k Hk) as (up & -> & _).
      cbn [bind].
      apply comprehension_ok_iff, Forall_forall. intros a' _.
      destruct (a' <? 8); eauto.
  - intros e H. apply comprehension_error in H.
    apply Exists_exists in H. destruct H as (p & _ & H).
    destruct (getitem quad_pos (p / 4)) as [[qx qy] |] eqn:E1;
      [| injection H as <-; exact (getitem_error _ _ _ E1)].
    cbn [bind] in H.
    destruct (getitem [0; 0; 1; 1] (p mod 4)) eqn:E2;
      [| injection H as <-; exact (getitem_error _ _ _ E2)].
    cbn [bind] in H.
    destruct (getitem [0; -1; -1; 0] (p mod 4)) eqn:E3;
      [| injection H as <-; exact (getitem_error _ _ _ E3)].
    cbn [bind] in H.
    apply comprehension_error, Exists_exists in H.
    destruct H as (a' & _ & H). destruct (a' <? 8); discriminate.
  - apply comprehension_ext_in. intros p Hp.
    destruct (quadrant_of_module p Hp) as (j & -> & Hj).
    rewrite getitem_firstn by exact Hj. reflexivity.
Qed.

Lemma lpd_generator_ok (quad_pos : list qvec2) (asic_gap panel_gap : Q) :
  (4 <= length quad_pos)%nat ->
  exists ms, LPD_1MGeometry.from_quad_positions quad_pos asic_gap panel_gap
             = Ok ms.
Proof.
  intros L. unfold LPD_1MGeometry.from_quad_positions. cbv zeta.
  apply comprehension_ok_iff, Forall_forall. intros p Hp.
  destruct (quadrant_of_module p Hp) as (j & -> & Hj).
  assert (Hk : exists k : nat, p mod 4 = Z.of_nat k /\ (k < 4)%nat).
  { apply in_map_iff in Hp. destruct Hp as (k & <- & _).
    exists (k mod 4)%nat. split.
    - rewrite Nat2Z.inj_mod. reflexivity.
    - apply Nat.mod_upper_bound. lia. }
  destruct Hk as (k & -> & Hk).
  destruct (getitem_ok quad_pos j) as ([qx qy] & -> & _); [lia |].
  cbn [bind].
  destruct (getitem_ok [0; 0; 1; 1] k Hk) as (ac & -> & _).
  destruct (getitem_ok [0; -1; -1; 0] k Hk) as (up & -> & _).
  cbn [bind].
  apply comprehension_ok_iff, Forall_forall. intros a' _.
  destruct (a' <? 8); eauto.
Qed.

Lemma Forall2_In_r {A B : Type} (R : A -> B -> Prop) (l : list A)
    (l' : list B) (b : B) :
  Forall2 R l l' -> In b l' -> exists a, In a l /\ R a b.
Proof.
  induction 1 as [| a b' l l' Hab _ IH]; intros Hin; [destruct Hin |].
  destruct Hin as [<- | Hin].
  - exists a. split; [left; reflexivity | exact Hab].
  - destruct (IH Hin) as (a' & Ha' & HR). exists a'. split; [right |]; assumption.
Qed.

(** The tiles the AGIPD-1M generator makes: 64 by 128 pixels, the slow scan
    along x and the fast scan along y, in opposite senses. *)
Lemma agipd_generated_tile (quad_pos : list qvec2) (asic_gap panel_gap : Q)
    (ms : fragments) (t : GeometryFragment) :
  AGIPD_1MGeometry.from_quad_positions quad_pos asic_gap panel_gap = Ok ms ->
  In t (concat ms) ->
  ss_pixels t = 64 /\ fs_pixels t = 128
  /\ ((ss_vec t = V3 1 0 0 /\ fs_vec t = V3 0 (-1) 0)
      \/ (ss_vec t = V3 (-1) 0 0 /\ fs_vec t = V3 0 1 0)).
Proof.
  intros H Ht. unfold AGIPD_1MGeometry.from_quad_positions in H.
  cbv zeta in H. apply comprehension_Forall2 in H.
  apply in_concat in Ht. destruct Ht as (m & Hm & Ht).
  destruct (Forall2_In_r _ _ _ _ H Hm) as (p & Hp & Hb).
  cbv beta in Hb.
  destruct (quadrant_of_module p Hp) as (j & Ej & Hj).
  rewrite Ej in Hb.
  destruct (getitem quad_pos (Z.of_nat j)) as [qc |]; [| discriminate].
  cbn [bind] in Hb.
  destruct (getitem_ok [1; 1; -1; -1] j Hj) as (xo & E1 & N1).
  destruct (getitem_ok [-1; -1; 1; 1] j Hj) as (yo & E2 & N2).
  rewrite E1, E2 in Hb. cbn [bind] in Hb.
  rewrite comprehension_total in Hb.
  match type of Hb with Ok ?x = Ok m => assert (Em : x = m) by congruence end.
  rewrite <- Em in Ht.
  apply in_map_iff in Ht. destruct Ht as (a & <- & _).
  cbn [ss_pixels fs_pixels ss_vec fs_vec].
  split; [reflexivity | split; [reflexivity |]].
  destruct j as [| [| [| [| j]]]]; [| | | | lia];
    simpl in N1, N2; injection N1 as <-; injection N2 as <-;
    [left | left | right | right]; split; reflexivity.
Qed.

(** The tiles the LPD-1M generator makes: 32 by 128 pixels, the slow scan
    along +y and the fast scan along +x. *)
Lemma lpd_generated_tile (quad_pos : list qvec2) (asic_gap panel_gap : Q)
    (ms : fragments) (t : GeometryFragment) :
  LPD_1MGeometry.from_quad_positions quad_pos asic_gap panel_gap = Ok ms ->
  In t (concat ms) ->
  ss_pixels t = 32 /\ fs_pixels t = 128
  /\ ss_vec t = V3 0 1 0 /\ fs_vec t = V3 1 0 0.
Proof.
  intros H Ht. unfold LPD_1MGeometry.from_quad_positions in H.
  cbv zeta in H. apply comprehension_Forall2 in H.
  apply in_concat in Ht. destruct Ht as (m & Hm & Ht).
  destruct (Forall2_In_r _ _ _ _ H Hm) as (p & Hp & Hb).
  cbv beta in Hb.
  destruct (getitem quad_pos (p / 4)) as [[qx qy] |]; [| discriminate].
  cbn [bind] in Hb.
  destruct (getitem _ (p mod 4)) as [ac |]; [| discriminate].
  cbn [bind] in Hb.
  destruct (getitem _ (p mod 4)) as [up |]; [| discriminate].
  cbn [bind] in Hb.
  apply comprehension_Forall2 in Hb.
  destruct (Forall2_In_r _ _ _ _ Hb Ht) as (a & _ & Ha).
  cbv beta in Ha.
  destruct (a <? 8); injection Ha as <-; repeat split; reflexivity.
Qed.

Lemma lpd_from_quad_positions_layout (quad_pos : list qvec2)
    (asic_gap panel_gap : Q) (ms : fragments) :
  LPD_1MGeometry.from_quad_positions quad_pos asic_gap panel_gap = Ok ms ->
  fragment_layout LPD_1M ms.
Proof.
  intros H. pose proof (fun t => lpd_generated_tile _ _ _ _ t H) as Htile.
  unfold LPD_1MGeometry.from_quad_positions in H.
  cbv zeta in H. apply comprehension_Forall2 in H.
  split.
  - symmetry. apply (Forall2_length H).
  - apply Forall_forall. intros m Hm.
    split.
    + destruct (Forall2_In_r _ _ _ _ H Hm) as (p & Hp & Hb).
      cbv beta in Hb.
      destruct (getitem quad_pos (p / 4)) as [[qx qy] |]; [| discriminate].
      cbn [bind] in Hb.
      destruct (getitem _ (p mod 4)) as [ac |]; [| discriminate].
      cbn [bind] in Hb.
      destruct (getitem _ (p mod 4)) as [up |]; [| discriminate].
      cbn [bind] in Hb.
      apply comprehension_Forall2 in Hb.
      rewrite <- (Forall2_length Hb). reflexivity.
    + apply Forall_forall. intros t Ht.
      destruct (Htile t) as (Hs & Hf & _).
      * apply in_concat. exists m. split; assumption.
      * split; assumption.
Qed.

(** A geometry whose tiles all lie along the axes, with the layout of its
    detector, is snapped and assembled by the fast method. *)
Lemma axis_aligned_geometry_assembles (c : detector_class) (ms : fragments)
    (data : ndarray) (batch : list Z) :
  c <> Base ->
  fragment_layout c ms ->
  Forall (fun t => axis_permutation (GeometryFragment.rounded_ss t)
                                    (GeometryFragment.rounded_fs t))
         (concat ms) ->
  shape data = batch ++ expected_data_shape c ->
  exists sg out,
    DetectorGeometryBase.compute_snapped (DetectorGeometryBase.init c ms)
    = Ok sg
    /\ detector_layout c sg
    /\ fst (DetectorGeometryBase.position_modules_fast
              (DetectorGeometryBase.init c ms) data)
       = Ok (out, centre_offset sg)
    /\ on_canvas sg batch out.
Proof.
  intros Hc Hl Hax Hdata.
  set (self := DetectorGeometryBase.init c ms).
  assert (Hsg : exists sg, DetectorGeometryBase.compute_snapped self = Ok sg).
  { apply compute_snapped_ok_iff. simpl.
    eapply Forall_impl; [| exact Hax].
    intros t Ht. apply snap_ok_iff. exact Ht. }
  destruct Hsg as [sg Hsg].
  assert (Hlay : detector_layout c sg)
    by exact (compute_snapped_layout self sg Hl Hsg).
  destruct (position_modules_ok c sg Hc Hlay batch data Hdata)
    as (out & Hout & Hcanvas).
  exists sg, out.
  split; [exact Hsg | split; [exact Hlay | split; [| exact Hcanvas]]].
  destruct (position_modules_fast_spec self data (init_cache_valid c ms))
    as [E _].
  fold self. rewrite E.
  unfold assemble_with_fresh_layout. rewrite Hsg. exact Hout.
Qed.

(** X12. Every geometry that the AGIPD-1M generator makes can be assembled by
    the fast method: whatever the quadrant positions and the gaps, snapping
    succeeds (no tile fails the assertion), the snapped geometry has the
    detector's layout, and data of the shape (..., 16, 512, 128) is placed
    on the canvas. *)
Theorem generated_agipd_geometry_assembles (quad_pos : list qvec2)
    (asic_gap panel_gap : Q) (data : ndarray) (batch : list Z) :
  (4 <= length quad_pos)%nat ->
  shape data = batch ++ [16; 512; 128] ->
  exists ms sg out,
    AGIPD_1MGeometry.from_quad_positions quad_pos asic_gap panel_gap = Ok ms
    /\ DetectorGeometryBase.compute_snapped
         (DetectorGeometryBase.init AGIPD_1M ms) = Ok sg
    /\ detector_layout AGIPD_1M sg
    /\ fst (DetectorGeometryBase.position_modules_fast
              (DetectorGeometryBase.init AGIPD_1M ms) data)
       = Ok (out, centre_offset sg)
    /\ on_canvas sg batch out.
Proof.
  intros L Hdata.
  destruct (agipd_generator_ok quad_pos asic_gap panel_gap L) as [ms Hms].
  destruct (axis_aligned_geometry_assembles AGIPD_1M ms data batch)
    as (sg & out & H); [discriminate | | | exact Hdata |].
  - exact (from_quad_positions_layout _ _ _ _ Hms).
  - apply Forall_forall. intros t Ht.
    destruct (agipd_generated_tile _ _ _ _ t Hms Ht)
      as (_ & _ & [[Es Ef] | [Es Ef]]);
      unfold GeometryFragment.rounded_ss, GeometryFragment.rounded_fs;
      rewrite Es, Ef; apply is_canonical_pair_spec; vm_compute; reflexivity.
  - exists ms, sg, out. split; [exact Hms | exact H].
Qed.

Lemma generated_agipd_geometry_assembles_witness :
  exists ms sg out,
    AGIPD_1MGeometry.from_quad_positions sample_quad_pos 2 29 = Ok ms
    /\ DetectorGeometryBase.compute_snapped
         (DetectorGeometryBase.init AGIPD_1M ms) = Ok sg
    /\ detector_layout AGIPD_1M sg
    /\ fst (DetectorGeometryBase.position_modules_fast
              (DetectorGeometryBase.init AGIPD_1M ms) sample_frames)
       = Ok (out, centre_offset sg)
    /\ on_canvas sg [2] out.
Proof.
  apply (generated_agipd_geometry_assembles sample_quad_pos 2 29
           sample_frames [2]).
  - simpl. lia.
  - reflexivity.
Defined.

(** X13. Every geometry that the LPD-1M generator makes can be assembled by
    the fast method: whatever the quadrant positions and the gaps, snapping
    succeeds, the snapped geometry has the detector's layout, and data of
    the shape (..., 16, 256, 256) is placed on the canvas. *)
Theorem generated_lpd_geometry_assembles (quad_pos : list qvec2)
    (asic_gap panel_gap : Q) (data : ndarray) (batch : list Z) :
  (4 <= length quad_pos)%nat ->
  shape data = batch ++ [16; 256; 256] ->
  exists ms sg out,
    LPD_1MGeometry.from_quad_positions quad_pos asic_gap panel_gap = Ok ms
    /\ DetectorGeometryBase.compute_snapped
         (DetectorGeometryBase.init LPD_1M ms) = Ok sg
    /\ detector_layout LPD_1M sg
    /\ fst (DetectorGeometryBase.position_modules_fast
              (DetectorGeometryBase.init LPD_1M ms) data)
       = Ok (out, centre_offset sg)
    /\ on_canvas sg batch out.
Proof.
  intros L Hdata.
  destruct (lpd_generator_ok quad_pos asic_gap panel_gap L) as [ms Hms].
  destruct (axis_aligned_geometry_assembles LPD_1M ms data batch)
    as (sg & out & H); [discriminate | | | exact Hdata |].
  - exact (lpd_from_quad_positions_layout _ _ _ _ Hms).
  - apply Forall_forall. intros t Ht.
    destruct (lpd_generated_tile _ _ _ _ t Hms Ht) as (_ & _ & Es & Ef).
    unfold GeometryFragment.rounded_ss, GeometryFragment.rounded_fs.
    rewrite Es, Ef. apply is_canonical_pair_spec. vm_compute. reflexivity.
  - exists ms, sg, out. split; [exact Hms | exact H].
Qed.

Lemma generated_lpd_geometry_assembles_witness :
  exists ms sg out,
    LPD_1MGeometry.from_quad_positions sample_quad_pos 4 4 = Ok ms
    /\ DetectorGeometryBase.compute_snapped
         (DetectorGeometryBase.init LPD_1M ms) = Ok sg
    /\ detector_layout LPD_1M sg
    /\ fst (DetectorGeometryBase.position_modules_fast
              (DetectorGeometryBase.init LPD_1M ms)
              (NdArray [16; 256; 256] (fun _ => Some 1%Q)))
       = Ok (out, centre_offset sg)
    /\ on_canvas sg [] out.
Proof.
  apply (generated_lpd_geometry_assembles sample_quad_pos 4 4
           (NdArray [16; 256; 256] (fun _ => Some 1%Q)) []).
  - simpl. lia.
  - reflexivity.
Defined.

(** ** Splitting a module into tiles *)

(** X14. The tile split partitions the block of a module. For a module block of
    the detector's raw shape, with any batch axes, [split_tiles] returns the
    detector's number of tiles, each of the tile shape; pixel [(i, j)] of
    tile [tj] is the element of the block at [raw_position]; and every
    element of the block is the pixel of exactly one tile at exactly one
    place. *)
Theorem split_tiles_partitions_module (c : detector_class) (md : ndarray)
    (batch : list Z) (s f : Z) :
  expected_data_shape c = [16; s; f] ->
  shape md = batch ++ [s; f] ->
  exists tiles_data,
    split_tiles c md = Ok tiles_data
    /\ length tiles_data = tiles_per_module c
    /\ (forall (tj : nat) (a : ndarray),
          nth_error tiles_data tj = Some a ->
          shape a = batch ++ [frag_ss_pixels c; frag_fs_pixels c]
          /\ forall (b : list Z) (i j : Z),
               item a (b ++ [i; j])
               = item md (b ++ [fst (raw_position c (Z.of_nat tj) i j);
                                snd (raw_position c (Z.of_nat tj) i j)]))
    /\ (forall r col : Z,
          0 <= r < s -> 0 <= col < f ->
          exists (tj : nat) (i j : Z),
            (tj < tiles_per_module c)%nat
            /\ 0 <= i < frag_ss_pixels c /\ 0 <= j < frag_fs_pixels c
            /\ raw_position c (Z.of_nat tj) i j = (r, col)
            /\ forall (tj' : nat) (i' j' : Z),
                 (tj' < tiles_per_module c)%nat ->
                 0 <= i' < frag_ss_pixels c -> 0 <= j' < frag_fs_pixels c ->
                 raw_position c (Z.of_nat tj') i' j' = (r, col) ->
                 tj' = tj /\ i' = i /\ j' = j).
Proof.
  intros Hexp Hs.
  assert (Hc : c <> Base) by (intros ->; discriminate).
  destruct (expected_data_shape_frag c Hc) as (s' & f' & Hexp' & Hsplit).
  rewrite Hexp in Hexp'. injection Hexp' as <- <-.
  destruct (Hsplit md batch Hs) as (tiles_data & E & Hlen & Hshapes).
  exists tiles_data. split; [exact E | split; [exact Hlen | split]].
  - intros tj a Hn. split.
    + rewrite Forall_forall in Hshapes. apply Hshapes.
      eapply nth_error_In; exact Hn.
    + exact (split_tiles_item c md a batch s f tiles_data tj Hexp Hs E Hn).
  - intros r col Hr Hcol.
    destruct c; [congruence | |]; injection Hexp as <- <-;
      cbn [tiles_per_module frag_ss_pixels frag_fs_pixels raw_position].
    + unfold AGIPD_1MGeometry.frag_ss_pixels, AGIPD_1MGeometry.frag_fs_pixels.
      pose proof (Z.div_mod r 64 ltac:(lia)) as Hd.
      pose proof (Z.mod_pos_bound r 64 ltac:(lia)) as Hm.
      exists (Z.to_nat (r / 64)), (r mod 64), col.
      assert (0 <= r / 64 < 8) by (split; [apply Z.div_pos | apply Z.div_lt_upper_bound]; lia).
      rewrite Z2Nat.id by lia.
      split; [lia | split; [lia | split; [lia | split; [f_equal; lia |]]]].
      intros tj' i' j' Ht Hi Hj Hraw. apply pair_equal_spec in Hraw; destruct Hraw as [E1 E2]. lia.
    + unfold LPD_1MGeometry.frag_ss_pixels, LPD_1MGeometry.frag_fs_pixels.
      pose proof (Z.div_mod r 32 ltac:(lia)) as Hd.
      pose proof (Z.mod_pos_bound r 32 ltac:(lia)) as Hm.
      assert (0 <= r / 32 < 8) by (split; [apply Z.div_pos | apply Z.div_lt_upper_bound]; lia).
      destruct (Z.lt_ge_cases col 128) as [Hlt | Hge].
      * exists (Z.to_nat (7 - r / 32)), (r mod 32), col.
        rewrite Z2Nat.id by lia.
        assert (E8 : (7 - r / 32 <? 8) = true) by (apply Z.ltb_lt; lia).
        rewrite E8.
        split; [lia | split; [lia | split; [lia | split; [f_equal; lia |]]]].
        intros tj' i' j' Ht Hi Hj Hraw.
        destruct (Z.of_nat tj' <? 8) eqn:Elt; apply pair_equal_spec in Hraw; destruct Hraw as [E1 E2];
          [apply Z.ltb_lt in Elt | apply Z.ltb_ge in Elt]; lia.
      * exists (Z.to_nat (8 + r / 32)), (r mod 32), (col - 128).
        rewrite Z2Nat.id by lia.
        assert (E8 : (8 + r / 32 <? 8) = false) by (apply Z.ltb_ge; lia).
        rewrite E8.
        split; [lia | split; [lia | split; [lia | split; [f_equal; lia |]]]].
        intros tj' i' j' Ht Hi Hj Hraw.
        destruct (Z.of_nat tj' <? 8) eqn:Elt; apply pair_equal_spec in Hraw; destruct Hraw as [E1 E2];
          [apply Z.ltb_lt in Elt | apply Z.ltb_ge in Elt]; lia.
Qed.

Lemma split_tiles_partitions_module_witness :
  exists tiles_data,
    split_tiles LPD_1M (NdArray [3; 256; 256] (fun _ => Some 1%Q))
    = Ok tiles_data
    /\ length tiles_data = tiles_per_module LPD_1M
    /\ (forall (tj : nat) (a : ndarray),
          nth_error tiles_data tj = Some a ->
          shape a = [3] ++ [frag_ss_pixels LPD_1M; frag_fs_pixels LPD_1M]
          /\ forall (b : list Z) (i j : Z),
               item a (b ++ [i; j])
               = item (NdArray [3; 256; 256] (fun _ => Some 1%Q))
                   (b ++ [fst (raw_position LPD_1M (Z.of_nat tj) i j);
                          snd (raw_position LPD_1M (Z.of_nat tj) i j)]))
    /\ (forall r col : Z,
          0 <= r < 256 -> 0 <= col < 256 ->
          exists (tj : nat) (i j : Z),
            (tj < tiles_per_module LPD_1M)%nat
            /\ 0 <= i < frag_ss_pixels LPD_1M
            /\ 0 <= j < frag_fs_pixels LPD_1M
            /\ raw_position LPD_1M (Z.of_nat tj) i j = (r, col)
            /\ forall (tj' : nat) (i' j' : Z),
                 (tj' < tiles_per_module LPD_1M)%nat ->
                 0 <= i' < frag_ss_pixels LPD_1M ->
                 0 <= j' < frag_fs_pixels LPD_1M ->
                 raw_position LPD_1M (Z.of_nat tj') i' j' = (r, col) ->
                 tj' = tj /\ i' = i /\ j' = j).
Proof.
  apply (split_tiles_partitions_module LPD_1M
           (NdArray [3; 256; 256] (fun _ => Some 1%Q)) [3] 256 256).
  - reflexivity.
  - reflexivity.
Defined.

(** ** New memory in the interpolating assembler *)

Lemma for_enumerate_sim {A St : Type} (body : nat -> A -> St -> result St)
    (R : nat -> St -> St -> Prop) (l : list A) :
  forall (start : nat) (s1 s2 : St),
    (forall k a t1 t2, nth_error l k = Some a -> R (start + k)%nat t1 t2 ->
       same_end (R (S (start + k))) (body (start + k)%nat a t1)
                (body (start + k)%nat a t2)) ->
    R start s1 s2 ->
    same_end (R (start + length l)%nat)
             (for_enumerate body start l s1) (for_enumerate body start l s2).
Proof.
  induction l as [| a l IH]; intros start s1 s2 Hbody HR; simpl.
  - rewrite Nat.add_0_r. exact HR.
  - pose proof (Hbody 0%nat a s1 s2 eq_refl) as H0.
    rewrite Nat.add_0_r in H0. specialize (H0 HR).
    destruct (body start a s1) as [t1 | e1], (body start a s2) as [t2 | e2];
      simpl in *; try contradiction; [| exact H0].
    rewrite <- Nat.add_succ_comm. apply IH; [| exact H0].
    intros k a' u1 u2 Hk. rewrite Nat.add_succ_comm. apply (Hbody (S k)).
    exact Hk.
Qed.

Section NewMemory.

Variable affine_transform : ndarray -> mat2 -> qvec2 -> zvec2 -> ndarray.

Lemma interpolate_tile_sim (size centre : zvec2) (i j : nat)
    (t : GeometryFragment) (a : ndarray) (s : list Z) (t1 t2 : ndarray) :
  planes_agree (i * 8 + j) s t1 t2 ->
  same_end (planes_agree (S (i * 8 + j)) s)
    (AGIPD_1MGeometry.interpolate_tile affine_transform size centre i j t a t1)
    (AGIPD_1MGeometry.interpolate_tile affine_transform size centre i j t a t2).
Proof.
  intros (H1 & H2 & H). unfold AGIPD_1MGeometry.interpolate_tile.
  destruct (mat2_inv _) as [m | e]; cbn [bind same_end]; [| reflexivity].
  split; [exact H1 | split; [exact H2 |]].
  intros k rest Hk. cbn [AGIPD_1MGeometry.set_plane item].
  destruct (k =? Z.of_nat (i * 8 + j)) eqn:E; [reflexivity |].
  apply Z.eqb_neq in E. apply H. lia.
Qed.

(** X15. The interpolating assembler never shows what was in its new memory:
    for a geometry with the AGIPD-1M layout (16 modules of 8 tiles), every
    plane of the temporary array is written before the maximum is taken, so
    two calls that differ only in what [np.empty] left in the array end
    alike. *)
Theorem interpolation_overwrites_new_memory
    (uninitialised uninitialised' : list Z -> pixel)
    (ms : fragments) (data : ndarray) :
  fragment_layout AGIPD_1M ms ->
  same_outcome
    (AGIPD_1MGeometry.position_modules_interpolate
       affine_transform uninitialised ms data)
    (AGIPD_1MGeometry.position_modules_interpolate
       affine_transform uninitialised' ms data).
Proof.
  intros [Hlen Hmods].
  unfold AGIPD_1MGeometry.position_modules_interpolate.
  destruct (list_Z_eqb (shape data) [16; 512; 128]) eqn:Es;
    [| reflexivity].
  apply list_Z_eqb_eq in Es.
  destruct (AGIPD_1MGeometry._get_dimensions ms) as [[size centre] | e];
    cbn [bind]; [| reflexivity].
  set (s := [16 * 8; fst size; snd size]).
  match goal with
  | |- same_outcome (bind (for_enumerate ?body 0%nat ?l ?s1) _)
                    (bind (for_enumerate _ 0%nat _ ?s2) _) =>
      pose proof (for_enumerate_sim body
                    (fun i => planes_agree (i * 8) s) l 0%nat s1 s2) as Hsim
  end.
  cbn beta in Hsim.
  assert (L16 : length (firstn 16 ms) = 16%nat).
  { rewrite length_firstn, Hlen. reflexivity. }
  rewrite L16 in Hsim.
  match type of Hsim with
  | ?P -> ?Q -> _ => assert (HP : P); [| assert (HQ : Q);
                                         [| specialize (Hsim HP HQ)]]
  end.
  - intros k m t1 t2 Hk Hag. cbn [Nat.add] in *.
    destruct (select_module data (Z.of_nat k)) as [md | e] eqn:Emd;
      cbn [bind same_end]; [| reflexivity].
    assert (Hk16 : (k < 16)%nat).
    { rewrite <- L16. apply nth_error_Some. congruence. }
    assert (Hmd : shape md = [] ++ [512; 128]).
    { destruct (select_module_ok data [] 16 512 128 (Z.of_nat k) Es)
        as (md' & Emd' & Hmd'); [lia |]. congruence. }
    destruct (split_rows_ok md [] 512 128 8 Hmd eq_refl)
      as (td & -> & Ltd & _).
    cbn [bind].
    assert (Hm : length m = 8%nat).
    { rewrite Forall_forall in Hmods. apply Hmods.
      apply nth_error_In in Hk.
      rewrite <- (firstn_skipn 16 ms). apply in_or_app. auto. }
    match goal with
    | |- same_end _ (for_enumerate ?body 0%nat ?l _) _ =>
        pose proof (for_enumerate_sim body
                      (fun j => planes_agree (k * 8 + j) s) l 0%nat t1 t2)
          as Hin
    end.
    cbn beta in Hin.
    rewrite length_combine, Hm, Ltd in Hin.
    change (Nat.min 8 (Z.to_nat 8)) with 8%nat in Hin.
    replace (S k * 8)%nat with (k * 8 + (0 + 8))%nat by lia.
    apply Hin.
    + intros j [t a] u1 u2 Hj Hu. cbn [fst snd Nat.add] in *.
      replace (k * 8 + S j)%nat with (S (k * 8 + j)) by lia.
      apply interpolate_tile_sim. exact Hu.
    + rewrite Nat.add_0_r. exact Hag.
  - split; [reflexivity | split; [reflexivity |]]. intros k rest Hk.
    simpl in Hk. lia.
  - cbn [Nat.add] in Hsim.
    destruct (for_enumerate _ 0%nat (firstn 16 ms)
                (NdArray s uninitialised)) as [t1 | e1];
      destruct (for_enumerate _ 0%nat (firstn 16 ms)
                  (NdArray s uninitialised')) as [t2 | e2];
      cbn [same_end bind] in *; try contradiction; [| exact Hsim].
    destruct Hsim as (H1 & H2 & H).
    unfold AGIPD_1MGeometry.nanmax_axis0. rewrite H1, H2. unfold s.
    cbn [Z.leb Z.mul Pos.mul Z.compare Pos.compare bind same_outcome shape item].
    split; [reflexivity | split; [reflexivity |]].
    intros idx. rewrite H by (simpl; lia).
    f_equal. apply map_ext_in. intros k Hk.
    apply H.
    assert (Hk' : In k (range 128)).
    { change (range 128) with (0 :: tl (range 128)). right. exact Hk. }
    apply in_map_iff in Hk'. destruct Hk' as (n & <- & Hn).
    apply in_seq in Hn. change (Z.to_nat 128) with 128%nat in Hn.
    change (16 * 8)%nat with 128%nat. lia.
Qed.

End NewMemory.

Lemma interpolation_overwrites_new_memory_witness :
  same_outcome
    (AGIPD_1MGeometry.position_modules_interpolate
       blank_resample blank_memory sample_modules sample_frame)
    (AGIPD_1MGeometry.position_modules_interpolate
       blank_resample (fun _ => Some 7%Q) sample_modules sample_frame).
Proof.
  apply (interpolation_overwrites_new_memory blank_resample blank_memory
           (fun _ => Some 7%Q) sample_modules sample_frame).
  exact (from_quad_positions_layout _ _ _ _ sample_modules_generated).
Defined.

(** The layout is needed: a geometry of one tile leaves 127 planes of the
    temporary array as they were, and the contents of the new memory show
    in the result. *)
Example partial_geometry_shows_new_memory :
  match AGIPD_1MGeometry.position_modules_interpolate
          blank_resample blank_memory single_tile_geometry sample_frame,
        AGIPD_1MGeometry.position_modules_interpolate
          blank_resample (fun _ => Some 7%Q) single_tile_geometry sample_frame
  with
  | Ok (o1, _), Ok (o2, _) => Some (item o1 [0; 0], item o2 [0; 0])
  | _, _ => None
  end = Some (nan, Some 7%Q).
Proof. vm_compute. reflexivity. Qed.

(** ** The origin of the distortion array *)

Lemma in_range (n x : Z) : In x (range n) <-> 0 <= x < n.
Proof.
  unfold range. rewrite in_map_iff. split.
  - intros (k & <- & Hk). apply in_seq in Hk. lia.
  - intros Hx. exists (Z.to_nat x). split; [lia |].
    apply in_seq. lia.
Qed.

(** A fold whose steps take minima: the result is below the start and below
    every value that a step meets, and it is the start or one of the
    values. *)
Lemma fold_min_step {X : Type} (S : X -> Q -> Prop) (step : Q -> X -> Q)
    (l : list X) :
  (forall acc x, In x l ->
     (step acc x <= acc)%Q
     /\ (forall v, S x v -> (step acc x <= v)%Q)
     /\ (step acc x == acc \/ exists v, S x v /\ step acc x == v)%Q) ->
  forall acc,
    (fold_left step l acc <= acc)%Q
    /\ (forall x v, In x l -> S x v -> (fold_left step l acc <= v)%Q)
    /\ (fold_left step l acc == acc
        \/ exists x v, In x l /\ S x v /\ fold_left step l acc == v)%Q.
Proof.
  induction l as [| y l IH]; intros Hstep acc; simpl.
  - split; [lra | split; [intros x v [] | left; reflexivity]].
  - destruct (Hstep acc y (or_introl eq_refl)) as (S1 & S2 & S3).
    destruct (IH (fun a x Hx => Hstep a x (or_intror Hx)) (step acc y))
      as (I1 & I2 & I3).
    split; [lra | split].
    + intros x v [<- | Hx] Hv.
      * specialize (S2 v Hv). lra.
      * exact (I2 x v Hx Hv).
    + destruct I3 as [E | (x & v & Hx & Hv & E)].
      * destruct S3 as [E' | (v & Hv & E')].
        -- left. rewrite E. exact E'.
        -- right. exists y, v. split; [left; reflexivity | split; [exact Hv |]].
           rewrite E. exact E'.
      * right. exists x, v. auto.
Qed.

Lemma min_coord_spec (d : AGIPD_1MGeometry.distortion) (c : Z) :
  (forall row col k, 0 <= row < 8192 -> 0 <= col < 128 -> 0 <= k < 4 ->
     (AGIPD_1MGeometry.min_coord d c <= d row col k c)%Q)
  /\ exists row col k,
       0 <= row < 8192 /\ 0 <= col < 128 /\ 0 <= k < 4
       /\ (AGIPD_1MGeometry.min_coord d c == d row col k c)%Q.
Proof.
  unfold AGIPD_1MGeometry.min_coord.
  set (S0 := fun (row col k : Z) (v : Q) => v = d row col k c).
  set (S1 := fun (row col : Z) (v : Q) =>
               exists k, In k (range 4) /\ S0 row col k v).
  set (S2 := fun (row : Z) (v : Q) =>
               exists col, In col (range 128) /\ S1 row col v).
  assert (H0 : forall row col acc k, In k (range 4) ->
     (Qmin acc (d row col k c) <= acc)%Q
     /\ (forall v, S0 row col k v -> (Qmin acc (d row col k c) <= v)%Q)
     /\ (Qmin acc (d row col k c) == acc
         \/ exists v, S0 row col k v /\ Qmin acc (d row col k c) == v)%Q).
  { intros row col acc k _. unfold S0.
    split; [apply Q.le_min_l | split].
    - intros v ->. apply Q.le_min_r.
    - destruct (Q.min_spec acc (d row col k c)) as [[_ E] | [_ E]].
      + left. exact E.
      + right. eexists. split; [reflexivity | exact E]. }
  assert (H1 : forall row acc col, In col (range 128) ->
     let r := fold_left (fun acc k => Qmin acc (d row col k c)) (range 4) acc in
     (r <= acc)%Q
     /\ (forall v, S1 row col v -> (r <= v)%Q)
     /\ (r == acc \/ exists v, S1 row col v /\ r == v)%Q).
  { intros row acc col _ r.
    destruct (fold_min_step (S0 row col) _ (range 4)
                (fun a k => H0 row col a k) acc) as (A & B & C).
    split; [exact A | split].
    - intros v (k & Hk & Hv). exact (B k v Hk Hv).
    - destruct C as [E | (k & v & Hk & Hv & E)]; [left; exact E |].
      right. exists v. split; [exists k; auto | exact E]. }
  assert (H2 : forall acc row, In row (range 8192) ->
     let r := fold_left (fun acc col =>
                fold_left (fun acc k => Qmin acc (d row col k c))
                          (range 4) acc) (range 128) acc in
     (r <= acc)%Q
     /\ (forall v, S2 row v -> (r <= v)%Q)
     /\ (r == acc \/ exists v, S2 row v /\ r == v)%Q).
  { intros acc row _ r.
    destruct (fold_min_step (S1 row) _ (range 128)
                (fun a col => H1 row a col) acc) as (A & B & C).
    split; [exact A | split].
    - intros v (col & Hcol & Hv). exact (B col v Hcol Hv).
    - destruct C as [E | (col & v & Hcol & Hv & E)]; [left; exact E |].
      right. exists v. split; [exists col; auto | exact E]. }
  destruct (fold_min_step S2 _ (range 8192) H2 (d 0 0 0 c)) as (A & B & C).
  split.
  - intros row col k Hrow Hcol Hk.
    apply (B row); [apply in_range; exact Hrow |].
    exists col. split; [apply in_range; exact Hcol |].
    exists k. split; [apply in_range; exact Hk | reflexivity].
  - destruct C as [E | (row & v & Hrow & (col & Hcol & k & Hk & Hv) & E)].
    + exists 0, 0, 0.
      split; [lia | split; [lia | split; [lia | exact E]]].
    + exists row, col, k. apply in_range in Hrow, Hcol, Hk.
      unfold S0 in Hv. subst v. auto.
Qed.

(** X16. The distortion array has its origin at the corner. Whenever
    [to_distortion_array] returns, its y and x coordinates are those that
    the loops computed, all moved by one shift each, the z coordinates are
    untouched, no y or x coordinate of the array is negative, and some y
    and some x coordinate is 0. *)
Theorem distortion_origin_at_corner (ms : fragments)
    (d : AGIPD_1MGeometry.distortion) :
  AGIPD_1MGeometry.to_distortion_array ms = Ok d ->
  (exists (d0 : AGIPD_1MGeometry.distortion) (min_y min_x : Q),
     AGIPD_1MGeometry.fill_distortion AGIPD_1MGeometry.pixel_size ms = Ok d0
     /\ forall row col k,
          d row col k 0 = d0 row col k 0
          /\ d row col k 1 = (d0 row col k 1%Z - min_y)%Q
          /\ d row col k 2 = (d0 row col k 2%Z - min_x)%Q)
  /\ (forall row col k,
        0 <= row < 8192 -> 0 <= col < 128 -> 0 <= k < 4 ->
        (0 <= d row col k 1%Z)%Q /\ (0 <= d row col k 2%Z)%Q)
  /\ (exists row col k,
        0 <= row < 8192 /\ 0 <= col < 128 /\ 0 <= k < 4
        /\ (d row col k 1%Z == 0)%Q)
  /\ (exists row col k,
        0 <= row < 8192 /\ 0 <= col < 128 /\ 0 <= k < 4
        /\ (d row col k 2%Z == 0)%Q).
Proof.
  unfold AGIPD_1MGeometry.to_distortion_array,
    AGIPD_1MGeometry.to_distortion_array_at.
  intros H.
  destruct (AGIPD_1MGeometry.fill_distortion _ ms) as [d0 |];
    cbn [bind] in H; [| discriminate].
  injection H as <-.
  destruct (min_coord_spec d0 1) as (Ly & ry & cy & ky & Hry & Hcy & Hky & Ey).
  destruct (min_coord_spec d0 2) as (Lx & rx & cx & kx & Hrx & Hcx & Hkx & Ex).
  unfold AGIPD_1MGeometry.shift_origin.
  split; [| split; [| split]].
  - exists d0, (AGIPD_1MGeometry.min_coord d0 1),
      (AGIPD_1MGeometry.min_coord d0 2).
    split; [reflexivity |]. intros row col k.
    repeat split; reflexivity.
  - intros row col k Hrow Hcol Hk.
    specialize (Ly row col k Hrow Hcol Hk).
    specialize (Lx row col k Hrow Hcol Hk).
    cbn [Z.eqb Pos.eqb]. split; lra.
  - exists ry, cy, ky. cbn [Z.eqb Pos.eqb].
    split; [exact Hry | split; [exact Hcy | split; [exact Hky |]]]. lra.
  - exists rx, cx, kx. cbn [Z.eqb Pos.eqb].
    split; [exact Hrx | split; [exact Hcx | split; [exact Hkx |]]]. lra.
Qed.

(** ** The contents of the distortion array *)

Lemma set_tile_coord_ok (d : AGIPD_1MGeometry.distortion) (start c : Z)
    (value : Z -> Z -> Z -> Q) :
  0 <= start <= 8128 ->
  AGIPD_1MGeometry.set_tile_coord d start (start + 64) c value
  = Ok (fun row col k coord =>
          if (start <=? row) && (row <? start + 64) && (coord =? c)
          then value (row - start) col k
          else d row col k coord).
Proof.
  intros Hs. unfold AGIPD_1MGeometry.set_tile_coord, slice_bounds, clip_index.
  assert (E1 : (start <? 0) = false) by (apply Z.ltb_ge; lia).
  assert (E2 : (start + 64 <? 0) = false) by (apply Z.ltb_ge; lia).
  rewrite E1, E2.
  rewrite (Z.min_l start 8192) by lia.
  rewrite (Z.min_l (start + 64) 8192) by lia.
  replace (start + 64 - start) with 64 by lia.
  reflexivity.
Qed.

(** The rows of the distortion array that belong to tile [t] of module
    [m]. *)
Lemma tile_rows_disjoint (m t m' t' : nat) (i : Z) :
  (t < 8)%nat -> (t' < 8)%nat -> 0 <= i < 64 ->
  (m, t) <> (m', t') ->
  (Z.of_nat m' * 512 + Z.of_nat t' * 64
     <=? Z.of_nat m * 512 + Z.of_nat t * 64 + i)
  && (Z.of_nat m * 512 + Z.of_nat t * 64 + i
        <? Z.of_nat m' * 512 + Z.of_nat t' * 64 + 64) = false.
Proof.
  intros Ht Ht' Hi Hne.
  apply andb_false_iff.
  destruct (Z.leb_spec (Z.of_nat m' * 512 + Z.of_nat t' * 64)
                       (Z.of_nat m * 512 + Z.of_nat t * 64 + i));
    [| left; reflexivity].
  right. apply Z.ltb_ge.
  assert (m <> m' \/ t <> t') as [N | N].
  { destruct (Nat.eq_dec m m'); [| left; assumption].
    destruct (Nat.eq_dec t t'); [| right; assumption]. subst. congruence. }
  - lia.
  - lia.
Qed.

(** What the loops write for one tile: its 64 rows, the three coordinates. *)
Lemma tile_step_spec (pixel_size : Q) (m t : nat) (tile : GeometryFragment)
    (d : AGIPD_1MGeometry.distortion) :
  (m < 16)%nat -> (t < 8)%nat -> ss_pixels tile = 64 ->
  let c := v3scale (corner_pos tile) pixel_size in
  let ss_unit := v3scale (ss_vec tile) pixel_size in
  let fs_unit := v3scale (fs_vec tile) pixel_size in
  let tile_offset := Z.of_nat m * 512 + Z.of_nat t * 64 in
  let stop := tile_offset + ss_pixels tile in
  exists d',
    (d1 <- AGIPD_1MGeometry.set_tile_coord d tile_offset stop 0
             (AGIPD_1MGeometry.pixel_corners (vz c) (vz ss_unit) (vz fs_unit)) ;;
     d2 <- AGIPD_1MGeometry.set_tile_coord d1 tile_offset stop 1
             (AGIPD_1MGeometry.pixel_corners (vy c) (vy ss_unit) (vy fs_unit)) ;;
     AGIPD_1MGeometry.set_tile_coord d2 tile_offset stop 2
       (AGIPD_1MGeometry.pixel_corners (vx c) (vx ss_unit) (vx fs_unit)))
    = Ok d'
    /\ (forall i col k, 0 <= i < 64 ->
          d' (tile_offset + i) col k 0
          = AGIPD_1MGeometry.pixel_corners (vz c) (vz ss_unit) (vz fs_unit)
              i col k
          /\ d' (tile_offset + i) col k 1
             = AGIPD_1MGeometry.pixel_corners (vy c) (vy ss_unit) (vy fs_unit)
                 i col k
          /\ d' (tile_offset + i) col k 2
             = AGIPD_1MGeometry.pixel_corners (vx c) (vx ss_unit) (vx fs_unit)
                 i col k)
    /\ (forall row col k coord,
          (tile_offset <=? row) && (row <? tile_offset + 64) = false ->
          d' row col k coord = d row col k coord).
Proof.
  intros Hm Ht Hss c ss_unit fs_unit tile_offset stop.
  assert (Hoff : 0 <= tile_offset <= 8128) by (unfold tile_offset; lia).
  unfold stop. rewrite Hss.
  rewrite !set_tile_coord_ok by exact Hoff. cbn [bind].
  rewrite !set_tile_coord_ok by exact Hoff. cbn [bind].
  rewrite !set_tile_coord_ok by exact Hoff.
  eexists. split; [reflexivity | split].
  - intros i col k Hi. cbv beta.
    assert (E1 : (tile_offset <=? tile_offset + i) = true)
      by (apply Z.leb_le; lia).
    assert (E2 : (tile_offset + i <? tile_offset + 64) = true)
      by (apply Z.ltb_lt; lia).
    rewrite E1, E2. cbn [andb Z.eqb Pos.eqb].
    replace (tile_offset + i - tile_offset) with i by lia.
    repeat split; reflexivity.
  - intros row col k coord E. cbv beta. rewrite E. reflexivity.
Qed.


Lemma fits_tile (ms : fragments) (m t : nat) (mod_ : list GeometryFragment)
    (tile : GeometryFragment) :
  fits_distortion_array ms ->
  nth_error ms m = Some mod_ -> nth_error mod_ t = Some tile ->
  (m < 16)%nat /\ (t < 8)%nat /\ ss_pixels tile = 64.
Proof.
  intros [Hlen Hall] Hm Ht.
  assert (Lm : (m < length ms)%nat) by (apply nth_error_Some; congruence).
  assert (Lt : (t < length mod_)%nat) by (apply nth_error_Some; congruence).
  rewrite Forall_forall in Hall.
  destruct (Hall mod_ (nth_error_In _ _ Hm)) as [L8 Hss].
  rewrite Forall_forall in Hss.
  split; [lia | split; [lia |]].
  exact (Hss tile (nth_error_In _ _ Ht)).
Qed.


Lemma fill_distortion_spec (pixel_size : Q) (ms : fragments) :
  fits_distortion_array ms ->
  exists d,
    AGIPD_1MGeometry.fill_distortion pixel_size ms = Ok d
    /\ forall (m t : nat) (mod_ : list GeometryFragment)
         (tile : GeometryFragment),
         nth_error ms m = Some mod_ -> nth_error mod_ t = Some tile ->
         holds_tile pixel_size m t tile d.
Proof.
  intros Hfit. unfold AGIPD_1MGeometry.fill_distortion.
  match goal with
  | |- context [for_enumerate ?body 0%nat ms ?s] =>
      set (outer := body); set (d0 := s)
  end.
  (* every step of the inner loop succeeds, and touches only its rows *)
  assert (Hstep : forall m t mod_ tile s0,
            nth_error ms m = Some mod_ -> nth_error mod_ t = Some tile ->
            exists s1,
              (fun t tile d =>
                 let c := v3scale (corner_pos tile) pixel_size in
                 let ss_unit := v3scale (ss_vec tile) pixel_size in
                 let fs_unit := v3scale (fs_vec tile) pixel_size in
                 let corners_x :=
                   AGIPD_1MGeometry.pixel_corners (vx c) (vx ss_unit)
                                                  (vx fs_unit) in
                 let corners_y :=
                   AGIPD_1MGeometry.pixel_corners (vy c) (vy ss_unit)
                                                  (vy fs_unit) in
                 let corners_z :=
                   AGIPD_1MGeometry.pixel_corners (vz c) (vz ss_unit)
                                                  (vz fs_unit) in
                 let tile_offset := Z.of_nat m * 512 + Z.of_nat t * 64 in
                 let stop := tile_offset + ss_pixels tile in
                 d <- AGIPD_1MGeometry.set_tile_coord d tile_offset stop 0
                        corners_z ;;
                 d <- AGIPD_1MGeometry.set_tile_coord d tile_offset stop 1
                        corners_y ;;
                 AGIPD_1MGeometry.set_tile_coord d tile_offset stop 2 corners_x)
                t tile s0 = Ok s1
              /\ holds_tile pixel_size m t tile s1
              /\ forall m' t' tile', (t' < 8)%nat -> (m', t') <> (m, t) ->
                    holds_tile pixel_size m' t' tile' s0 ->
                    holds_tile pixel_size m' t' tile' s1).
  { intros m t mod_ tile s0 Hm Ht.
    destruct (fits_tile ms m t mod_ tile Hfit Hm Ht) as (Lm & Lt & Hss).
    destruct (tile_step_spec pixel_size m t tile s0 Lm Lt Hss)
      as (s1 & E & Hc & Hf).
    exists s1. split; [exact E | split].
    - intros i col k Hi. exact (Hc i col k Hi).
    - intros m' t' tile' Lt' Hne Hold i col k Hi. cbv zeta.
      rewrite !Hf by (apply tile_rows_disjoint; assumption).
      exact (Hold i col k Hi). }
  (* the inner loop, for one module *)
  assert (Hinner : forall m mod_ s0,
            nth_error ms m = Some mod_ ->
            exists s1,
              outer m mod_ s0 = Ok s1
              /\ (forall t tile, nth_error mod_ t = Some tile ->
                    holds_tile pixel_size m t tile s1)
              /\ forall m' t' tile', (t' < 8)%nat -> m' <> m ->
                    holds_tile pixel_size m' t' tile' s0 ->
                    holds_tile pixel_size m' t' tile' s1).
  { intros m mod_ s0 Hm. unfold outer.
    match goal with
    | |- context [for_enumerate ?body 0%nat mod_ s0] => set (inner := body)
    end.
    destruct (for_enumerate_ok inner (fun _ => True) mod_ 0%nat s0)
      as (s1 & E & _); [| exact I |].
    { intros t tile s Ht _. cbn [Nat.add].
      destruct (Hstep m t mod_ tile s Hm Ht) as (s' & E & _).
      exists s'. split; [exact E | exact I]. }
    exists s1. split; [exact E | split].
    - intros t tile Ht.
      refine (for_enumerate_establish inner (fun _ => True)
                (holds_tile pixel_size m t tile) mod_ t 0%nat tile s0 s1
                Ht _ _ _ E I).
      + auto.
      + intros u0 u1 Hb _. cbn [Nat.add] in Hb.
        destruct (Hstep m t mod_ tile u0 Hm Ht) as (u' & E' & Hc & _).
        assert (Eu : Ok u1 = Ok u') by (rewrite <- Hb; exact E').
        injection Eu as ->. exact Hc.
      + intros t' tile' u0 u1 Hne Ht' Hb _ Hold. cbn [Nat.add] in Hb.
        destruct (Hstep m t' mod_ tile' u0 Hm Ht') as (u' & E' & _ & Hf).
        assert (Eu : Ok u1 = Ok u') by (rewrite <- Hb; exact E').
        injection Eu as ->.
        destruct (fits_tile ms m t mod_ tile Hfit Hm Ht) as (_ & Lt & _).
        apply Hf; [exact Lt | congruence | exact Hold].
    - intros m' t' tile' Lt' Hne.
      refine (for_enumerate_preserves_in inner
                (holds_tile pixel_size m' t' tile') mod_ 0%nat s0 s1 _ E).
      intros t tile u0 u1 Ht Hb Hold. cbn [Nat.add] in Hb.
      destruct (Hstep m t mod_ tile u0 Hm Ht) as (u' & E' & _ & Hf).
      assert (Eu : Ok u1 = Ok u') by (rewrite <- Hb; exact E').
      injection Eu as ->.
      apply Hf; [exact Lt' | congruence | exact Hold]. }
  destruct (for_enumerate_ok outer (fun _ => True) ms 0%nat d0)
    as (d & E & _); [| exact I |].
  { intros m mod_ s Hm _. cbn [Nat.add].
    destruct (Hinner m mod_ s Hm) as (s' & E & _).
    exists s'. split; [exact E | exact I]. }
  exists d. split; [exact E |].
  intros m t mod_ tile Hm Ht.
  destruct (fits_tile ms m t mod_ tile Hfit Hm Ht) as (_ & Lt & _).
  refine (for_enumerate_establish outer (fun _ => True)
            (holds_tile pixel_size m t tile) ms m 0%nat mod_ d0 d
            Hm _ _ _ E I).
  - auto.
  - intros u0 u1 Hb _. cbn [Nat.add] in Hb.
    destruct (Hinner m mod_ u0 Hm) as (u' & E' & Hc & _).
    rewrite Hb in E'. injection E' as ->. exact (Hc t tile Ht).
  - intros m' mod' u0 u1 Hne Hm' Hb _ Hold. cbn [Nat.add] in Hb.
    destruct (Hinner m' mod' u0 Hm') as (u' & E' & _ & Hf).
    rewrite Hb in E'. injection E' as ->.
    apply Hf; [exact Lt | congruence | exact Hold].
Qed.

(** X17. The distortion array holds the corners of every pixel. For a geometry
    that fits the array (at most 16 modules of at most 8 tiles of 64 rows)
    the loops of [to_distortion_array] succeed, and for every tile [t] of
    every module [m] the row [512 m + 64 t + i], column [j] and corner [k]
    of the array hold, as z, y and x, the tile's corner plus [i] slow-scan
    and [j] fast-scan steps moved by the offsets of corner [k], in
    metres. *)
Theorem distortion_holds_pixel_corners (pixel_size : Q) (ms : fragments) :
  fits_distortion_array ms ->
  exists d,
    AGIPD_1MGeometry.fill_distortion pixel_size ms = Ok d
    /\ forall (m t : nat) (mod_ : list GeometryFragment)
         (tile : GeometryFragment) (i j k : Z),
         nth_error ms m = Some mod_ -> nth_error mod_ t = Some tile ->
         0 <= i < 64 -> 0 <= j < 128 -> 0 <= k < 4 ->
         let row := Z.of_nat m * 512 + Z.of_nat t * 64 + i in
         (d row j k 0%Z
          == corner_coordinate pixel_size (vz (corner_pos tile))
               (vz (ss_vec tile)) (vz (fs_vec tile)) i j k)%Q
         /\ (d row j k 1%Z
             == corner_coordinate pixel_size (vy (corner_pos tile))
                  (vy (ss_vec tile)) (vy (fs_vec tile)) i j k)%Q
         /\ (d row j k 2%Z
             == corner_coordinate pixel_size (vx (corner_pos tile))
                  (vx (ss_vec tile)) (vx (fs_vec tile)) i j k)%Q.
Proof.
  intros Hfit.
  destruct (fill_distortion_spec pixel_size ms Hfit) as (d & E & H).
  exists d. split; [exact E |].
  intros m t mod_ tile i j k Hm Ht Hi _ _ row.
  destruct (H m t mod_ tile Hm Ht i j k Hi) as (Hz & Hy & Hx).
  cbv zeta in Hz, Hy, Hx. unfold row.
  rewrite Hz, Hy, Hx.
  unfold corner_coordinate, AGIPD_1MGeometry.pixel_corners, v3scale.
  cbn [vx vy vz].
  repeat split; ring.
Qed.

Lemma distortion_holds_pixel_corners_witness :
  exists d,
    AGIPD_1MGeometry.fill_distortion AGIPD_1MGeometry.pixel_size sample_modules
    = Ok d
    /\ forall (m t : nat) (mod_ : list GeometryFragment)
         (tile : GeometryFragment) (i j k : Z),
         nth_error sample_modules m = Some mod_ ->
         nth_error mod_ t = Some tile ->
         0 <= i < 64 -> 0 <= j < 128 -> 0 <= k < 4 ->
         let row := Z.of_nat m * 512 + Z.of_nat t * 64 + i in
         (d row j k 0%Z
          == corner_coordinate AGIPD_1MGeometry.pixel_size
               (vz (corner_pos tile))
               (vz (ss_vec tile)) (vz (fs_vec tile)) i j k)%Q
         /\ (d row j k 1%Z
             == corner_coordinate AGIPD_1MGeometry.pixel_size
                  (vy (corner_pos tile))
                  (vy (ss_vec tile)) (vy (fs_vec tile)) i j k)%Q
         /\ (d row j k 2%Z
             == corner_coordinate AGIPD_1MGeometry.pixel_size
                  (vx (corner_pos tile))
                  (vx (ss_vec tile)) (vx (fs_vec tile)) i j k)%Q.
Proof.
  apply (distortion_holds_pixel_corners AGIPD_1MGeometry.pixel_size
           sample_modules).
  split; [simpl; lia |].
  repeat (apply Forall_cons;
          [split; [simpl; lia | repeat constructor] |]).
  apply Forall_nil.
Defined.

Lemma distortion_origin_at_corner_witness :
  exists d : AGIPD_1MGeometry.distortion,
    AGIPD_1MGeometry.to_distortion_array single_tile_geometry = Ok d
    /\ (exists (d0 : AGIPD_1MGeometry.distortion) (min_y min_x : Q),
          AGIPD_1MGeometry.fill_distortion AGIPD_1MGeometry.pixel_size
            single_tile_geometry = Ok d0
          /\ forall row col k,
               d row col k 0 = d0 row col k 0
               /\ d row col k 1 = (d0 row col k 1%Z - min_y)%Q
               /\ d row col k 2 = (d0 row col k 2%Z - min_x)%Q)
    /\ (forall row col k,
          0 <= row < 8192 -> 0 <= col < 128 -> 0 <= k < 4 ->
          (0 <= d row col k 1%Z)%Q /\ (0 <= d row col k 2%Z)%Q)
    /\ (exists row col k,
          0 <= row < 8192 /\ 0 <= col < 128 /\ 0 <= k < 4
          /\ (d row col k 1%Z == 0)%Q)
    /\ (exists row col k,
          0 <= row < 8192 /\ 0 <= col < 128 /\ 0 <= k < 4
          /\ (d row col k 2%Z == 0)%Q).
Proof.
  eexists. split; [reflexivity |].
  apply (distortion_origin_at_corner single_tile_geometry). reflexivity.
Defined.

(** ** Rounding keeps tiles apart *)

Lemma Qfloor_bounds (q : Q) :
  (inject_Z (Qfloor q) <= q < inject_Z (Qfloor q) + 1)%Q.
Proof.
  split; [apply Qfloor_le |].
  pose proof (Qlt_floor q) as H. rewrite inject_Z_plus in H. exact H.
Qed.

Lemma Qfloor_unique (q : Q) (z : Z) :
  (inject_Z z <= q < inject_Z z + 1)%Q -> Qfloor q = z.
Proof.
  intros [H1 H2]. destruct (Qfloor_bounds q) as [F1 F2].
  assert (A : (inject_Z z < inject_Z (Qfloor q + 1))%Q)
    by (rewrite inject_Z_plus; change (inject_Z 1) with 1%Q; lra).
  assert (B : (inject_Z (Qfloor q) < inject_Z (z + 1))%Q)
    by (rewrite inject_Z_plus; change (inject_Z 1) with 1%Q; lra).
  rewrite <- Zlt_Qlt in A, B. lia.
Qed.

Lemma around_mono (q q' : Q) : (q <= q')%Q -> around q <= around q'.
Proof.
  intros H. pose proof (Qfloor_resp_le _ _ H) as Hf.
  destruct (Qfloor_bounds q) as [F1 F2], (Qfloor_bounds q') as [G1 G2].
  unfold around.
  remember (Qfloor q) as f eqn:Ef. remember (Qfloor q') as f' eqn:Ef'.
  clear Ef Ef'.
  assert (Hcase : f = f' \/ f + 1 <= f') by lia.
  destruct Hcase as [-> | Hlt].
  - destruct (Qcompare_spec (q - inject_Z f') (1 # 2)) as [E | L | G];
      destruct (Qcompare_spec (q' - inject_Z f') (1 # 2)) as [E' | L' | G'];
      destruct (Z.even f'); try lia; lra.
  - destruct (q - inject_Z f ?= 1 # 2)%Q, (q' - inject_Z f' ?= 1 # 2)%Q;
      destruct (Z.even f), (Z.even f'); lia.
Qed.

(** Moving a number by an even integer moves its rounding by as much. *)
Lemma around_shift_even (q : Q) (n : Z) :
  Z.even n = true -> around (q + inject_Z n) = around q + n.
Proof.
  intros Hn. destruct (Qfloor_bounds q) as [F1 F2].
  assert (Ef : Qfloor (q + inject_Z n) = Qfloor q + n).
  { apply Qfloor_unique. rewrite inject_Z_plus. lra. }
  unfold around. rewrite Ef.
  assert (Ec : ((q + inject_Z n - inject_Z (Qfloor q + n) ?= 1 # 2)
                = (q - inject_Z (Qfloor q) ?= 1 # 2))%Q).
  { apply Qcompare_comp; [| reflexivity]. rewrite inject_Z_plus. ring. }
  rewrite Ec, Z.even_add, Hn.
  destruct (q - inject_Z (Qfloor q) ?= 1 # 2)%Q; try lia.
  destruct (Z.even (Qfloor q)); simpl; lia.
Qed.

(** Two numbers at least an even integer apart are rounded at least as far
    apart. *)
Lemma around_apart (q q' : Q) (n : Z) :
  Z.even n = true -> (q + inject_Z n <= q')%Q -> around q + n <= around q'.
Proof.
  intros Hn H. rewrite <- (around_shift_even q n Hn). apply around_mono, H.
Qed.

(** Tiles of width [w] at a pitch of [w + g], for a gap [g] that is not
    negative, are at least [w] apart. *)
Lemma pitch_apart (w g : Q) (a a' : Z) :
  (0 <= w)%Q -> (0 <= g)%Q -> a < a' ->
  ((w + g) * inject_Z a + w <= (w + g) * inject_Z a')%Q.
Proof.
  intros Hw Hg Ha.
  assert (H1 : (inject_Z a + 1 <= inject_Z a')%Q).
  { change 1%Q with (inject_Z 1). rewrite <- inject_Z_plus, <- Zle_Qle. lia. }
  nra.
Qed.

Lemma Forall2_nth_r {A B : Type} (R : A -> B -> Prop) (l : list A)
    (l' : list B) (k : nat) (b : B) :
  Forall2 R l l' -> nth_error l' k = Some b ->
  exists a, nth_error l k = Some a /\ R a b.
Proof.
  intros H. revert k. induction H as [| a b' l l' Hab _ IH]; intros k Hk.
  - destruct k; discriminate.
  - destruct k as [| k]; simpl in *.
    + injection Hk as <-. eauto.
    + exact (IH k Hk).
Qed.

(** A tile of the snapped geometry is the snapped tile of the same place. *)
Lemma snapped_tile_at (self : DetectorGeometry) (sg : SnappedGeometry)
    (m t : nat) (g : GridGeometryFragment) :
  DetectorGeometryBase.compute_snapped self = Ok sg ->
  tile_at sg m t = Some g ->
  exists mod_ tile,
    nth_error (modules self) m = Some mod_
    /\ nth_error mod_ t = Some tile
    /\ GeometryFragment.snap tile = Ok g.
Proof.
  unfold DetectorGeometryBase.compute_snapped, tile_at. intros H Hg.
  destruct (comprehension _ (modules self)) as [nm |] eqn:E;
    [| discriminate].
  injection H as <-. cbn [s_modules] in Hg.
  apply comprehension_Forall2 in E.
  destruct (nth_error nm m) as [smod |] eqn:Em; [| discriminate].
  destruct (Forall2_nth_r _ _ _ _ _ E Em) as (mod_ & Hm & Hs).
  cbv beta in Hs. apply comprehension_Forall2 in Hs.
  destruct (Forall2_nth_r _ _ _ _ _ Hs Hg) as (tile & Ht & Hsnap).
  eauto.
Qed.

(** The tile at place [t] of module [m] of a generated AGIPD-1M geometry. *)
Lemma agipd_generated_nth (quad_pos : list qvec2) (asic_gap panel_gap : Q)
    (ms : fragments) (m t : nat) (mod_ : list GeometryFragment)
    (tile : GeometryFragment) :
  AGIPD_1MGeometry.from_quad_positions quad_pos asic_gap panel_gap = Ok ms ->
  nth_error ms m = Some mod_ -> nth_error mod_ t = Some tile ->
  exists (qc : qvec2) (xo yo : Z),
    nth_error quad_pos (m / 4) = Some qc
    /\ (m < 16)%nat /\ (t < 8)%nat
    /\ nth_error [1; 1; -1; -1] (m / 4) = Some xo
    /\ ((xo = 1 /\ yo = -1) \/ (xo = -1 /\ yo = 1))
    /\ tile = MkFragment
                (V3 (fst qc + inject_Z xo * (64 + asic_gap)
                              * inject_Z (Z.of_nat t))
                    (snd qc - inject_Z (Z.of_nat (m mod 4))
                              * (128 + panel_gap))
                    0)
                (V3 (inject_Z xo) 0 0) (V3 0 (inject_Z yo) 0) 64 128.
Proof.
  intros H Hm Ht. unfold AGIPD_1MGeometry.from_quad_positions in H.
  cbv zeta in H. apply comprehension_Forall2 in H.
  destruct (Forall2_nth_r _ _ _ _ _ H Hm) as (p & Hp & Hb).
  cbv beta in Hb.
  rewrite nth_error_range in Hp.
  destruct (m <? Z.to_nat 16)%nat eqn:L16; [| discriminate].
  apply Nat.ltb_lt in L16. change (Z.to_nat 16) with 16%nat in L16.
  injection Hp as <-.
  assert (Eq4 : Z.of_nat m / 4 = Z.of_nat (m / 4))
    by (rewrite Nat2Z.inj_div; reflexivity).
  assert (Em4 : Z.of_nat m mod 4 = Z.of_nat (m mod 4))
    by (rewrite Nat2Z.inj_mod; reflexivity).
  rewrite Eq4, Em4 in Hb.
  assert (Hj : (m / 4 < 4)%nat)
    by (apply Nat.Div0.div_lt_upper_bound; lia).
  destruct (getitem quad_pos (Z.of_nat (m / 4))) as [qc |] eqn:Eqc;
    [| discriminate].
  cbn [bind] in Hb.
  destruct (getitem_ok [1; 1; -1; -1] (m / 4) Hj) as (xo & E1 & N1).
  destruct (getitem_ok [-1; -1; 1; 1] (m / 4) Hj) as (yo & E2 & N2).
  rewrite E1, E2 in Hb. cbn [bind] in Hb.
  rewrite comprehension_total in Hb.
  match type of Hb with Ok ?x = Ok _ => assert (Em : x = mod_) by congruence end.
  rewrite <- Em in Ht. rewrite nth_error_map, nth_error_range in Ht.
  destruct (t <? Z.to_nat 8)%nat eqn:L8; [| discriminate].
  apply Nat.ltb_lt in L8. change (Z.to_nat 8) with 8%nat in L8.
  cbn [option_map] in Ht. injection Ht as <-.
  exists qc, xo, yo.
  split.
  { destruct (nth_error quad_pos (m / 4)) as [qc' |] eqn:En.
    - rewrite (getitem_nth _ _ _ En) in Eqc. congruence.
    - apply nth_error_None in En.
      rewrite getitem_beyond in Eqc by exact En. discriminate. }
  split; [exact L16 | split; [exact L8 | split; [exact N1 |
    split; [| reflexivity]]]].
  clear Eqc Hb Eq4 Em E1 E2.
  destruct (m / 4)%nat as [| [| [| [| j]]]]; [| | | | lia];
    simpl in N1, N2; injection N1 as <-; injection N2 as <-; auto.
Qed.

(** The placement rectangle of a snapped AGIPD-1M tile, for the two
    orientations that the generator uses. *)
Lemma agipd_snapped_block (cx cy : Q) (xo yo : Z) (g : GridGeometryFragment) :
  (xo = 1 /\ yo = -1) \/ (xo = -1 /\ yo = 1) ->
  GeometryFragment.snap
    (MkFragment (V3 cx cy 0) (V3 (inject_Z xo) 0 0) (V3 0 (inject_Z yo) 0)
                64 128) = Ok g ->
  pixel_dims g = (128, 64)
  /\ opp_corner_idx g = z2add (corner_idx g) (128, 64)
  /\ corner_idx g
     = (if xo =? 1 then (around cy - 128, around cx)
        else (around cy, around cx - 64)).
Proof.
  intros Ho H.
  unfold GeometryFragment.snap, GeometryFragment.rounded_corner,
    GeometryFragment.rounded_ss, GeometryFragment.rounded_fs, around2, first2
    in H.
  cbn [corner_pos ss_vec fs_vec ss_pixels fs_pixels vx vy fst snd] in H.
  change (around 0) with 0 in H.
  remember (around cx) as rcx eqn:Ex. remember (around cy) as rcy eqn:Ey.
  clear Ex Ey.
  destruct Ho as [[-> ->] | [-> ->]];
    cbv -[Z.add] in H; injection H as <-; cbn [pixel_dims corner_idx
      opp_corner_idx z2add fst snd Z.eqb Pos.eqb];
    (split; [reflexivity | split; [reflexivity |]]);
    f_equal; lia.
Qed.

Lemma rows_apart (qy pg : Q) (k k' : Z) :
  (0 <= pg)%Q -> k < k' ->
  around (qy - inject_Z k' * (128 + pg)) + 128
  <= around (qy - inject_Z k * (128 + pg)).
Proof.
  intros Hg Hk. apply around_apart; [reflexivity |].
  pose proof (pitch_apart 128 pg k k' ltac:(lra) Hg Hk) as H.
  change (inject_Z 128) with 128%Q. lra.
Qed.

Lemma cols_apart (qx ag : Q) (xo a a' : Z) :
  (0 <= ag)%Q -> a < a' ->
  (xo = 1 ->
   around (qx + inject_Z xo * (64 + ag) * inject_Z a) + 64
   <= around (qx + inject_Z xo * (64 + ag) * inject_Z a'))
  /\ (xo = -1 ->
      around (qx + inject_Z xo * (64 + ag) * inject_Z a') + 64
      <= around (qx + inject_Z xo * (64 + ag) * inject_Z a)).
Proof.
  intros Hg Ha.
  pose proof (pitch_apart 64 ag a a' ltac:(lra) Hg Ha) as H.
  split; intros ->; (apply around_apart; [reflexivity |]).
  - change (inject_Z 64) with 64%Q. change (inject_Z 1) with 1%Q. lra.
  - change (inject_Z 64) with 64%Q. change (inject_Z (-1)) with (-1)%Q. lra.
Qed.


(** With exact sums and unbounded rounding, the tiles of a quadrant of a
    generated AGIPD-1M geometry stay apart when they are snapped, for gaps
    that are not negative. *)
Lemma agipd_quadrant_tiles_apart (quad_pos : list qvec2)
    (asic_gap panel_gap : Q) (ms : fragments) (sg : SnappedGeometry) :
  (0 <= asic_gap)%Q -> (0 <= panel_gap)%Q ->
  AGIPD_1MGeometry.from_quad_positions quad_pos asic_gap panel_gap = Ok ms ->
  DetectorGeometryBase.compute_snapped (DetectorGeometryBase.init AGIPD_1M ms)
  = Ok sg ->
  tiles_disjoint_in_quadrants sg.
Proof.
  intros Hag Hpg Hms Hsg m t m' t' g g' r c Hg Hg' Hquad Hne [B B'].
  destruct (snapped_tile_at _ sg m t g Hsg Hg) as (mod_ & tile & Hm & Ht & Hs).
  destruct (snapped_tile_at _ sg m' t' g' Hsg Hg')
    as (mod' & tile' & Hm' & Ht' & Hs').
  cbn [modules DetectorGeometryBase.init] in Hm, Hm'.
  destruct (agipd_generated_nth _ _ _ ms m t mod_ tile Hms Hm Ht)
    as (qc & xo & yo & Hqc & Lm & Lt & Hxo & Ho & ->).
  destruct (agipd_generated_nth _ _ _ ms m' t' mod' tile' Hms Hm' Ht')
    as (qc' & xo' & yo' & Hqc' & Lm' & Lt' & Hxo' & Ho' & ->).
  rewrite <- Hquad in Hqc', Hxo'.
  assert (qc' = qc) by congruence. assert (xo' = xo) by congruence.
  subst qc' xo'.
  destruct (agipd_snapped_block _ _ xo yo g Ho Hs) as (_ & Eo & Ec).
  destruct (agipd_snapped_block _ _ xo yo' g' Ho' Hs') as (_ & Eo' & Ec').
  unfold in_block in B, B'. rewrite Eo in B. rewrite Eo' in B'.
  rewrite Ec in B. rewrite Ec' in B'.
  cbn [z2add fst snd] in B, B'.
  assert (Hcase : (m mod 4 < m' mod 4)%nat \/ (m' mod 4 < m mod 4)%nat
                  \/ (m = m' /\ (t < t')%nat) \/ (m = m' /\ (t' < t)%nat)).
  { destruct (Nat.lt_total (m mod 4) (m' mod 4)) as [L | [E | L]]; auto.
    assert (m = m').
    { rewrite (Nat.div_mod_eq m 4), (Nat.div_mod_eq m' 4). lia. }
    subst m'.
    destruct (Nat.lt_total t t') as [L | [E' | L]]; auto.
    subst t'. congruence. }
  assert (Hx : xo = 1 \/ xo = -1) by (destruct Ho as [[? _] | [? _]]; auto).
  destruct Hcase as [L | [L | [[-> L] | [-> L]]]].
  - pose proof (rows_apart (snd qc) panel_gap (Z.of_nat (m mod 4))
                  (Z.of_nat (m' mod 4)) Hpg ltac:(lia)) as R.
    destruct Hx as [-> | ->]; cbn [Z.eqb Pos.eqb fst snd] in B, B'; lia.
  - pose proof (rows_apart (snd qc) panel_gap (Z.of_nat (m' mod 4))
                  (Z.of_nat (m mod 4)) Hpg ltac:(lia)) as R.
    destruct Hx as [-> | ->]; cbn [Z.eqb Pos.eqb fst snd] in B, B'; lia.
  - destruct (cols_apart (fst qc) asic_gap xo (Z.of_nat t) (Z.of_nat t')
                Hag ltac:(lia)) as [C1 C2].
    destruct Hx as [-> | ->]; cbn [Z.eqb Pos.eqb fst snd] in B, B';
      [specialize (C1 eq_refl) | specialize (C2 eq_refl)]; lia.
  - destruct (cols_apart (fst qc) asic_gap xo (Z.of_nat t') (Z.of_nat t)
                Hag ltac:(lia)) as [C1 C2].
    destruct Hx as [-> | ->]; cbn [Z.eqb Pos.eqb fst snd] in B, B';
      [specialize (C1 eq_refl) | specialize (C2 eq_refl)]; lia.
Qed.

(** The tile at place [t] of module [m] of a generated LPD-1M geometry:
    the module sits at column [across_p] and row [up_p] of its quadrant,
    the tile at column [across] and row [up] of its module. *)
Lemma lpd_generated_nth (quad_pos : list qvec2) (asic_gap panel_gap : Q)
    (ms : fragments) (m t : nat) (mod_ : list GeometryFragment)
    (tile : GeometryFragment) :
  LPD_1MGeometry.from_quad_positions quad_pos asic_gap panel_gap = Ok ms ->
  nth_error ms m = Some mod_ -> nth_error mod_ t = Some tile ->
  exists (qc : qvec2) (across_p up_p up across : Z),
    nth_error quad_pos (m / 4) = Some qc
    /\ (m < 16)%nat /\ (t < 16)%nat
    /\ nth_error [0; 0; 1; 1] (m mod 4) = Some across_p
    /\ nth_error [0; -1; -1; 0] (m mod 4) = Some up_p
    /\ (up, across) = (if Z.of_nat t <? 8 then (- Z.of_nat t, 0)
                       else (- (15 - Z.of_nat t), 1))
    /\ tile = MkFragment
                (V3 (fst qc + inject_Z across_p * (256 + asic_gap + panel_gap)
                     + (inject_Z 128 + asic_gap) * inject_Z across)
                    (snd qc
                     + inject_Z up_p * (256 + 7 * asic_gap + panel_gap)
                     - inject_Z 32 + (inject_Z 32 + asic_gap) * inject_Z up)
                    0)
                (V3 0 1 0) (V3 1 0 0) 32 128.
Proof.
  intros H Hm Ht. unfold LPD_1MGeometry.from_quad_positions in H.
  cbv zeta in H. apply comprehension_Forall2 in H.
  destruct (Forall2_nth_r _ _ _ _ _ H Hm) as (p & Hp & Hb).
  cbv beta in Hb.
  rewrite nth_error_range in Hp.
  destruct (m <? Z.to_nat 16)%nat eqn:L16; [| discriminate].
  apply Nat.ltb_lt in L16. change (Z.to_nat 16) with 16%nat in L16.
  injection Hp as <-.
  assert (Eq4 : Z.of_nat m / 4 = Z.of_nat (m / 4))
    by (rewrite Nat2Z.inj_div; reflexivity).
  assert (Em4 : Z.of_nat m mod 4 = Z.of_nat (m mod 4))
    by (rewrite Nat2Z.inj_mod; reflexivity).
  rewrite Eq4, Em4 in Hb.
  assert (Hk : (m mod 4 < 4)%nat) by (apply Nat.mod_upper_bound; lia).
  destruct (getitem quad_pos (Z.of_nat (m / 4))) as [[qx qy] |] eqn:Eqc;
    [| discriminate].
  cbn [bind] in Hb.
  destruct (getitem_ok [0; 0; 1; 1] (m mod 4) Hk) as (ac & E1 & N1).
  destruct (getitem_ok [0; -1; -1; 0] (m mod 4) Hk) as (up_p & E2 & N2).
  rewrite E1, E2 in Hb. cbn [bind] in Hb.
  apply comprehension_Forall2 in Hb.
  destruct (Forall2_nth_r _ _ _ _ _ Hb Ht) as (a & Ha & Htile).
  cbv beta in Htile.
  rewrite nth_error_range in Ha.
  destruct (t <? Z.to_nat 16)%nat eqn:L8; [| discriminate].
  apply Nat.ltb_lt in L8. change (Z.to_nat 16) with 16%nat in L8.
  injection Ha as <-.
  exists (qx, qy), ac, up_p.
  exists (fst (if Z.of_nat t <? 8 then (- Z.of_nat t, 0)
               else (- (15 - Z.of_nat t), 1))),
         (snd (if Z.of_nat t <? 8 then (- Z.of_nat t, 0)
               else (- (15 - Z.of_nat t), 1))).
  split.
  { destruct (nth_error quad_pos (m / 4)) as [qc' |] eqn:En.
    - rewrite (getitem_nth _ _ _ En) in Eqc. congruence.
    - apply nth_error_None in En.
      rewrite getitem_beyond in Eqc by exact En. discriminate. }
  split; [exact L16 | split; [exact L8 | split; [exact N1 |
    split; [exact N2 | split]]]].
  - destruct (Z.of_nat t <? 8); reflexivity.
  - revert Htile. destruct (Z.of_nat t <? 8); cbn [fst snd];
      intros Htile; injection Htile as <-; reflexivity.
Qed.

(** The placement rectangle of a snapped LPD-1M tile. *)
Lemma lpd_snapped_block (cx cy : Q) (g : GridGeometryFragment) :
  GeometryFragment.snap
    (MkFragment (V3 cx cy 0) (V3 0 1 0) (V3 1 0 0) 32 128) = Ok g ->
  corner_idx g = (around cy, around cx)
  /\ opp_corner_idx g = (around cy + 32, around cx + 128).
Proof.
  intros H.
  unfold GeometryFragment.snap, GeometryFragment.rounded_corner,
    GeometryFragment.rounded_ss, GeometryFragment.rounded_fs, around2, first2
    in H.
  cbn [corner_pos ss_vec fs_vec ss_pixels fs_pixels vx vy fst snd] in H.
  change (around 0) with 0 in H. change (around 1) with 1 in H.
  remember (around cx) as rcx eqn:Ex. remember (around cy) as rcy eqn:Ey.
  clear Ex Ey.
  cbv -[Z.add] in H. injection H as <-.
  cbn [corner_idx opp_corner_idx].
  split; f_equal; lia.
Qed.

Lemma lpd_cols_apart (qx ag pg : Q) (P across P' across' : Z) :
  (0 <= ag)%Q -> (0 <= pg)%Q ->
  0 <= P <= 1 -> 0 <= across <= 1 -> 0 <= P' <= 1 -> 0 <= across' <= 1 ->
  2 * P + across < 2 * P' + across' ->
  around (qx + inject_Z P * (256 + ag + pg)
          + (inject_Z 128 + ag) * inject_Z across) + 128
  <= around (qx + inject_Z P' * (256 + ag + pg)
             + (inject_Z 128 + ag) * inject_Z across').
Proof.
  intros Hag Hpg HP Ha HP' Ha' Hlt.
  apply around_apart; [reflexivity |].
  assert (EP : P = 0 \/ P = 1) by lia.
  assert (Ea : across = 0 \/ across = 1) by lia.
  assert (EP' : P' = 0 \/ P' = 1) by lia.
  assert (Ea' : across' = 0 \/ across' = 1) by lia.
  destruct EP as [-> | ->], Ea as [-> | ->], EP' as [-> | ->],
           Ea' as [-> | ->]; try (exfalso; lia);
    change (inject_Z 0) with 0%Q; change (inject_Z 1) with 1%Q;
    change (inject_Z 128) with 128%Q; lra.
Qed.

Lemma lpd_rows_apart (qy ag pg : Q) (U up U' up' : Z) :
  (0 <= ag)%Q -> (0 <= pg)%Q ->
  -1 <= U <= 0 -> -7 <= up <= 0 -> -1 <= U' <= 0 -> -7 <= up' <= 0 ->
  8 * U + up < 8 * U' + up' ->
  around (qy + inject_Z U * (256 + 7 * ag + pg) - inject_Z 32
          + (inject_Z 32 + ag) * inject_Z up) + 32
  <= around (qy + inject_Z U' * (256 + 7 * ag + pg) - inject_Z 32
             + (inject_Z 32 + ag) * inject_Z up').
Proof.
  intros Hag Hpg HU Hup HU' Hup' Hlt.
  apply around_apart; [reflexivity |].
  assert (EU : U = 0 \/ U = -1) by lia.
  assert (EU' : U' = 0 \/ U' = -1) by lia.
  change (inject_Z 32) with 32%Q.
  destruct EU as [-> | ->], EU' as [-> | ->]; try (exfalso; lia);
    change (inject_Z 0) with 0%Q; change (inject_Z (-1)) with (-1)%Q.
  - pose proof (pitch_apart 32 ag up up' ltac:(lra) Hag ltac:(lia)). lra.
  - assert (B1 : (inject_Z up <= 0)%Q)
      by (change 0%Q with (inject_Z 0); rewrite <- Zle_Qle; lia).
    assert (B2 : (- 7 <= inject_Z up')%Q)
      by (change (-7)%Q with (inject_Z (-7)); rewrite <- Zle_Qle; lia).
    nra.
  - pose proof (pitch_apart 32 ag up up' ltac:(lra) Hag ltac:(lia)). lra.
Qed.

(** The place of a module in its quadrant, and of a tile in its module. *)
Lemma lpd_module_place (k k' : nat) (P U P' U' : Z) :
  nth_error [0; 0; 1; 1] k = Some P -> nth_error [0; -1; -1; 0] k = Some U ->
  nth_error [0; 0; 1; 1] k' = Some P' ->
  nth_error [0; -1; -1; 0] k' = Some U' ->
  0 <= P <= 1 /\ -1 <= U <= 0 /\ 0 <= P' <= 1 /\ -1 <= U' <= 0
  /\ (k = k' <-> (P = P' /\ U = U')).
Proof.
  intros HP HU HP' HU'.
  assert (Hk : (k < length [0%Z; 0%Z; 1%Z; 1%Z])%nat)
    by (apply nth_error_Some; congruence).
  assert (Hk' : (k' < length [0%Z; 0%Z; 1%Z; 1%Z])%nat)
    by (apply nth_error_Some; congruence).
  cbn [length] in Hk, Hk'.
  destruct k as [| [| [| [| k]]]]; try (exfalso; lia);
    destruct k' as [| [| [| [| k']]]]; try (exfalso; lia);
    clear Hk Hk'; simpl in HP, HU, HP', HU';
    injection HP as <-; injection HU as <-;
    injection HP' as <-; injection HU' as <-;
    (split; [lia | split; [lia | split; [lia | split; [lia |]]]]);
    (split; [intros E | intros [E1 E2]]; try discriminate; auto).
Qed.

Lemma lpd_tile_place (t t' : nat) (up ac up' ac' : Z) :
  (t < 16)%nat -> (t' < 16)%nat ->
  (up, ac) = (if Z.of_nat t <? 8 then (- Z.of_nat t, 0)
              else (- (15 - Z.of_nat t), 1)) ->
  (up', ac') = (if Z.of_nat t' <? 8 then (- Z.of_nat t', 0)
                else (- (15 - Z.of_nat t'), 1)) ->
  -7 <= up <= 0 /\ 0 <= ac <= 1 /\ -7 <= up' <= 0 /\ 0 <= ac' <= 1
  /\ (t = t' <-> (up = up' /\ ac = ac')).
Proof.
  intros Lt Lt' Hup Hup'.
  destruct (Z.of_nat t <? 8) eqn:E8, (Z.of_nat t' <? 8) eqn:E8';
    apply pair_equal_spec in Hup, Hup';
    destruct Hup as [-> ->], Hup' as [-> ->];
    repeat match goal with
           | H : (_ <? _) = true |- _ => apply Z.ltb_lt in H
           | H : (_ <? _) = false |- _ => apply Z.ltb_ge in H
           end;
    repeat split; lia.
Qed.

(** With exact sums and unbounded rounding, the tiles of a quadrant of a
    generated LPD-1M geometry stay apart when they are snapped, for gaps
    that are not negative. *)
Lemma lpd_quadrant_tiles_apart (quad_pos : list qvec2)
    (asic_gap panel_gap : Q) (ms : fragments) (sg : SnappedGeometry) :
  (0 <= asic_gap)%Q -> (0 <= panel_gap)%Q ->
  LPD_1MGeometry.from_quad_positions quad_pos asic_gap panel_gap = Ok ms ->
  DetectorGeometryBase.compute_snapped (DetectorGeometryBase.init LPD_1M ms)
  = Ok sg ->
  tiles_disjoint_in_quadrants sg.
Proof.
  intros Hag Hpg Hms Hsg m t m' t' g g' r c Hg Hg' Hquad Hne [B B'].
  destruct (snapped_tile_at _ sg m t g Hsg Hg) as (mod_ & tile & Hm & Ht & Hs).
  destruct (snapped_tile_at _ sg m' t' g' Hsg Hg')
    as (mod' & tile' & Hm' & Ht' & Hs').
  cbn [modules DetectorGeometryBase.init] in Hm, Hm'.
  destruct (lpd_generated_nth _ _ _ ms m t mod_ tile Hms Hm Ht)
    as (qc & P & U & up & ac & Hqc & Lm & Lt & HP & HU & Hup & ->).
  destruct (lpd_generated_nth _ _ _ ms m' t' mod' tile' Hms Hm' Ht')
    as (qc' & P' & U' & up' & ac' & Hqc' & Lm' & Lt' & HP' & HU' & Hup' & ->).
  rewrite <- Hquad in Hqc'.
  assert (qc' = qc) by congruence. subst qc'.
  destruct (lpd_snapped_block _ _ g Hs) as (Ec & Eo).
  destruct (lpd_snapped_block _ _ g' Hs') as (Ec' & Eo').
  unfold in_block in B, B'. rewrite Ec, Eo in B. rewrite Ec', Eo' in B'.
  cbn [fst snd] in B, B'.
  assert (Hmod : (m mod 4 = m' mod 4)%nat -> m = m').
  { intros E. rewrite (Nat.div_mod_eq m 4), (Nat.div_mod_eq m' 4). lia. }
  destruct (lpd_module_place _ _ _ _ _ _ HP HU HP' HU')
    as (RP & RU & RP' & RU' & Hiff).
  destruct (lpd_tile_place _ _ _ _ _ _ Lt Lt' Hup Hup')
    as (Rup & Rac & Rup' & Rac' & Htiff).
  assert (Hd : (m mod 4 <> m' mod 4)%nat \/ t <> t').
  { destruct (Nat.eq_dec (m mod 4) (m' mod 4)) as [E | N];
      [right | left; exact N].
    intros ->. apply Hne. f_equal. exact (Hmod E). }
  assert (HZ : ~ (P = P' /\ U = U') \/ ~ (up = up' /\ ac = ac')) by tauto.
  clear - Hag Hpg B B' RP RU RP' RU' Rup Rac Rup' Rac' HZ.
  assert (Hcase : 2 * P + ac < 2 * P' + ac' \/ 2 * P' + ac' < 2 * P + ac
                  \/ 8 * U + up < 8 * U' + up' \/ 8 * U' + up' < 8 * U + up)
    by lia.
  clear HZ.
  destruct Hcase as [L | [L | [L | L]]].
  - pose proof (lpd_cols_apart (fst qc) asic_gap panel_gap P ac P' ac'
                  Hag Hpg RP Rac RP' Rac' L). lia.
  - pose proof (lpd_cols_apart (fst qc) asic_gap panel_gap P' ac' P ac
                  Hag Hpg RP' Rac' RP Rac L). lia.
  - pose proof (lpd_rows_apart (snd qc) asic_gap panel_gap U up U' up'
                  Hag Hpg RU Rup RU' Rup' L). lia.
  - pose proof (lpd_rows_apart (snd qc) asic_gap panel_gap U' up' U up
                  Hag Hpg RU' Rup' RU Rup L). lia.
Qed.


Lemma sample_lpd_modules_generated :
  LPD_1MGeometry.from_quad_positions sample_quad_pos 4 4
  = Ok sample_lpd_modules.
Proof. vm_compute. reflexivity. Qed.

Lemma sample_lpd_snapped_computed :
  DetectorGeometryBase.compute_snapped
    (DetectorGeometryBase.init LPD_1M sample_lpd_modules)
  = Ok sample_lpd_snapped.
Proof. vm_compute. reflexivity. Qed.

(** ** Generated geometries on the grid *)

Lemma on_grid_around (q : Q) :
  on_grid 1099511627776 q -> -1073741824 <= around q <= 1073741824.
Proof.
  intros (n & E & Hn).
  assert (Hq : (- 1073741824 <= q <= 1073741824)%Q).
  { rewrite E.
    assert (L : (inject_Z (-1099511627776) <= inject_Z n)%Q)
      by (rewrite <- Zle_Qle; lia).
    assert (U : (inject_Z n <= inject_Z 1099511627776)%Q)
      by (rewrite <- Zle_Qle; lia).
    change (inject_Z (-1099511627776)) with (-1099511627776)%Q in L.
    change (inject_Z 1099511627776) with 1099511627776%Q in U.
    unfold Qdiv. change (/ 1024)%Q with (1 # 1024)%Q. lra. }
  pose proof (around_close q) as Hc. apply Qabs_Qle_condition in Hc.
  assert (L : (inject_Z (-1073741824 - 1) < inject_Z (around q))%Q).
  { change (inject_Z (-1073741824 - 1)) with (-1073741825)%Q. lra. }
  assert (U : (inject_Z (around q) < inject_Z (1073741824 + 1))%Q).
  { change (inject_Z (1073741824 + 1)) with 1073741825%Q. lra. }
  rewrite <- Zlt_Qlt in L, U. lia.
Qed.

(** The corner of a generated AGIPD-1M tile lies on the grid. *)
Lemma agipd_corner_on_grid (qc : qvec2) (asic_gap panel_gap : Q) (xo : Z)
    (m t : nat) :
  exact_position qc -> exact_coordinate asic_gap ->
  exact_coordinate panel_gap ->
  xo = 1 \/ xo = -1 -> (m < 16)%nat -> (t < 8)%nat ->
  on_grid 1099511627776
    (fst qc + inject_Z xo * (64 + asic_gap) * inject_Z (Z.of_nat t))
  /\ on_grid 1099511627776
       (snd qc - inject_Z (Z.of_nat (m mod 4)) * (128 + panel_gap)).
Proof.
  intros [(nx & Ex & Hx) (ny & Ey & Hy)] (na & Ea & Ha) (np & Ep & Hp)
         Hxo Hm Ht.
  assert (Hm4 : (m mod 4 < 4)%nat) by (apply Nat.mod_upper_bound; lia).
  split.
  - exists (nx + xo * (65536 + na) * Z.of_nat t). split.
    + rewrite Ex, Ea.
      rewrite !inject_Z_plus, !inject_Z_mult, !inject_Z_plus.
      change (inject_Z 65536) with 65536%Q.
      unfold Qdiv. change (/ 1024)%Q with (1 # 1024)%Q. ring.
    + destruct Hxo as [-> | ->]; nia.
  - exists (ny - Z.of_nat (m mod 4) * (131072 + np)). split.
    + rewrite Ey, Ep. unfold Z.sub.
      rewrite !inject_Z_plus, !inject_Z_opp, !inject_Z_mult, !inject_Z_plus.
      change (inject_Z 131072) with 131072%Q.
      unfold Qdiv. change (/ 1024)%Q with (1 # 1024)%Q. ring.
    + nia.
Qed.

(** The corner of a generated LPD-1M tile lies on the grid. *)
Lemma lpd_corner_on_grid (qc : qvec2) (asic_gap panel_gap : Q)
    (P U up ac : Z) :
  exact_position qc -> exact_coordinate asic_gap ->
  exact_coordinate panel_gap ->
  0 <= P <= 1 -> -1 <= U <= 0 -> -7 <= up <= 0 -> 0 <= ac <= 1 ->
  on_grid 1099511627776
    (fst qc + inject_Z P * (256 + asic_gap + panel_gap)
     + (inject_Z 128 + asic_gap) * inject_Z ac)
  /\ on_grid 1099511627776
       (snd qc + inject_Z U * (256 + 7 * asic_gap + panel_gap)
        - inject_Z 32 + (inject_Z 32 + asic_gap) * inject_Z up).
Proof.
  intros [(nx & Ex & Hx) (ny & Ey & Hy)] (na & Ea & Ha) (np & Ep & Hp)
         HP HU Hup Hac.
  split.
  - exists (nx + P * (262144 + na + np) + (131072 + na) * ac). split.
    + rewrite Ex, Ea, Ep.
      rewrite !inject_Z_plus, !inject_Z_mult, !inject_Z_plus.
      change (inject_Z 262144) with 262144%Q.
      change (inject_Z 131072) with 131072%Q.
      change (inject_Z 128) with 128%Q.
      unfold Qdiv. change (/ 1024)%Q with (1 # 1024)%Q. ring.
    + assert (EP : P = 0 \/ P = 1) by lia.
      assert (Ea' : ac = 0 \/ ac = 1) by lia.
      destruct EP as [-> | ->], Ea' as [-> | ->]; lia.
  - exists (ny + U * (262144 + 7 * na + np) - 32768 + (32768 + na) * up).
    split.
    + rewrite Ey, Ea, Ep. unfold Z.sub.
      rewrite !inject_Z_plus, !inject_Z_opp, !inject_Z_mult, !inject_Z_plus,
        !inject_Z_mult.
      change (inject_Z 262144) with 262144%Q.
      change (inject_Z 32768) with 32768%Q.
      change (inject_Z 32) with 32%Q. change (inject_Z 7) with 7%Q.
      unfold Qdiv. change (/ 1024)%Q with (1 # 1024)%Q. ring.
    + assert (EU : U = 0 \/ U = -1) by lia.
      assert (Eu : up = 0 \/ up = -1 \/ up = -2 \/ up = -3 \/ up = -4
                   \/ up = -5 \/ up = -6 \/ up = -7) by lia.
      destruct EU as [-> | ->];
        destruct Eu as [-> | [-> | [-> | [-> | [-> | [-> | [-> | ->]]]]]]];
        lia.
Qed.

(** X18. The tiles of a quadrant of a generated AGIPD-1M geometry stay apart
    when they are snapped. For quadrant positions and gaps that are
    multiples of 1/1024 pixel and at most 2 ^ 25 pixels in absolute value,
    the gaps not negative: the corner of every tile is a multiple of 1/1024
    and at most 2 ^ 30 in absolute value (so are the sums and products that
    give it, which binary64 therefore computes exactly); the placement
    rectangle of every snapped tile lies in the range of [int32] (the cast
    of [snap] keeps it); and no two tiles of the same quadrant share a cell
    of the canvas, so fast assembly overwrites no pixel of a quadrant with
    another of the same quadrant. *)
Theorem generated_agipd_quadrants_keep_tiles_apart (quad_pos : list qvec2)
    (asic_gap panel_gap : Q) (ms : fragments) (sg : SnappedGeometry) :
  Forall exact_position quad_pos ->
  exact_coordinate asic_gap -> exact_coordinate panel_gap ->
  (0 <= asic_gap)%Q -> (0 <= panel_gap)%Q ->
  AGIPD_1MGeometry.from_quad_positions quad_pos asic_gap panel_gap = Ok ms ->
  DetectorGeometryBase.compute_snapped (DetectorGeometryBase.init AGIPD_1M ms)
  = Ok sg ->
  (forall (m t : nat) (mod_ : list GeometryFragment) (tile : GeometryFragment),
     nth_error ms m = Some mod_ -> nth_error mod_ t = Some tile ->
     on_grid 1099511627776 (vx (corner_pos tile))
     /\ on_grid 1099511627776 (vy (corner_pos tile)))
  /\ (forall (m t : nat) (g : GridGeometryFragment),
        tile_at sg m t = Some g ->
        fits_int32 (corner_idx g) /\ fits_int32 (opp_corner_idx g))
  /\ tiles_disjoint_in_quadrants sg.
Proof.
  intros Hqp Hea Hep Hag Hpg Hms Hsg.
  assert (Hgrid : forall (m t : nat) (mod_ : list GeometryFragment)
                         (tile : GeometryFragment),
             nth_error ms m = Some mod_ -> nth_error mod_ t = Some tile ->
             on_grid 1099511627776 (vx (corner_pos tile))
             /\ on_grid 1099511627776 (vy (corner_pos tile))).
  { intros m t mod_ tile Hm Ht.
    destruct (agipd_generated_nth _ _ _ ms m t mod_ tile Hms Hm Ht)
      as (qc & xo & yo & Hqc & Lm & Lt & Hxo & Ho & ->).
    cbn [corner_pos vx vy].
    apply agipd_corner_on_grid; try assumption.
    - rewrite Forall_forall in Hqp. apply Hqp.
      eapply nth_error_In. exact Hqc.
    - destruct Ho as [[? _] | [? _]]; auto. }
  split; [exact Hgrid | split].
  - intros m t g Hg.
    destruct (snapped_tile_at _ sg m t g Hsg Hg)
      as (mod_ & tile & Hm & Ht & Hs).
    cbn [modules DetectorGeometryBase.init] in Hm.
    destruct (Hgrid m t mod_ tile Hm Ht) as [Gx Gy].
    destruct (agipd_generated_nth _ _ _ ms m t mod_ tile Hms Hm Ht)
      as (qc & xo & yo & _ & _ & _ & _ & Ho & ->).
    cbn [corner_pos vx vy] in Gx, Gy.
    apply on_grid_around in Gx, Gy.
    destruct (agipd_snapped_block _ _ xo yo g Ho Hs) as (_ & Eo & Ec).
    rewrite Eo, Ec. unfold fits_int32.
    destruct (xo =? 1); cbn [z2add fst snd]; lia.
  - exact (agipd_quadrant_tiles_apart quad_pos asic_gap
             panel_gap ms sg Hag Hpg Hms Hsg).
Qed.

(** X19. The tiles of a quadrant of a generated LPD-1M geometry stay apart
    when they are snapped. For quadrant positions and gaps that are
    multiples of 1/1024 pixel and at most 2 ^ 25 pixels in absolute value,
    the gaps not negative: the corner of every tile is a multiple of 1/1024
    and at most 2 ^ 30 in absolute value (so are the sums and products that
    give it, which binary64 therefore computes exactly); the placement
    rectangle of every snapped tile lies in the range of [int32]; and no
    two tiles of the same quadrant share a cell of the canvas. *)
Theorem generated_lpd_quadrants_keep_tiles_apart (quad_pos : list qvec2)
    (asic_gap panel_gap : Q) (ms : fragments) (sg : SnappedGeometry) :
  Forall exact_position quad_pos ->
  exact_coordinate asic_gap -> exact_coordinate panel_gap ->
  (0 <= asic_gap)%Q -> (0 <= panel_gap)%Q ->
  LPD_1MGeometry.from_quad_positions quad_pos asic_gap panel_gap = Ok ms ->
  DetectorGeometryBase.compute_snapped (DetectorGeometryBase.init LPD_1M ms)
  = Ok sg ->
  (forall (m t : nat) (mod_ : list GeometryFragment) (tile : GeometryFragment),
     nth_error ms m = Some mod_ -> nth_error mod_ t = Some tile ->
     on_grid 1099511627776 (vx (corner_pos tile))
     /\ on_grid 1099511627776 (vy (corner_pos tile)))
  /\ (forall (m t : nat) (g : GridGeometryFragment),
        tile_at sg m t = Some g ->
        fits_int32 (corner_idx g) /\ fits_int32 (opp_corner_idx g))
  /\ tiles_disjoint_in_quadrants sg.
Proof.
  intros Hqp Hea Hep Hag Hpg Hms Hsg.
  assert (Hgrid : forall (m t : nat) (mod_ : list GeometryFragment)
                         (tile : GeometryFragment),
             nth_error ms m = Some mod_ -> nth_error mod_ t = Some tile ->
             exists cx cy,
               tile = MkFragment (V3 cx cy 0) (V3 0 1 0) (V3 1 0 0) 32 128
               /\ on_grid 1099511627776 cx /\ on_grid 1099511627776 cy).
  { intros m t mod_ tile Hm Ht.
    destruct (lpd_generated_nth _ _ _ ms m t mod_ tile Hms Hm Ht)
      as (qc & P & U & up & ac & Hqc & Lm & Lt & HP & HU & Hup & ->).
    destruct (lpd_module_place _ _ _ _ _ _ HP HU HP HU)
      as (RP & RU & _).
    destruct (lpd_tile_place _ _ _ _ _ _ Lt Lt Hup Hup)
      as (Rup & Rac & _).
    eexists. eexists. split; [reflexivity |].
    apply lpd_corner_on_grid; try assumption.
    rewrite Forall_forall in Hqp. apply Hqp.
    eapply nth_error_In. exact Hqc. }
  split; [| split].
  - intros m t mod_ tile Hm Ht.
    destruct (Hgrid m t mod_ tile Hm Ht) as (cx & cy & -> & Gx & Gy).
    split; assumption.
  - intros m t g Hg.
    destruct (snapped_tile_at _ sg m t g Hsg Hg)
      as (mod_ & tile & Hm & Ht & Hs).
    cbn [modules DetectorGeometryBase.init] in Hm.
    destruct (Hgrid m t mod_ tile Hm Ht) as (cx & cy & -> & Gx & Gy).
    apply on_grid_around in Gx, Gy.
    destruct (lpd_snapped_block _ _ g Hs) as (Ec & Eo).
    rewrite Eo, Ec. unfold fits_int32. cbn [fst snd]. lia.
  - exact (lpd_quadrant_tiles_apart quad_pos asic_gap
             panel_gap ms sg Hag Hpg Hms Hsg).
Qed.

Ltac exact_coordinate_by n :=
  exists n; split; [vm_compute; reflexivity | vm_compute; discriminate].

Lemma sample_quad_pos_exact : Forall exact_position sample_quad_pos.
Proof.
  unfold sample_quad_pos.
  apply Forall_cons;
    [split; [exact_coordinate_by (-537600) | exact_coordinate_by 640000] |].
  apply Forall_cons;
    [split; [exact_coordinate_by (-563200) | exact_coordinate_by (-10240)] |].
  apply Forall_cons;
    [split; [exact_coordinate_by 532480 | exact_coordinate_by (-163840)] |].
  apply Forall_cons;
    [split; [exact_coordinate_by 555520 | exact_coordinate_by 486400] |].
  apply Forall_nil.
Qed.

Lemma generated_agipd_quadrants_keep_tiles_apart_witness :
  (forall (m t : nat) (mod_ : list GeometryFragment) (tile : GeometryFragment),
     nth_error sample_modules m = Some mod_ -> nth_error mod_ t = Some tile ->
     on_grid 1099511627776 (vx (corner_pos tile))
     /\ on_grid 1099511627776 (vy (corner_pos tile)))
  /\ (forall (m t : nat) (g : GridGeometryFragment),
        tile_at sample_snapped m t = Some g ->
        fits_int32 (corner_idx g) /\ fits_int32 (opp_corner_idx g))
  /\ tiles_disjoint_in_quadrants sample_snapped.
Proof.
  apply (generated_agipd_quadrants_keep_tiles_apart sample_quad_pos 2 29
           sample_modules sample_snapped).
  - exact sample_quad_pos_exact.
  - exact_coordinate_by 2048.
  - exact_coordinate_by 29696.
  - discriminate.
  - discriminate.
  - exact sample_modules_generated.
  - exact sample_snapped_computed.
Defined.

Lemma generated_lpd_quadrants_keep_tiles_apart_witness :
  (forall (m t : nat) (mod_ : list GeometryFragment) (tile : GeometryFragment),
     nth_error sample_lpd_modules m = Some mod_ ->
     nth_error mod_ t = Some tile ->
     on_grid 1099511627776 (vx (corner_pos tile))
     /\ on_grid 1099511627776 (vy (corner_pos tile)))
  /\ (forall (m t : nat) (g : GridGeometryFragment),
        tile_at sample_lpd_snapped m t = Some g ->
        fits_int32 (corner_idx g) /\ fits_int32 (opp_corner_idx g))
  /\ tiles_disjoint_in_quadrants sample_lpd_snapped.
Proof.
  apply (generated_lpd_quadrants_keep_tiles_apart sample_quad_pos 4 4
           sample_lpd_modules sample_lpd_snapped).
  - exact sample_quad_pos_exact.
  - exact_coordinate_by 4096.
  - exact_coordinate_by 4096.
  - discriminate.
  - discriminate.
  - exact sample_lpd_modules_generated.
  - exact sample_lpd_snapped_computed.
Defined.

(** ** What the resampler is asked for *)

Lemma quarter_turn_trace_det (a b c d : Q) :
  (a * a + b * c == -1)%Q -> (c * a + d * c == 0)%Q ->
  (a * b + b * d == 0)%Q -> (c * b + d * d == -1)%Q ->
  (d == - a)%Q /\ (a * d - b * c == 1)%Q.
Proof.
  intros H1 H2 H3 H4.
  destruct (Qeq_dec (a + d) 0) as [E | N].
  - split; [lra | nra].
  - exfalso.
    assert (Hb : (b * (a + d) == 0)%Q) by lra.
    assert (Hc : (c * (a + d) == 0)%Q) by lra.
    apply Qmult_integral in Hb, Hc.
    destruct Hb as [Hb | Hb]; [| contradiction].
    destruct Hc as [Hc | Hc]; [| contradiction].
    nra.
Qed.

(** X20. The interpolating assembler asks the resampler for the right pixels
    of a tile that is turned by a quarter, as every tile of a generated
    AGIPD-1M geometry is. The resampler takes the output element at a
    position from the input at [matrix * position + offset]; the matrix
    and the offset that [position_modules_interpolate] hands over send the
    canvas position of every raw pixel of the tile, the corner plus the
    centre plus the index along the two vectors, back to the index of the
    pixel. *)
Theorem resampler_finds_pixels_of_quarter_turned_tile
    (t : GeometryFragment) (centre : zvec2) :
  quarter_turn t ->
  exists (matrix : mat2) (offset : qvec2),
    (forall (affine_transform : ndarray -> mat2 -> qvec2 -> zvec2 -> ndarray)
            (size_yx : zvec2) (i j : nat) (tile_data tmp : ndarray),
        AGIPD_1MGeometry.interpolate_tile affine_transform size_yx centre i j
          t tile_data tmp
        = Ok (AGIPD_1MGeometry.set_plane tmp (Z.of_nat (i * 8 + j))
                (affine_transform tile_data matrix offset size_yx)))
    /\ forall p : qvec2,
         qv2eq (qv2add (mat2_dot matrix (canvas_position t centre p)) offset)
               p.
Proof.
  intros Hq.
  destruct (Hq (1, 0)%Q) as [H1 H2]. destruct (Hq (0, 1)%Q) as [H3 H4].
  unfold rotation_yx, mat2_dot in H1, H2, H3, H4.
  cbn [fst snd] in H1, H2, H3, H4.
  destruct (quarter_turn_trace_det (vy (ss_vec t)) (vy (fs_vec t))
              (vx (ss_vec t)) (vx (fs_vec t)))
    as [Hd Hdet]; [lra | lra | lra | lra |].
  unfold AGIPD_1MGeometry.interpolate_tile, mat2_inv, rev2, first2.
  cbn [fst snd].
  destruct (Qeq_bool _ 0) eqn:E.
  { apply Qeq_bool_iff in E. lra. }
  cbn [bind].
  eexists. eexists. split; [intros; reflexivity |].
  intros [p1 p2].
  unfold qv2eq, qv2add, canvas_position, corner_yx, rotation_yx, mat2_dot.
  cbn [fst snd].
  remember (vy (ss_vec t)) as a. remember (vy (fs_vec t)) as b.
  remember (vx (ss_vec t)) as c. remember (vx (fs_vec t)) as d.
  remember (vy (corner_pos t) + inject_Z (fst centre))%Q as cy.
  remember (vx (corner_pos t) + inject_Z (snd centre))%Q as cx.
  assert (Hinv : forall x : Q, (x / (a * d - b * c) == x)%Q).
  { intros x. rewrite Hdet. field. }
  rewrite !Hinv.
  assert (K1 : ((a * d - b * c) * p1 == p1)%Q) by (rewrite Hdet; ring).
  assert (K2 : ((a * d - b * c) * p2 == p2)%Q) by (rewrite Hdet; ring).
  assert (K3 : ((d + a) * cy == 0)%Q) by (rewrite Hd; ring).
  assert (K4 : ((d + a) * cx == 0)%Q) by (rewrite Hd; ring).
  unfold qv2add. cbn [fst snd].
  split; lra.
Qed.

Lemma resampler_finds_pixels_of_quarter_turned_tile_witness :
  exists (matrix : mat2) (offset : qvec2),
    (forall (affine_transform : ndarray -> mat2 -> qvec2 -> zvec2 -> ndarray)
            (size_yx : zvec2) (i j : nat) (tile_data tmp : ndarray),
        AGIPD_1MGeometry.interpolate_tile affine_transform size_yx (632, 551)
          i j sample_tile tile_data tmp
        = Ok (AGIPD_1MGeometry.set_plane tmp (Z.of_nat (i * 8 + j))
                (affine_transform tile_data matrix offset size_yx)))
    /\ forall p : qvec2,
         qv2eq (qv2add (mat2_dot matrix
                          (canvas_position sample_tile (632, 551) p)) offset)
               p.
Proof.
  apply (resampler_finds_pixels_of_quarter_turned_tile sample_tile (632, 551)).
  intros [p1 p2]. unfold qv2eq, rotation_yx, mat2_dot, sample_tile.
  cbn [fst snd ss_vec fs_vec vx vy]. split; ring.
Defined.

(** The tiles of a generated AGIPD-1M geometry are turned by a quarter. *)
Lemma agipd_generated_tile_quarter_turn (quad_pos : list qvec2)
    (asic_gap panel_gap : Q) (ms : fragments) (t : GeometryFragment) :
  AGIPD_1MGeometry.from_quad_positions quad_pos asic_gap panel_gap = Ok ms ->
  In t (concat ms) -> quarter_turn t.
Proof.
  intros H Ht.
  destruct (agipd_generated_tile _ _ _ _ t H Ht)
    as (_ & _ & [[Es Ef] | [Es Ef]]);
    intros [p1 p2]; unfold qv2eq, rotation_yx, mat2_dot; rewrite Es, Ef;
    cbn [fst snd vx vy]; split; ring.
Qed.

(** The turn is needed. For a tile with the slow scan along y and the fast
    scan along x, at the origin, and the centre (1, 1), the position of the
    first pixel is sent to twice the tile's corner on the canvas, (2, 2),
    not to the index (0, 0). *)
Example resampler_misses_pixels_of_unturned_tile :
  match mat2_inv (rotation_yx (MkFragment (V3 0 0 0) (V3 0 1 0) (V3 1 0 0)
                                          32 128)) with
  | Ok matrix =>
      let t := MkFragment (V3 0 0 0) (V3 0 1 0) (V3 1 0 0) 32 128 in
      let offset := mat2_dot (rotation_yx t) (corner_yx t (1, 1)) in
      qv2eq (qv2add (mat2_dot matrix (canvas_position t (1, 1) (0, 0)%Q))
                    offset)
            (2, 2)%Q
  | Raise _ => False
  end.
Proof. vm_compute. split; reflexivity. Qed.
